(** * The tabular data-cleaning pipeline of [datacleaning.ipynb]

    A shallow embedding of the five notebook functions
    [check_data_quality], [standardize_datatypes], [handle_missing_values],
    [remove_outliers], [validate_cleaning] and of their orchestrator
    [automated_cleaning_pipeline], followed by the properties the
    specification states about them.

    The notebook drives pandas, NumPy and scikit-learn; the library calls it
    makes are modelled here one definition per call, named after the call.
    Conventions of the model:
    - a column is a [Series] tagged with its dtype, one of [object] (text),
      [int64], [float64] and [datetime64]; an [int64] column cannot hold a
      missing cell, the three other dtypes can;
    - a cell of an [object] column is a string or one of the two missing
      markers such a column can hold, Python's [None] and the float NaN;
      pandas ([isnull], [duplicated], the conversions) treats both as
      missing, [SimpleImputer] only NaN: to it [None] is a value;
    - a [float64] value is a rational or NaN ([None]); every arithmetic
      operation rounds its exact result to 53 significant bits, to nearest
      and ties to even ([round64]); the exponent range of [float64] is
      taken unbounded, so overflow, infinities and subnormal numbers are
      outside the model;
    - an [int64] value is an integer, read as the nearest [float64]
      wherever the libraries compute or compare in floating point; the one
      [int64] operation of the pipeline, the difference of two neighbouring
      order statistics inside [np.percentile], is exact up to wrap-around;
    - [Series.clip] puts its two bounds in increasing order before it
      clips, and a NaN bound is no bound;
    - [pd.to_datetime] infers one format from the first present cell of a
      column and reads every cell in it, [pd.to_numeric] reads cell by
      cell and takes an empty string for NaN; what either reads from a
      non-empty string is a parameter of the model;
    - the one table the pipeline mutates in place is the state of a small
      state-and-exception monad [Py]; column labels are distinct in a
      well-formed table ([wf_df]). *)

From Stdlib Require Import ZArith QArith Qround Qreduction Qabs Qpower Qminmax Lqa.
From Stdlib Require Import String Ascii List Sorted OrdersEx.
From Stdlib Require Qcanon.
From stdpp Require Import base option list gmap strings.

Local Open Scope string_scope.

(** ** Data model *)

Inductive dtype := object | int64 | float64 | datetime64.

Global Instance dtype_eq_dec : EqDecision dtype.
Proof. solve_decision. Defined.

(** A float64 value: [None] is NaN. *)
Abbreviation float := (option Q).
Abbreviation NaN := (@None Q).

(** What a cell of an [object] column holds when it is not NaN: a string or
    Python's [None]. *)
Inductive pyval :=
| PyStr (s : string)
| PyNone.

Global Instance pyval_eq_dec : EqDecision pyval.
Proof. solve_decision. Defined.

Inductive Series :=
| ObjectSeries (cells : list (option pyval))
| Int64Series (cells : list Z)
| Float64Series (cells : list float)
| DatetimeSeries (cells : list (option Z)).

Definition series_dtype (s : Series) : dtype :=
  match s with
  | ObjectSeries _ => object
  | Int64Series _ => int64
  | Float64Series _ => float64
  | DatetimeSeries _ => datetime64
  end.

Definition series_len (s : Series) : nat :=
  match s with
  | ObjectSeries c => length c
  | Int64Series c => length c
  | Float64Series c => length c
  | DatetimeSeries c => length c
  end.

(** The table: an index (its length and its size in bytes) and the ordered,
    labelled columns. *)
Record DataFrame := {
  index_len : nat;
  index_nbytes : nat;
  columns : list (string * Series)
}.

Definition column_names (df : DataFrame) : list string := (columns df).*1.

(** Labels are distinct and every column has one cell per row. *)
Definition wf_df (df : DataFrame) : Prop :=
  NoDup (column_names df) ∧
  Forall (λ c, series_len c.2 = index_len df) (columns df).

(** A cell as [isnull] and a row comparison see it: a value, or missing. *)
Inductive scalar :=
| Str (s : string)
| Int (z : Z)
| Float (q : Q)
| Time (t : Z).

Definition cell := option scalar.

(** [None] and NaN are both missing. *)
Definition object_cell (c : option pyval) : cell :=
  match c with
  | Some (PyStr s) => Some (Str s)
  | _ => None
  end.

Definition series_cells (s : Series) : list cell :=
  match s with
  | ObjectSeries c => object_cell <$> c
  | Int64Series c => (λ z, Some (Int z)) <$> c
  | Float64Series c => option_map Float <$> c
  | DatetimeSeries c => option_map Time <$> c
  end.

(** ** Exceptions and the state monad over the shared table *)

Inductive exn := ValueError | TypeError | KeyError | ZeroDivisionError.

Global Instance exn_eq_dec : EqDecision exn.
Proof. solve_decision. Defined.

Inductive outcome (A : Type) :=
| Return (a : A)
| Raise (e : exn).
Arguments Return {A} a.
Arguments Raise {A} e.

(** A computation reads and writes the table; a raised exception keeps the
    writes made before it. *)
Definition Py (A : Type) : Type := DataFrame → outcome A * DataFrame.

Global Instance Py_ret : MRet Py := λ A a df, (Return a, df).

Global Instance Py_bind : MBind Py := λ A B f m df,
  match m df with
  | (Return a, df') => f a df'
  | (Raise e, df') => (Raise e, df')
  end.

Definition raise {A} (e : exn) : Py A := λ df, (Raise e, df).

(** A call of a method that only reads the table. *)
Definition reads {A} (f : DataFrame → A) : Py A := λ df, (Return (f df), df).

Definition lift {A} (o : outcome A) : Py A := λ df, (o, df).

(** [try: m except: h] *)
Definition try_except {A} (m : Py A) (h : exn → Py A) : Py A := λ df,
  match m df with
  | (Return a, df') => (Return a, df')
  | (Raise e, df') => h e df'
  end.

(** A loop that threads an accumulator (a local variable of the caller). *)
Fixpoint for_acc {A B} (l : list A) (body : B → A → Py B) (acc : B) : Py B :=
  match l with
  | [] => mret acc
  | x :: l' => acc' ← body acc x; for_acc l' body acc'
  end.

(** [for x in l: body x] *)
Definition for_each {A} (l : list A) (body : A → Py unit) : Py unit :=
  for_acc l (λ _ x, body x) tt.

(** ** Float arithmetic *)

Section Rounding.

Local Open Scope Q_scope.

(** [2 ^ e] *)
Definition bpow (e : Z) : Q := 2 ^ e.

(** The binary exponent [⌊log2 x⌋] of a positive rational. *)
Definition Qlog2 (x : Q) : Z :=
  let k := (Z.log2 (Qnum x) - Z.log2 (Zpos (Qden x)))%Z in
  if Qle_bool (bpow k) x then k else (k - 1)%Z.

(** Rounding to the nearest integer, ties to the even one. *)
Definition rne (x : Q) : Z :=
  let f := Qfloor x in
  match Qcompare (x - inject_Z f) (1 # 2) with
  | Lt => f
  | Gt => (f + 1)%Z
  | Eq => if Z.even f then f else (f + 1)%Z
  end.

Global Instance rne_wd : Proper (Qeq ==> eq) rne.
Proof.
  intros x y E. unfold rne. rewrite (Qfloor_comp x y E).
  assert (Qcompare (x - inject_Z (Qfloor y)) (1 # 2) = Qcompare (y - inject_Z (Qfloor y)) (1 # 2)) as ->;
    [|done].
  apply Qcompare_comp; [|reflexivity]. by rewrite E.
Qed.

(** A positive rational rounded to 53 significant bits. *)
Definition round_pos (x : Q) : Q :=
  let e := (Qlog2 x - 52)%Z in inject_Z (rne (x / bpow e)) * bpow e.

(** The float64 nearest to [x], kept in lowest terms. *)
Definition round64 (x : Q) : Q :=
  match Qnum x with
  | Z0 => 0
  | Zpos _ => Qred (round_pos x)
  | Zneg _ => Qred (- round_pos (- x))
  end.

(** A value of float64: a rational that rounding leaves as it is. *)
Definition binary64 (x : Q) : Prop := round64 x = x.

Definition fadd (a b : float) : float :=
  match a, b with Some x, Some y => Some (round64 (x + y)) | _, _ => NaN end.

Definition fsub (a b : float) : float :=
  match a, b with Some x, Some y => Some (round64 (x - y)) | _, _ => NaN end.

Definition fmul (a b : float) : float :=
  match a, b with Some x, Some y => Some (round64 (x * y)) | _, _ => NaN end.

(** [a / b] for a divisor that is not zero, as everywhere in the notebook
    and in the library code it runs. *)
Definition fdiv (a b : float) : float :=
  match a, b with Some x, Some y => Some (round64 (x / y)) | _, _ => NaN end.

(** Comparisons with NaN are false. *)
Definition flt (a b : float) : bool :=
  match a, b with Some x, Some y => negb (Qle_bool y x) | _, _ => false end.

Definition fle (a b : float) : bool :=
  match a, b with Some x, Some y => Qle_bool x y | _, _ => false end.

(** [float(z)] *)
Definition Z_to_float (z : Z) : float := Some (round64 (inject_Z z)).

End Rounding.

(** ** Table primitives *)

(** [len(df)] *)
Definition len (df : DataFrame) : nat := index_len df.

(** [df.shape] *)
Definition shape (df : DataFrame) : nat * nat := (index_len df, length (columns df)).

(** [df.empty] *)
Definition empty_df (df : DataFrame) : bool :=
  (index_len df =? 0)%nat || (length (columns df) =? 0)%nat.

Fixpoint lookup_column (column : string) (cols : list (string * Series)) : option Series :=
  match cols with
  | [] => None
  | (n, s) :: cols' => if decide (n = column) then Some s else lookup_column column cols'
  end.

(** [df[column]] *)
Definition getitem (column : string) : Py Series := λ df,
  match lookup_column column (columns df) with
  | Some s => (Return s, df)
  | None => (Raise KeyError, df)
  end.

Fixpoint replace_column (column : string) (s : Series) (cols : list (string * Series))
  : list (string * Series) :=
  match cols with
  | [] => [(column, s)]
  | (n, s') :: cols' =>
      if decide (n = column) then (n, s) :: cols'
      else (n, s') :: replace_column column s cols'
  end.

(** [df[column] = s]: an existing label keeps its position, a new one is
    appended. The notebook only assigns columns computed from the table
    itself, so the assigned column always has one cell per row. *)
Definition setitem (column : string) (s : Series) : Py unit := λ df,
  (Return tt, {| index_len := index_len df;
                 index_nbytes := index_nbytes df;
                 columns := replace_column column s (columns df) |}).

(** [df.select_dtypes(include=dts).columns] *)
Definition select_dtypes (dts : list dtype) (df : DataFrame) : list string :=
  (filter (λ c, series_dtype c.2 ∈ dts) (columns df)).*1.

(** ** Quality Auditor: [check_data_quality] *)

Definition count_missing (s : Series) : nat :=
  length (filter (λ c, c = None) (series_cells s)).

(** [df.isnull().sum().to_dict()] *)
Definition isnull_sum (df : DataFrame) : gmap string nat :=
  list_to_map ((λ c, (c.1, count_missing c.2)) <$> columns df).

Definition scalar_eqb (a b : scalar) : bool :=
  match a, b with
  | Str x, Str y => bool_decide (x = y)
  | Int x, Int y => bool_decide (x = y)
  | Float x, Float y => Qeq_bool x y
  | Time x, Time y => bool_decide (x = y)
  | _, _ => false
  end.

(** Two missing cells compare equal when rows are compared. *)
Definition cell_eqb (a b : cell) : bool :=
  match a, b with
  | None, None => true
  | Some x, Some y => scalar_eqb x y
  | _, _ => false
  end.

Fixpoint row_eqb (r1 r2 : list cell) : bool :=
  match r1, r2 with
  | [], [] => true
  | a :: r1', b :: r2' => cell_eqb a b && row_eqb r1' r2'
  | _, _ => false
  end.

Definition row (df : DataFrame) (i : nat) : list cell :=
  (λ c, default None (series_cells c.2 !! i)) <$> columns df.

Definition rows (df : DataFrame) : list (list cell) :=
  row df <$> seq 0 (index_len df).

Fixpoint mark_duplicates (seen rest : list (list cell)) : list bool :=
  match rest with
  | [] => []
  | r :: rest' => existsb (row_eqb r) seen :: mark_duplicates (r :: seen) rest'
  end.

(** [df.duplicated()]: a row is marked when an earlier row equals it; an
    empty frame yields an empty mask. *)
Definition duplicated (df : DataFrame) : list bool :=
  if empty_df df then [] else mark_duplicates [] (rows df).

Definition duplicated_sum (df : DataFrame) : nat :=
  length (filter (λ b, b = true) (duplicated df)).

(** [df.memory_usage().sum()]: the index and eight bytes per cell. *)
Definition memory_usage_sum (df : DataFrame) : nat :=
  index_nbytes df + list_sum ((λ c, 8 * series_len c.2) <$> columns df).

Record QualityReport := {
  missing_values : gmap string nat;
  duplicates : nat;
  total_rows : nat;
  memory_usage : Q
}.

Definition check_data_quality : Py QualityReport :=
  mv ← reads isnull_sum;
  dup ← reads duplicated_sum;
  n ← reads len;
  mem ← reads memory_usage_sum;
  mret {| missing_values := mv;
          duplicates := dup;
          total_rows := n;
          memory_usage := round64 (inject_Z (Z.of_nat mem) / inject_Z (1024 ^ 2))%Q |}.

(** ** Type Normalizer: [standardize_datatypes] *)

(** [s.replace(pat, repl)] for a one-character, literal pattern. *)
Fixpoint str_replace (pat : ascii) (repl : string) (s : string) : string :=
  match s with
  | EmptyString => EmptyString
  | String c s' =>
      if decide (c = pat) then repl ++ str_replace pat repl s'
      else String c (str_replace pat repl s')
  end.

(** [series.str.replace(pat, repl)]: a missing cell stays as it is. *)
Definition series_str_replace (pat : ascii) (repl : string)
  (cells : list (option pyval)) : list (option pyval) :=
  (λ c, match c with
        | Some (PyStr s) => Some (PyStr (str_replace pat repl s))
        | _ => c
        end) <$> cells.

(** Conversion of a text column with the default [errors='raise']: a
    missing cell gives the missing value of the target type, a string is
    read, and one string that cannot be read makes the whole call raise. *)
Fixpoint parse_all {B} (read : string → option B) (missing : B)
  (cells : list (option pyval)) : outcome (list B) :=
  match cells with
  | [] => Return []
  | c :: cells' =>
      match (match c with Some (PyStr s) => read s | _ => Some missing end) with
      | None => Raise ValueError
      | Some v =>
          match parse_all read missing cells' with
          | Return r => Return (v :: r)
          | Raise e => Raise e
          end
      end
  end.

(** What [pd.to_numeric] reads from one string: an integer or a float
    (NaN included). *)
Inductive number :=
| NumInt (z : Z)
| NumFloat (x : float).

Definition number_to_float (n : number) : float :=
  match n with
  | NumInt z => Z_to_float z
  | NumFloat x => option_map round64 x
  end.

(** All cells integers: the column can be [int64]. *)
Fixpoint as_int64 (ns : list number) : option (list Z) :=
  match ns with
  | [] => Some []
  | NumInt z :: ns' => cons z <$> as_int64 ns'
  | _ => None
  end.

Definition numeric_series (ns : list number) : Series :=
  match as_int64 ns with
  | Some zs => Int64Series zs
  | None => Float64Series (number_to_float <$> ns)
  end.

(** [series.str.replace('$', '').str.replace(',', '')] *)
Definition strip_currency (cells : list (option pyval)) : list (option pyval) :=
  series_str_replace "," "" (series_str_replace "$" "" cells).

(** The strings [pd.to_datetime] takes for a missing timestamp. *)
Definition nat_strings : list string := ["NaT"; "nat"; "NAT"; "nan"; "NaN"; "NAN"].

Definition null_string (s : string) : bool :=
  bool_decide (s = "") || bool_decide (s ∈ nat_strings).

(** The first cell of the column that is not missing, from which
    [pd.to_datetime] infers the format of the column. *)
Fixpoint first_present (cells : list (option pyval)) : option string :=
  match cells with
  | [] => None
  | Some (PyStr s) :: cells' => if null_string s then first_present cells' else Some s
  | _ :: cells' => first_present cells'
  end.

Section Normalizer.

(** The two recognisers of the library. [parse_datetime first s] is the
    timestamp (nanoseconds since the epoch) [pd.to_datetime] reads from the
    cell [s] of a column whose first present cell is [first], from which the
    format of the whole column is inferred; [parse_numeric s] is the number
    [pd.to_numeric] reads from the non-empty string [s]. [None] when the
    string is not in the format. *)
Variable parse_datetime : string → string → option Z.
Variable parse_numeric : string → option number.

(** What [pd.to_datetime] makes of one string: an empty string and the
    strings of [nat_strings] are NaT. *)
Definition read_datetime (first : option string) (s : string) : option (option Z) :=
  if null_string s then Some None
  else match first with
       | Some f => Some <$> parse_datetime f s
       | None => None
       end.

(** [pd.to_datetime(series)] *)
Definition to_datetime (cells : list (option pyval)) : outcome Series :=
  match parse_all (read_datetime (first_present cells)) None cells with
  | Return ts => Return (DatetimeSeries ts)
  | Raise e => Raise e
  end.

(** What [pd.to_numeric] makes of one string: an empty string is NaN. *)
Definition read_numeric (s : string) : option number :=
  if decide (s = "") then Some (NumFloat NaN) else parse_numeric s.

(** [pd.to_numeric(series)] *)
Definition to_numeric (cells : list (option pyval)) : outcome Series :=
  match parse_all read_numeric (NumFloat NaN) cells with
  | Return ns => Return (numeric_series ns)
  | Raise e => Raise e
  end.

(** The body of the loop over [df.columns] (the two [print] calls write to
    the console only). The inner handler is a bare [except:]. *)
Definition standardize_column (column : string) : Py unit :=
  s ← getitem column;
  match s with
  | ObjectSeries cells =>
      try_except
        (d ← lift (to_datetime cells); setitem column d)
        (λ e, match e with
              | ValueError =>
                  try_except
                    (n ← lift (to_numeric (strip_currency cells));
                     setitem column n)
                    (λ _, mret tt)
              | _ => raise e
              end)
  | _ => mret tt
  end.

Definition standardize_datatypes : Py unit :=
  cols ← reads column_names;
  for_each cols standardize_column.

(** What the loop body makes of one column, as a function of the column. *)
Definition standardize_series (s : Series) : Series :=
  match s with
  | ObjectSeries cells =>
      match to_datetime cells with
      | Return d => d
      | Raise _ =>
          match to_numeric (strip_currency cells) with
          | Return n => n
          | Raise _ => s
          end
      end
  | _ => s
  end.

End Normalizer.

(** ** Order statistics *)

Fixpoint insert_sorted (x : Q) (l : list Q) : list Q :=
  match l with
  | [] => [x]
  | y :: l' => if Qle_bool x y then x :: l else y :: insert_sorted x l'
  end.

Fixpoint sort (l : list Q) : list Q :=
  match l with
  | [] => []
  | x :: l' => insert_sorted x (sort l')
  end.

(** The cells of a numeric column as floats; an [int64] cell is never
    missing. *)
Definition numeric_values (s : Series) : list float :=
  match s with
  | Int64Series c => Z_to_float <$> c
  | Float64Series c => c
  | _ => []
  end.

Definition present {A} (cells : list (option A)) : list A := omap id cells.

(** An [int64] result wraps around. *)
Definition wrap64 (z : Z) : Z := ((z + 2 ^ 63) mod 2 ^ 64 - 2 ^ 63)%Z.

(** The two operations of [_lerp] that depend on the dtype of the array:
    the difference of two elements, and the conversion of an element that
    meets a float. *)
Record array_ops := {
  subtract : Q → Q → Q;
  as_float : Q → Q
}.

Definition float64_ops : array_ops :=
  {| subtract := Qminus; as_float := id |}.

Definition int64_ops : array_ops :=
  {| subtract := λ b a, inject_Z (wrap64 (Qfloor b - Qfloor a));
     as_float := round64 |}.

(** NumPy's [_lerp(a, b, t)] on two elements [a <= b] of a sorted array:
    the interpolation is taken from [a] below the middle and from [b] from
    the middle on. The difference [b - a] is taken in the dtype of the
    array: in float64, rounded, for a float64 array; in int64, without
    rounding but with wrap-around, for an int64 array, whose elements and
    differences are converted to float64 only where they meet the float
    [t]. *)
Definition lerp (ops : array_ops) (a b t : Q) : float :=
  let diff_b_a := Some (round64 (subtract ops b a)) in
  if Qle_bool (1 # 2) t
  then fsub (Some (as_float ops b)) (fmul diff_b_a (fsub (Some 1%Q) (Some t)))
  else fadd (Some (as_float ops a)) (fmul diff_b_a (Some t)).

(** [np.percentile(values, 100 * q, method='linear')] on the present values:
    the virtual index [(n - 1) * q] is split into its floor and its
    fraction, and the two neighbouring order statistics are interpolated.
    For the two quantiles of the notebook, 0.25 and 0.75, the virtual index
    and its fraction are exact in float64. *)
Definition quantile_linear (ops : array_ops) (values : list Q) (q : Q) : float :=
  let v := sort values in
  let n := length v in
  match n with
  | O => NaN
  | S m =>
      let h := (inject_Z (Z.of_nat m) * q)%Q in
      let lo := Z.to_nat (Qfloor h) in
      let hi := Nat.min (lo + 1) m in
      let t := (h - inject_Z (Qfloor h))%Q in
      lerp ops (nth lo v 0%Q) (nth hi v 0%Q) t
  end.

(** [series.quantile(q)]: missing cells are skipped; the cells of an
    [int64] column reach NumPy as integers. *)
Definition quantile (s : Series) (q : Q) : float :=
  match s with
  | Int64Series c => quantile_linear int64_ops (inject_Z <$> c) q
  | _ => quantile_linear float64_ops (present (numeric_values s)) q
  end.

(** [np.ma.median] of the present values of a column: the sum of the two
    middle values, which are one and the same value for an odd count,
    divided by 2; NaN when there is no present value. *)
Definition median (values : list Q) : float :=
  let v := sort values in
  let n := length v in
  if (n =? 0)%nat then NaN
  else
    let high := nth (n / 2) v 0%Q in
    let low := if Nat.odd n then high else nth (n / 2 - 1) v 0%Q in
    fdiv (fadd (Some low) (Some high)) (Some 2%Q).

(** ** Imputer: [handle_missing_values] *)

Definition count_of (x : pyval) (values : list pyval) : nat :=
  length (filter (λ y, y = x) values).

(** [Counter(values).most_common(1)[0][1]] *)
Definition most_frequent_count (values : list pyval) : nat :=
  max_list ((λ x, count_of x values) <$> values).

(** [x < m] on two values of a text column: strings compare in code-point
    order, [None] compares with nothing. *)
Definition py_lt (x m : pyval) : outcome bool :=
  match x, m with
  | PyStr a, PyStr b => Return (String.ltb a b)
  | _, _ => Raise TypeError
  end.

(** [min] of a non-empty sequence, [m] being the smallest value so far. *)
Fixpoint py_min (m : pyval) (l : list pyval) : outcome pyval :=
  match l with
  | [] => Return m
  | x :: l' =>
      match py_lt x m with
      | Return true => py_min x l'
      | Return false => py_min m l'
      | Raise e => Raise e
      end
  end.

(** The statistic of [SimpleImputer(strategy='most_frequent')] for a text
    column: [min] over the distinct values that reach the highest count;
    no statistic ([None]) for a column without any value. *)
Definition most_frequent (values : list pyval) : outcome (option pyval) :=
  match remove_dups (filter (λ x, count_of x values = most_frequent_count values) values) with
  | [] => Return None
  | x :: candidates =>
      match py_min x candidates with
      | Return m => Return (Some m)
      | Raise e => Raise e
      end
  end.

(** The statistic of [SimpleImputer(strategy='median')]. *)
Definition median_statistic (values : list Q) : outcome (option Q) :=
  Return (median values).

Definition fill {A} (statistic : A) (cells : list (option A)) : list A :=
  default statistic <$> cells.

(** [fit]: one statistic per feature, computed on its cells that are not
    NaN, feature after feature. *)
Fixpoint fit {A} (statistic : list A → outcome (option A)) (X : list (list (option A)))
  : outcome (list (option A)) :=
  match X with
  | [] => Return []
  | cells :: X' =>
      match statistic (present cells) with
      | Raise e => Raise e
      | Return st =>
          match fit statistic X' with
          | Return sts => Return (st :: sts)
          | Raise e => Raise e
          end
      end
  end.

(** [transform]: a feature without statistic is dropped from the output,
    in the others every NaN is replaced by the statistic. *)
Definition transform {A} (statistics : list (option A)) (X : list (list (option A)))
  : list (list A) :=
  omap (λ p, (λ st, fill st p.1) <$> p.2) (zip X statistics).

(** [SimpleImputer(strategy=...).fit_transform(X)]: the input needs at least
    one sample. *)
Definition fit_transform {A} (statistic : list A → outcome (option A)) (n_samples : nat)
  (X : list (list (option A))) : outcome (list (list A)) :=
  if (n_samples =? 0)%nat then Raise ValueError
  else
    match fit statistic X with
    | Return statistics => Return (transform statistics X)
    | Raise e => Raise e
    end.

(** [df[keys]], the sub-frame as the list of its columns. *)
Fixpoint getitems (keys : list string) : Py (list Series) :=
  match keys with
  | [] => mret []
  | k :: keys' => s ← getitem k; ss ← getitems keys'; mret (s :: ss)
  end.

(** [df[keys] = value] for a two-dimensional array given by its columns:
    the array must have one column per key. *)
Definition setitem_array (keys : list string) (value : list Series) : Py unit :=
  if decide (length keys = length value)
  then for_each (zip keys value) (λ kv, setitem kv.1 kv.2)
  else raise ValueError.

Definition object_values (s : Series) : list (option pyval) :=
  match s with
  | ObjectSeries c => c
  | _ => []
  end.

Definition handle_missing_values : Py unit :=
  numeric_columns ← reads (select_dtypes [int64; float64]);
  (if (0 <? length numeric_columns)%nat then
     X ← getitems numeric_columns;
     n ← reads len;
     imputed ← lift (fit_transform median_statistic n (numeric_values <$> X));
     setitem_array numeric_columns ((λ c, Float64Series (Some <$> c)) <$> imputed)
   else mret tt);;
  categorical_columns ← reads (select_dtypes [object]);
  if (0 <? length categorical_columns)%nat then
    X ← getitems categorical_columns;
    n ← reads len;
    imputed ← lift (fit_transform most_frequent n (object_values <$> X));
    setitem_array categorical_columns ((λ c, ObjectSeries (Some <$> c)) <$> imputed)
  else mret tt.

(** ** Outlier Capper: [remove_outliers] *)

Definition is_integral (q : Q) : bool := Qeq_bool (inject_Z (Qfloor q)) q.

(** pandas' [np_can_hold_element] for an [int64] column and a float: the
    float is a whole number within the range of int64. *)
Definition can_hold_int64 (q : Q) : bool :=
  is_integral q && bool_decide (- 2 ^ 63 ≤ Qfloor q ≤ 2 ^ 63 - 1)%Z.

(** [series.where(cond, other)] for a scalar [other]: a cell is kept where
    [cond] holds and replaced by [other] elsewhere. Nothing to replace
    leaves the column as it is; an [int64] column stays [int64] when
    [other] is a whole number of int64 and becomes [float64] otherwise. *)
Definition series_where (s : Series) (cond : list bool) (other : Q) : Series :=
  if forallb id cond then s
  else
    match s with
    | Int64Series c =>
        if can_hold_int64 other
        then Int64Series (zip_with (λ z (k : bool), if k then z else Qfloor other) c cond)
        else Float64Series
               (zip_with (λ z (k : bool), if k then Z_to_float z else Some other) c cond)
    | Float64Series c =>
        Float64Series (zip_with (λ x (k : bool), if k then x else Some other) c cond)
    | _ => s
    end.

Definition isna (x : float) : bool :=
  match x with None => true | Some _ => false end.

(** [series.clip(lower, upper)] with scalar bounds: a NaN bound is no
    bound, two bounds are put in order first, and both conditions are
    computed on the column as it was. *)
Definition clip (s : Series) (lower upper : float) : Series :=
  let '(lower, upper) :=
    match lower, upper with
    | Some lo, Some hi => if Qle_bool lo hi then (lower, upper) else (upper, lower)
    | _, _ => (lower, upper)
    end in
  let s1 :=
    match lower with
    | Some lo => series_where s ((λ x, isna x || fle (Some lo) x) <$> numeric_values s) lo
    | None => s
    end in
  match upper with
  | Some hi => series_where s1 ((λ x, isna x || fle x (Some hi)) <$> numeric_values s) hi
  | None => s1
  end.

(** [series < x] and [series > x] *)
Definition series_lt (s : Series) (x : float) : list bool :=
  (λ v, flt v x) <$> numeric_values s.

Definition series_gt (s : Series) (x : float) : list bool :=
  (λ v, flt x v) <$> numeric_values s.

(** [df[mask].shape[0]]: the number of rows the mask selects. *)
Definition count_selected (mask : list bool) : nat :=
  length (filter (λ b, b = true) mask).

(** [df[(df[column] < lower) | (df[column] > upper)].shape[0]] *)
Definition count_outside (s : Series) (lower upper : float) : nat :=
  count_selected (zip_with orb (series_lt s lower) (series_gt s upper)).

Definition lower_bound (s : Series) : float :=
  let Q1 := quantile s (1 # 4) in
  let Q3 := quantile s (3 # 4) in
  let IQR := fsub Q3 Q1 in
  fsub Q1 (fmul (Some (3 # 2)) IQR).

Definition upper_bound (s : Series) : float :=
  let Q1 := quantile s (1 # 4) in
  let Q3 := quantile s (3 # 4) in
  let IQR := fsub Q3 Q1 in
  fadd Q3 (fmul (Some (3 # 2)) IQR).

(** The body of the loop over the numeric columns; [outliers_removed] is the
    dictionary being filled. *)
Definition cap_column (outliers_removed : gmap string nat) (column : string)
  : Py (gmap string nat) :=
  s ← getitem column;
  let outliers := count_outside s (lower_bound s) (upper_bound s) in
  setitem column (clip s (lower_bound s) (upper_bound s));;
  mret (if (0 <? outliers)%nat then <[column := outliers]> outliers_removed
        else outliers_removed).

Definition remove_outliers : Py (gmap string nat) :=
  numeric_columns ← reads (select_dtypes [int64; float64]);
  for_acc numeric_columns cap_column ∅.

(** ** Validator: [validate_cleaning] *)

Record ValidationResults := {
  rows_remaining : nat;
  missing_values_remaining : nat;
  duplicates_remaining : nat;
  data_loss_percentage : Q
}.

(** The report dictionary: a key is absent until its stage has run. *)
Record CleaningReport := {
  initial_quality : option QualityReport;
  outliers_removed : option (gmap string nat);
  validation : option ValidationResults
}.

(** [df.isnull().sum().sum()] *)
Definition isnull_sum_sum (df : DataFrame) : nat :=
  list_sum ((λ c, count_missing c.2) <$> columns df).

(** [a / b] on two integers: the float64 nearest to the quotient. *)
Definition true_div (a b : nat) : outcome Q :=
  if (b =? 0)%nat then Raise ZeroDivisionError
  else Return (round64 (inject_Z (Z.of_nat a) / inject_Z (Z.of_nat b))).

Definition validate_cleaning (original_shape : nat * nat)
  (cleaning_report : CleaningReport) : Py CleaningReport :=
  n ← reads len;
  mv ← reads isnull_sum_sum;
  dup ← reads duplicated_sum;
  ratio ← lift (true_div n original_shape.1);
  let validation_results :=
    {| rows_remaining := n;
       missing_values_remaining := mv;
       duplicates_remaining := dup;
       data_loss_percentage := round64 (round64 (1 - ratio) * 100) |} in
  mret {| initial_quality := initial_quality cleaning_report;
          outliers_removed := outliers_removed cleaning_report;
          validation := Some validation_results |}.

(** ** Orchestrator: [automated_cleaning_pipeline] *)

Section Pipeline.

Variable parse_datetime : string → string → option Z.
Variable parse_numeric : string → option number.

Definition automated_cleaning_pipeline : Py CleaningReport :=
  original_shape ← reads shape;
  let cleaning_report :=
    {| initial_quality := None; outliers_removed := None; validation := None |} in
  quality ← check_data_quality;
  let cleaning_report :=
    {| initial_quality := Some quality;
       outliers_removed := outliers_removed cleaning_report;
       validation := validation cleaning_report |} in
  standardize_datatypes parse_datetime parse_numeric;;
  handle_missing_values;;
  outliers ← remove_outliers;
  let cleaning_report :=
    {| initial_quality := initial_quality cleaning_report;
       outliers_removed := Some outliers;
       validation := validation cleaning_report |} in
  validate_cleaning original_shape cleaning_report.

End Pipeline.

(** * Auxiliary definitions

    The vocabulary of the properties below: what each loop body makes of a
    column, the predicates of the statements, and the sample tables and
    recognisers on which the examples run. *)

Local Open Scope Q_scope.

(** ** The stages as functions of one column *)

(** The table with its columns replaced. *)
Definition with_columns (df : DataFrame) (cols : list (string * Series)) : DataFrame :=
  {| index_len := index_len df; index_nbytes := index_nbytes df; columns := cols |}.

(** What an iteration adds to the accumulator, read off the table [df]. *)
Definition acc_step {B} (g : B → string → Series → B) (df : DataFrame) (a : B) (k : string) : B :=
  match lookup_column k (columns df) with
  | Some s => g a k s
  | None => a
  end.

(** The columns [select_dtypes(include=['int64', 'float64'])] keeps. *)
Definition is_numeric (s : Series) : Prop :=
  series_dtype s = int64 ∨ series_dtype s = float64.

(** The column the Outlier Capper writes back for [s]. *)
Definition capped (s : Series) : Series := clip s (lower_bound s) (upper_bound s).

(** The outliers-map after the iteration on column [k]. *)
Definition record_outliers (acc : gmap string nat) (k : string) (s : Series) : gmap string nat :=
  let outliers := count_outside s (lower_bound s) (upper_bound s) in
  if (0 <? outliers)%nat then <[k := outliers]> acc else acc.

(** One block of [handle_missing_values]: select the columns of some dtypes,
    impute them together, assign them back. *)
Definition impute_block {A} (dts : list dtype) (values : Series → list (option A))
  (statistic : list A → outcome (option A)) (wrap : list (option A) → Series) : Py unit :=
  cols ← reads (select_dtypes dts);
  if (0 <? length cols)%nat then
    X ← getitems cols;
    n ← reads len;
    imputed ← lift (fit_transform statistic n (values <$> X));
    setitem_array cols ((λ c, wrap (Some <$> c)) <$> imputed)
  else mret tt.

(** What [fit_transform] makes of one feature when no statistic raises:
    the feature filled with its statistic, or nothing when it has none. *)
Definition filled_feature {A} (statistic : list A → outcome (option A))
  (cells : list (option A)) : option (list A) :=
  match statistic (present cells) with
  | Return (Some st) => Some (fill st cells)
  | _ => None
  end.

(** The column a block writes back for [s]. *)
Definition imputed_series {A} (values : Series → list (option A))
  (wrap : list (option A) → Series) (st : A) (s : Series) : Series :=
  wrap (Some <$> fill st (values s)).

(** The column [handle_missing_values] leaves for [s] when it returns. *)
Definition imputation_of (s s' : Series) : Prop :=
  match s with
  | ObjectSeries cells =>
      ∃ m, most_frequent (present cells) = Return (Some m) ∧
           s' = ObjectSeries (Some <$> fill m cells)
  | DatetimeSeries _ => s' = s
  | _ =>
      ∃ m, median (present (numeric_values s)) = Some m ∧
           s' = Float64Series (Some <$> fill m (numeric_values s))
  end.

(** ** Predicates of the statements *)

(** Same index, same labels in the same order, one cell per row in every
    column. *)
Definition same_frame (df df' : DataFrame) : Prop :=
  index_len df' = index_len df ∧
  index_nbytes df' = index_nbytes df ∧
  column_names df' = column_names df ∧
  wf_df df'.

(** [a ≤ b] on strings: [b] is not below [a]. *)
Definition string_le (a b : string) : Prop := String.ltb b a = false.

(** The column has at least one cell that is not missing. *)
Definition has_present (s : Series) : Prop := Exists is_Some (series_cells s).


(** [y] is a number between the numbers [x1] and [x2], in whichever order
    these come. *)
Definition within_range (x1 x2 y : float) : Prop :=
  ∃ a b w, x1 = Some a ∧ x2 = Some b ∧ y = Some w ∧ Qmin a b <= w ∧ w <= Qmax a b.


(** [x] is a number strictly below [lower] or strictly above [upper]. *)
Definition strictly_outside (lower upper x : float) : Prop :=
  ∃ v, x = Some v ∧ ((∃ lb, lower = Some lb ∧ v < lb) ∨ (∃ ub, upper = Some ub ∧ ub < v)).

Global Instance strictly_outside_dec (lower upper x : float) :
  Decision (strictly_outside lower upper x).
Proof.
  destruct (flt x lower || flt upper x) eqn:E; [left|right]; unfold strictly_outside.
  - destruct x as [v|]; [|by destruct lower, upper]. exists v. split; [done|].
    apply orb_true_iff in E as [E|E]; [left|right].
    + destruct lower as [lb|]; [|done]. exists lb. split; [done|].
      simpl in E. apply negb_true_iff in E.
      apply Qnot_le_lt. intros H. apply Qle_bool_iff in H. congruence.
    + destruct upper as [ub|]; [|done]. exists ub. split; [done|].
      simpl in E. apply negb_true_iff in E.
      apply Qnot_le_lt. intros H. apply Qle_bool_iff in H. congruence.
  - apply orb_false_iff in E as [E1 E2].
    intros (v & -> & [(lb & -> & H)|(ub & -> & H)]); simpl in *.
    + apply negb_false_iff, Qle_bool_iff in E1. lra.
    + apply negb_false_iff, Qle_bool_iff in E2. lra.
Defined.





(** [x] is among the most frequent of [values]. *)
Definition most_frequent_value (x : pyval) (values : list pyval) : Prop :=
  x ∈ values ∧ ∀ y, y ∈ values → (count_of y values ≤ count_of x values)%nat.

(** The most frequent values of the column comprise [None] and a string,
    which [min] cannot compare. *)
Definition mixed_tie (values : list pyval) : Prop :=
  most_frequent_value PyNone values ∧ ∃ a, most_frequent_value (PyStr a) values.

(** Every string of a text column is read: it is in the format, or it is
    taken for a missing value. *)
Definition all_read (is_missing : string → Prop) (in_format : string → Prop)
  (cells : list (option pyval)) : Prop :=
  ∀ x, Some (PyStr x) ∈ cells → is_missing x ∨ in_format x.

(** ** Sample tables and recognisers *)

(** A table with the single text column [price]. *)
Definition price_table (cells : list (option pyval)) : DataFrame :=
  {| index_len := length cells; index_nbytes := 132;
     columns := [("price", ObjectSeries cells)] |}.

(** The value of a decimal digit. *)
Definition digit_value (c : ascii) : option Z :=
  let n := Z.of_N (N_of_ascii c) in
  if ((48 <=? n) && (n <=? 57))%Z then Some (n - 48)%Z else None.

(** The value of a string of decimal digits, most significant first. *)
Fixpoint digits_value (acc : Z) (s : string) : option Z :=
  match s with
  | EmptyString => Some acc
  | String c s' =>
      match digit_value c with
      | Some d => digits_value (10 * acc + d) s'
      | None => None
      end
  end.

(** A recogniser of plain decimal integers, with an optional minus sign. *)
Definition parse_decimal (s : string) : option number :=
  match s with
  | EmptyString => None
  | String "-" EmptyString => None
  | String "-" s' => (λ z, NumInt (- z)) <$> digits_value 0 s'
  | _ => NumInt <$> digits_value 0 s
  end.

(** A recogniser of dates that reads no string as a date. *)
Definition no_datetime (first s : string) : option Z := None.

(** Five rows, a text column of prices and a text column of categories, one
    missing cell in each, the second and the fourth row equal. *)
Definition scenario_table : DataFrame :=
  {| index_len := 5; index_nbytes := 132;
     columns :=
       [("price", ObjectSeries [Some (PyStr "$1,200"); Some (PyStr "$350"); None;
                                Some (PyStr "$350"); Some (PyStr "$40")]);
        ("category", ObjectSeries [Some (PyStr "a"); Some (PyStr "b"); Some (PyStr "b");
                                   Some (PyStr "b"); None])] |}.

(** An [int64] column without missing cells, the numeric column
    [10, missing, 20, 30] and a text column. *)
Definition imputer_table : DataFrame :=
  {| index_len := 4; index_nbytes := 132;
     columns :=
       [("units", Int64Series [3; 1; 2; 1]%Z);
        ("amount", Float64Series [Some 10; None; Some 20; Some 30]);
        ("city", ObjectSeries [Some (PyStr "x"); Some (PyStr "y"); None; Some (PyStr "y")])] |}.


(** A text column whose missing cell is marked with [None]. *)
Definition marked_table : DataFrame :=
  {| index_len := 4; index_nbytes := 132;
     columns := [("city", ObjectSeries [Some (PyStr "x"); Some (PyStr "y"); Some PyNone;
                                        Some (PyStr "y")])] |}.

(** A temporal column with a present and a missing cell. *)
Definition temporal_table : DataFrame :=
  {| index_len := 2; index_nbytes := 132;
     columns := [("when", DatetimeSeries [Some 0%Z; None])] |}.

(** No rows, three columns. *)
Definition empty_table : DataFrame :=
  {| index_len := 0; index_nbytes := 132;
     columns := [("price", ObjectSeries []); ("units", Int64Series []);
                 ("amount", Float64Series [])] |}.


(** One row, a numeric column without any present value. *)
Definition unobserved_table : DataFrame :=
  {| index_len := 1; index_nbytes := 132;
     columns := [("amount", Float64Series [NaN])] |}.

(** An [int64] column next to a numeric column without any present value. *)
Definition refused_table : DataFrame :=
  {| index_len := 2; index_nbytes := 132;
     columns := [("units", Int64Series [3; 1]%Z); ("amount", Float64Series [NaN; NaN])] |}.

(** An [int64] column above 2^53, where not every integer is a value of
    float64. *)
Definition large_table : DataFrame :=
  {| index_len := 3; index_nbytes := 132;
     columns := [("id", Int64Series [18014398509481983; 18014398509481983;
                                     18014398509481986]%Z)] |}.


(** ** The statements in the words of the specification *)

(** As the specification words the invariant of the pipeline: for a table
    with at least one row the orchestrator returns a report whose validation
    block holds [data_loss_percentage] 0. *)
Definition pipeline_data_loss_claim (df : DataFrame) : Prop :=
  (0 < index_len df)%nat →
  ∃ report df' v,
    automated_cleaning_pipeline no_datetime parse_decimal df = (Return report, df') ∧
    validation report = Some v ∧
    data_loss_percentage v = 0.



(** As the specification words its invariant: after the Imputer, no cell
    is missing in any column that had a present cell. *)
Definition imputer_no_missing_claim (df : DataFrame) : Prop :=
  ∀ df', handle_missing_values df = (Return tt, df') →
    ∀ c s, lookup_column c (columns df) = Some s →
      has_present s →
      ∃ s', lookup_column c (columns df') = Some s' ∧ count_missing s' = 0%nat.

(** As the specification words the policy of the Type Normalizer: one
    present value that is not in the target format leaves the whole column
    at its original type. Here for the numeric format, with the sample
    recognisers. *)
Definition normalizer_all_or_nothing_claim (cells : list (option pyval)) : Prop :=
  (∃ x, Some (PyStr x) ∈ strip_currency cells ∧ parse_decimal x = None) →
  standardize_series no_datetime parse_decimal (ObjectSeries cells) = ObjectSeries cells.


(** As the claim words the rewriting of numeric columns: in a table with an
    [int64] column, every numeric column is [float64] after the Imputer. *)
Definition imputer_int_to_float_claim (df : DataFrame) : Prop :=
  (∃ c s, lookup_column c (columns df) = Some s ∧ series_dtype s = int64) →
  ∀ c s, lookup_column c (columns df) = Some s →
    is_numeric s →
    ∃ s', lookup_column c (columns (handle_missing_values df).2) = Some s' ∧
          series_dtype s' = float64.

(** Well-formedness of a concrete table is decided by evaluation. *)
Global Instance wf_df_dec (df : DataFrame) : Decision (wf_df df).
Proof. unfold wf_df. apply _. Defined.

Ltac concrete_wf := apply (bool_decide_unpack _); vm_compute; reflexivity.

(** ** Vocabulary of the further properties *)

(** Equal cells stay equal: wherever two cells of [s] compare equal, the
    cells of [s'] in the same two rows compare equal. *)
Definition eq_preserving (s s' : Series) : Prop :=
  series_len s' = series_len s ∧
  ∀ i j a b a' b',
    series_cells s !! i = Some a → series_cells s !! j = Some b →
    series_cells s' !! i = Some a' → series_cells s' !! j = Some b' →
    cell_eqb a b = true → cell_eqb a' b' = true.

(** The row [i] of a list of columns. *)
Definition row_of (cols : list (string * Series)) (i : nat) : list cell :=
  (λ c, default None (series_cells c.2 !! i)) <$> cols.

(** The number of marked rows. *)
Definition count_true (l : list bool) : nat := length (filter (λ b, b = true) l).

(** Equal rows stay equal from [df] to [df']. *)
Definition rows_eq_preserving (df df' : DataFrame) : Prop :=
  index_len df' = index_len df ∧
  column_names df' = column_names df ∧
  ∀ c s, lookup_column c (columns df) = Some s →
         ∃ s', lookup_column c (columns df') = Some s' ∧ eq_preserving s s'.

(** No text column of the table holds Python's [None]. *)
Definition no_None (df : DataFrame) : Prop :=
  ∀ c cells, lookup_column c (columns df) = Some (ObjectSeries cells) → Some PyNone ∉ cells.

(** The value a computation returned, [d] when it raised. *)
Definition returned {A} (r : outcome A * DataFrame) (d : A) : A :=
  match r.1 with
  | Return a => a
  | Raise _ => d
  end.

Definition empty_report : CleaningReport :=
  {| initial_quality := None; outliers_removed := None; validation := None |}.



(** A text column with [None] for its missing cell, in which [None] is as
    frequent as the two strings. *)
Definition none_table : DataFrame :=
  {| index_len := 3; index_nbytes := 132;
     columns := [("city", ObjectSeries [Some (PyStr "b"); Some (PyStr "a"); Some PyNone])] |}.

(** * Properties

    First the arithmetic of [round64], then the stages one by one. *)

(** ** Powers of two and binary exponents *)

Lemma bpow_pos (e : Z) : 0 < bpow e.
Proof. apply Qpower_0_lt. reflexivity. Qed.

Lemma bpow_add (a b : Z) : bpow (a + b) == bpow a * bpow b.
Proof. apply Qpower_plus. discriminate. Qed.

Lemma bpow_sub (a b : Z) : bpow (a - b) == bpow a / bpow b.
Proof. apply Qpower_minus. discriminate. Qed.

Lemma bpow_le (a b : Z) : (a ≤ b)%Z → bpow a <= bpow b.
Proof. intros H. apply Qpower_le_compat_l; [done|]. discriminate. Qed.

Lemma bpow_lt (a b : Z) : (a < b)%Z → bpow a < bpow b.
Proof. intros H. apply Qpower_lt_compat_l; [done|]. reflexivity. Qed.

Lemma bpow_lt_inv (a b : Z) : bpow a < bpow b → (a < b)%Z.
Proof. intros H. eapply Qpower_lt_compat_l_inv; [exact H|]. reflexivity. Qed.

Lemma bpow_Z (n : Z) : (0 ≤ n)%Z → bpow n == inject_Z (2 ^ n).
Proof. intros H. unfold bpow. by rewrite Zpower_Qpower. Qed.

Lemma bpow_succ (a : Z) : bpow (a + 1) == 2 * bpow a.
Proof. rewrite bpow_add. change (bpow 1) with 2. ring. Qed.

Lemma bpow_pred (a : Z) : bpow (a - 1) == bpow a / 2.
Proof. rewrite bpow_sub. change (bpow 1) with 2. reflexivity. Qed.

Lemma Zlog2_bpow (n : Z) : (0 < n)%Z →
  bpow (Z.log2 n) <= inject_Z n ∧ inject_Z n < bpow (Z.log2 n + 1).
Proof.
  intros Hn. destruct (Z.log2_spec n Hn) as [H1 H2].
  pose proof (Z.log2_nonneg n) as H0.
  rewrite !bpow_Z by lia. rewrite <- Zle_Qle, <- Zlt_Qlt.
  split; [done|]. by rewrite Z.add_1_r.
Qed.

Lemma Qlog2_spec (x : Q) : 0 < x → bpow (Qlog2 x) <= x ∧ x < bpow (Qlog2 x + 1).
Proof.
  intros Hx. unfold Qlog2.
  destruct x as [n d]. cbn [Qnum Qden].
  assert (Hn : (0 < n)%Z).
  { unfold Qlt in Hx. simpl in Hx. lia. }
  destruct (Zlog2_bpow n Hn) as [Hn1 Hn2].
  destruct (Zlog2_bpow (Zpos d) ltac:(lia)) as [Hd1 Hd2].
  set (a := Z.log2 n) in *. set (b := Z.log2 (Zpos d)) in *.
  set (N := inject_Z n) in *. set (D := inject_Z (Zpos d)) in *.
  assert (HD : 0 < D) by (pose proof (bpow_pos b); lra).
  assert (Hx' : (n # d) * D == N).
  { unfold N, D. rewrite (Qmake_Qdiv n d). field. unfold D in HD. lra. }
  set (x := n # d) in *.
  pose proof (bpow_pos (a - b)) as Hk.
  pose proof (bpow_pos (a - b - 1)) as Hk1.
  assert (Hup : x < bpow (a - b + 1)).
  { destruct (Qlt_le_dec x (bpow (a - b + 1))) as [|Hge]; [done|]. exfalso.
    assert (bpow (a - b + 1) * bpow b <= x * D).
    { apply Qmult_le_compat_nonneg; split; try done; apply Qlt_le_weak, bpow_pos. }
    rewrite <- bpow_add in H. replace (a - b + 1 + b)%Z with (a + 1)%Z in H by lia. lra. }
  assert (Hlow : bpow (a - b - 1) <= x).
  { destruct (Qlt_le_dec x (bpow (a - b - 1))) as [Hlt|]; [|done]. exfalso.
    assert (x * D < bpow (a - b - 1) * bpow (b + 1)).
    { apply Qlt_le_trans with (bpow (a - b - 1) * D).
      - by apply Qmult_lt_r.
      - apply Qmult_le_l; [done|]. lra. }
    rewrite <- bpow_add in H. replace (a - b - 1 + (b + 1))%Z with a in H by lia. lra. }
  destruct (Qle_bool (bpow (a - b)) x) eqn:E.
  - apply Qle_bool_iff in E. split; assumption.
  - split; [assumption|]. replace (a - b - 1 + 1)%Z with (a - b)%Z by lia.
    destruct (Qlt_le_dec x (bpow (a - b))) as [|Hge]; [done|].
    apply Qle_bool_iff in Hge. congruence.
Qed.

Lemma Qlog2_unique (x : Q) (k : Z) : bpow k <= x → x < bpow (k + 1) → Qlog2 x = k.
Proof.
  intros H1 H2.
  assert (0 < x) as Hx by (pose proof (bpow_pos k); lra).
  destruct (Qlog2_spec x Hx) as [H3 H4].
  assert (Qlog2 x < k + 1)%Z by (apply bpow_lt_inv; lra).
  assert (k < Qlog2 x + 1)%Z by (apply bpow_lt_inv; lra).
  lia.
Qed.

Lemma Qlog2_le (x y : Q) : 0 < x → x <= y → (Qlog2 x ≤ Qlog2 y)%Z.
Proof.
  intros Hx Hxy.
  destruct (Qlog2_spec x Hx) as [H1 H2].
  destruct (Qlog2_spec y ltac:(lra)) as [H3 H4].
  assert (Qlog2 x < Qlog2 y + 1)%Z by (apply bpow_lt_inv; lra).
  lia.
Qed.

Lemma Qcompare_cases (x y : Q) :
  match Qcompare x y with
  | Eq => x == y
  | Lt => x < y
  | Gt => y < x
  end.
Proof.
  destruct (Qcompare x y) eqn:E;
    [by apply Qeq_alt | by apply Qlt_alt | by apply Qgt_alt].
Qed.

Lemma rne_Z (z : Z) : rne (inject_Z z) = z.
Proof.
  unfold rne. rewrite Qfloor_Z.
  assert (Qcompare (inject_Z z - inject_Z z) (1 # 2) = Lt) as ->; [|done].
  rewrite <- Qlt_alt. lra.
Qed.

Lemma rne_cases (x : Q) :
  (rne x = Qfloor x ∧ x - inject_Z (Qfloor x) <= 1 # 2) ∨
  (rne x = (Qfloor x + 1)%Z ∧ 1 # 2 <= x - inject_Z (Qfloor x)).
Proof.
  unfold rne. pose proof (Qcompare_cases (x - inject_Z (Qfloor x)) (1 # 2)) as E.
  destruct (Qcompare (x - inject_Z (Qfloor x)) (1 # 2)).
  - destruct (Z.even (Qfloor x)); [left | right]; (split; [done|lra]).
  - left. split; [done|lra].
  - right. split; [done|lra].
Qed.

Lemma rne_le (x y : Q) : x <= y → (rne x ≤ rne y)%Z.
Proof.
  intros Hxy. pose proof (Qfloor_resp_le x y Hxy) as Hf.
  destruct (Z.eq_dec (Qfloor x) (Qfloor y)) as [Heq|Hne].
  - unfold rne. rewrite Heq.
    set (f := Qfloor y) in *.
    pose proof (Qcompare_cases (x - inject_Z f) (1 # 2)) as Ex.
    pose proof (Qcompare_cases (y - inject_Z f) (1 # 2)) as Ey.
    destruct (Qcompare (x - inject_Z f) (1 # 2)); destruct (Qcompare (y - inject_Z f) (1 # 2));
      try (destruct (Z.even f)); try lia; lra.
  - destruct (rne_cases x) as [[-> _]|[-> _]], (rne_cases y) as [[-> _]|[-> _]]; lia.
Qed.

Lemma Qdiv_bpow_le (x y : Q) (e : Z) : x <= y → x / bpow e <= y / bpow e.
Proof.
  intros H. pose proof (bpow_pos e). unfold Qdiv.
  apply Qmult_le_compat_r; [done|]. apply Qlt_le_weak, Qinv_lt_0_compat. done.
Qed.

Lemma scaled_bounds (x : Q) (k : Z) :
  bpow (k + 52) <= x → x < bpow (k + 53) →
  bpow 52 <= x / bpow k ∧ x / bpow k < bpow 53.
Proof.
  intros H1 H2. pose proof (bpow_pos k) as Hk.
  rewrite bpow_add in H1. rewrite bpow_add in H2.
  split.
  - apply Qle_shift_div_l; [done|]. lra.
  - apply Qlt_shift_div_r; [done|]. lra.
Qed.

Lemma Qlog2_bounds (x : Q) : 0 < x →
  bpow (Qlog2 x - 52 + 52) <= x ∧ x < bpow (Qlog2 x - 52 + 53).
Proof.
  intros Hx. destruct (Qlog2_spec x Hx) as [H1 H2].
  replace (Qlog2 x - 52 + 52)%Z with (Qlog2 x) by lia.
  by replace (Qlog2 x - 52 + 53)%Z with (Qlog2 x + 1)%Z by lia.
Qed.

Lemma rne_scaled (x : Q) : 0 < x →
  (2 ^ 52 ≤ rne (x / bpow (Qlog2 x - 52)) ≤ 2 ^ 53)%Z.
Proof.
  intros Hx. destruct (Qlog2_bounds x Hx) as [H1 H2].
  destruct (scaled_bounds x _ H1 H2) as [H3 H4].
  rewrite (bpow_Z 52) in H3 by lia. rewrite (bpow_Z 53) in H4 by lia.
  split.
  - rewrite <- (rne_Z (2 ^ 52)). by apply rne_le.
  - rewrite <- (rne_Z (2 ^ 53)). apply rne_le. lra.
Qed.

Lemma round_pos_wd (x y : Q) : 0 < x → x == y → round_pos x == round_pos y.
Proof.
  intros Hx E. unfold round_pos.
  assert (Qlog2 y = Qlog2 x) as ->.
  { destruct (Qlog2_spec x Hx). apply Qlog2_unique; lra. }
  assert (rne (x / bpow (Qlog2 x - 52)) = rne (y / bpow (Qlog2 x - 52))) as ->; [|reflexivity].
  apply rne_wd. apply Qdiv_comp; [done|reflexivity].
Qed.

Lemma round_pos_pos (x : Q) : 0 < x → 0 < round_pos x.
Proof.
  intros Hx. unfold round_pos. pose proof (rne_scaled x Hx) as [H _].
  apply Qmult_lt_0_compat; [|apply bpow_pos].
  change 0 with (inject_Z 0). rewrite <- Zlt_Qlt. lia.
Qed.

(** A positive rational with 53 significant bits is its own rounding. *)
Lemma round_pos_fixed (x : Q) (m e : Z) :
  (2 ^ 52 ≤ m < 2 ^ 53)%Z → x == inject_Z m * bpow e → round_pos x == x.
Proof.
  intros Hm E. pose proof (bpow_pos e) as He.
  assert (Hlog : Qlog2 x = (e + 52)%Z).
  { apply Qlog2_unique; rewrite E.
    - rewrite (Qmult_comm _ (bpow e)), bpow_add. apply Qmult_le_l; [done|].
      rewrite bpow_Z by lia. rewrite <- Zle_Qle. lia.
    - replace (e + 52 + 1)%Z with (e + 53)%Z by lia.
      rewrite (Qmult_comm _ (bpow e)), bpow_add. apply Qmult_lt_l; [done|].
      rewrite bpow_Z by lia. rewrite <- Zlt_Qlt. lia. }
  unfold round_pos. rewrite Hlog. replace (e + 52 - 52)%Z with e by lia.
  assert (x / bpow e == inject_Z m) as -> by (rewrite E; field; lra).
  by rewrite rne_Z.
Qed.

(** The rounding has 53 significant bits. *)
Lemma round_pos_repr (x : Q) : 0 < x →
  ∃ m e, (2 ^ 52 ≤ m < 2 ^ 53)%Z ∧ round_pos x == inject_Z m * bpow e.
Proof.
  intros Hx. pose proof (rne_scaled x Hx) as [H1 H2].
  set (e := (Qlog2 x - 52)%Z) in *. set (m := rne (x / bpow e)) in *.
  destruct (Z.eq_dec m (2 ^ 53)%Z) as [Heq|Hne].
  - exists (2 ^ 52)%Z, (e + 1)%Z. split; [lia|].
    unfold round_pos. fold e m. rewrite Heq, bpow_succ.
    change (inject_Z (2 ^ 53)) with (2 * inject_Z (2 ^ 52)). ring.
  - exists m, e. split; [lia|]. reflexivity.
Qed.

Lemma round_pos_idem (x : Q) : 0 < x → round_pos (round_pos x) == round_pos x.
Proof.
  intros Hx. destruct (round_pos_repr x Hx) as (m & e & Hm & E).
  by eapply round_pos_fixed.
Qed.

Lemma round_pos_le (x y : Q) : 0 < x → x <= y → round_pos x <= round_pos y.
Proof.
  intros Hx Hxy. assert (Hy : 0 < y) by lra.
  pose proof (Qlog2_le x y Hx Hxy) as Hl.
  pose proof (rne_scaled x Hx) as [_ Hmx]. pose proof (rne_scaled y Hy) as [Hmy _].
  unfold round_pos.
  set (ex := (Qlog2 x - 52)%Z) in *. set (ey := (Qlog2 y - 52)%Z) in *.
  destruct (Z.eq_dec ex ey) as [Heq|Hne].
  - rewrite Heq in *. apply Qmult_le_compat_r; [|apply Qlt_le_weak, bpow_pos].
    rewrite <- Zle_Qle. apply rne_le. by apply Qdiv_bpow_le.
  - assert (ex + 1 ≤ ey)%Z as Hlt by lia.
    apply Qle_trans with (inject_Z (2 ^ 53) * bpow ex).
    { apply Qmult_le_compat_r; [|apply Qlt_le_weak, bpow_pos]. by rewrite <- Zle_Qle. }
    apply Qle_trans with (inject_Z (2 ^ 52) * bpow ey).
    2:{ apply Qmult_le_compat_r; [|apply Qlt_le_weak, bpow_pos]. by rewrite <- Zle_Qle. }
    apply Qle_trans with (inject_Z (2 ^ 52) * bpow (ex + 1)).
    + rewrite bpow_succ. change (inject_Z (2 ^ 53)) with (2 * inject_Z (2 ^ 52)).
      apply Qle_lteq. right. ring.
    + apply Qmult_le_l; [reflexivity|]. by apply bpow_le.
Qed.



Lemma Qnum_sign (x : Q) :
  match Qnum x with
  | Z0 => x == 0
  | Zpos _ => 0 < x
  | Zneg _ => x < 0
  end.
Proof. destruct x as [[|p|p] d]; unfold Qeq, Qlt; simpl; lia. Qed.

Lemma round64_pos (x : Q) : 0 < x → round64 x = Qred (round_pos x).
Proof.
  intros Hx. unfold round64. pose proof (Qnum_sign x) as H.
  destruct (Qnum x); [lra|done|lra].
Qed.

Lemma round64_neg (x : Q) : x < 0 → round64 x = Qred (- round_pos (- x)).
Proof.
  intros Hx. unfold round64. pose proof (Qnum_sign x) as H.
  destruct (Qnum x); [lra|lra|done].
Qed.

Lemma round64_zero (x : Q) : x == 0 → round64 x = 0.
Proof.
  intros Hx. unfold round64. pose proof (Qnum_sign x) as H.
  destruct (Qnum x); [done|lra|lra].
Qed.

Lemma round64_wd (x y : Q) : x == y → round64 x = round64 y.
Proof.
  intros E. destruct (Q_dec x 0) as [[Hlt|Hgt]|Heq].
  - rewrite !round64_neg by lra. apply Qred_complete.
    apply Qopp_comp, round_pos_wd; [lra | by rewrite E].
  - rewrite !round64_pos by lra. apply Qred_complete. apply round_pos_wd; [lra|done].
  - rewrite !round64_zero; [done | lra | lra].
Qed.

Lemma round64_Qred (x : Q) : Qred (round64 x) = round64 x.
Proof.
  unfold round64. destruct (Qnum x); [done| |]; apply Qred_complete, Qred_correct.
Qed.

Lemma round64_le (x y : Q) : x <= y → round64 x <= round64 y.
Proof.
  intros Hxy.
  destruct (Q_dec x 0) as [[Hx|Hx]|Hx], (Q_dec y 0) as [[Hy|Hy]|Hy];
    rewrite ?(round64_neg x), ?(round64_pos x), ?(round64_zero x),
            ?(round64_neg y), ?(round64_pos y), ?(round64_zero y) by lra;
    rewrite ?Qred_correct; try lra.
  - apply Qopp_le_compat. apply round_pos_le; lra.
  - pose proof (round_pos_pos (- x)). pose proof (round_pos_pos y). lra.
  - pose proof (round_pos_pos (- x)). lra.
  - apply round_pos_le; lra.
  - pose proof (round_pos_pos y). lra.
Qed.

Lemma round64_idem (x : Q) : round64 (round64 x) = round64 x.
Proof.
  destruct (Q_dec x 0) as [[Hx|Hx]|Hx].
  - rewrite (round64_neg x Hx). pose proof (round_pos_pos (- x) ltac:(lra)) as Hp.
    rewrite (round64_wd _ (- round_pos (- x))) by apply Qred_correct.
    rewrite round64_neg by lra. apply Qred_complete.
    rewrite (round_pos_wd (- - round_pos (- x)) (round_pos (- x))); [|lra|ring].
    by rewrite round_pos_idem by lra.
  - rewrite (round64_pos x Hx). pose proof (round_pos_pos x Hx) as Hp.
    rewrite (round64_wd _ (round_pos x)) by apply Qred_correct.
    rewrite round64_pos by lra. apply Qred_complete. by apply round_pos_idem.
  - by rewrite (round64_zero x Hx).
Qed.

Lemma round64_nonneg (x : Q) : 0 <= x → 0 <= round64 x.
Proof. intros H. change 0 with (round64 0) at 1. by apply round64_le. Qed.

Lemma round64_nonpos (x : Q) : x <= 0 → round64 x <= 0.
Proof. intros H. change 0 with (round64 0). by apply round64_le. Qed.

Lemma round64_opp (x : Q) : round64 (- x) == - round64 x.
Proof.
  destruct (Q_dec x 0) as [[Hx|Hx]|Hx].
  - rewrite round64_pos, (round64_neg x) by lra. rewrite !Qred_correct. ring.
  - rewrite round64_neg, (round64_pos x) by lra. rewrite !Qred_correct.
    rewrite (round_pos_wd (- - x) x); [reflexivity|lra|ring].
  - rewrite !round64_zero; [reflexivity | done | lra].
Qed.





Lemma binary64_round (x : Q) : binary64 (round64 x).
Proof. apply round64_idem. Qed.

Lemma round64_le_r (x f : Q) : binary64 f → x <= f → round64 x <= f.
Proof. intros Hf H. rewrite <- Hf. by apply round64_le. Qed.

Lemma round64_le_l (x f : Q) : binary64 f → f <= x → f <= round64 x.
Proof. intros Hf H. rewrite <- Hf. by apply round64_le. Qed.

(** An integer of at most 53 bits is a value of float64. *)
Lemma round64_Z_small (z : Z) : (Z.abs z ≤ 2 ^ 53)%Z → round64 (inject_Z z) = inject_Z z.
Proof.
  intros Hz.
  assert (Hpos : ∀ n, (0 < n ≤ 2 ^ 53)%Z → round_pos (inject_Z n) == inject_Z n).
  { intros n [Hn0 Hn].
    destruct (Z.eq_dec n (2 ^ 53)%Z) as [->|Hne].
    - apply (round_pos_fixed _ (2 ^ 52) 1); [lia|]. reflexivity.
    - pose proof (Z.log2_spec n Hn0) as [Hl1 Hl2].
      pose proof (Z.log2_nonneg n) as Hl0.
      set (k := Z.log2 n) in *.
      assert (k < 53)%Z as Hk.
      { apply (Z.pow_lt_mono_r_iff 2); lia. }
      apply (round_pos_fixed _ (n * 2 ^ (52 - k)) (k - 52)).
      + replace (2 ^ 52)%Z with (2 ^ k * 2 ^ (52 - k))%Z
          by (rewrite <- Z.pow_add_r by lia; f_equal; lia).
        replace (2 ^ 53)%Z with (2 ^ Z.succ k * 2 ^ (52 - k))%Z
          by (rewrite <- Z.pow_add_r by lia; f_equal; lia).
        assert (0 < 2 ^ (52 - k))%Z by (apply Z.pow_pos_nonneg; lia).
        split; [apply Z.mul_le_mono_nonneg_r; lia | apply Z.mul_lt_mono_pos_r; lia].
      + rewrite inject_Z_mult, <- Qmult_assoc, <- (bpow_Z (52 - k)) by lia.
        rewrite <- bpow_add. replace (52 - k + (k - 52))%Z with 0%Z by lia.
        change (bpow 0) with 1. ring. }
  assert (Hred : ∀ n, Qred (inject_Z n) = inject_Z n).
  { intros n. apply Qcanon.Qred_identity. simpl. apply Z.gcd_1_r. }
  destruct (Z.lt_trichotomy z 0) as [Hneg|[->|Hp]].
  - rewrite round64_neg by (change 0 with (inject_Z 0); rewrite <- Zlt_Qlt; lia).
    etrans; [|apply (Hred z)]. apply Qred_complete.
    change (- inject_Z z) with (inject_Z (- z)).
    rewrite Hpos by lia. rewrite inject_Z_opp. ring.
  - reflexivity.
  - rewrite round64_pos by (change 0 with (inject_Z 0); rewrite <- Zlt_Qlt; lia).
    etrans; [|apply (Hred z)]. apply Qred_complete. apply Hpos. lia.
Qed.

Lemma binary64_0 : binary64 0.
Proof. reflexivity. Qed.



(** ** Running the monad *)

(** ** Running the monad *)

Lemma bind_run {A B} (m : Py A) (f : A → Py B) (df : DataFrame) :
  (m ≫= f) df =
  match m df with
  | (Return a, df') => f a df'
  | (Raise e, df') => (Raise e, df')
  end.
Proof. reflexivity. Qed.

Lemma reads_run {A} (f : DataFrame → A) (df : DataFrame) :
  reads f df = (Return (f df), df).
Proof. reflexivity. Qed.

Lemma setitem_run (k : string) (s : Series) (df : DataFrame) :
  setitem k s df = (Return tt, with_columns df (replace_column k s (columns df))).
Proof. reflexivity. Qed.

(** ** Lookup and replacement of columns *)

Lemma lookup_replace_column (c k : string) (s : Series) (cols : list (string * Series)) :
  lookup_column c (replace_column k s cols) =
  if decide (k = c) then Some s else lookup_column c cols.
Proof.
  induction cols as [|[n s'] cols IH]; simpl.
  - repeat case_decide; congruence.
  - destruct (decide (n = k)) as [->|Hnk]; simpl.
    + destruct (decide (k = c)); reflexivity.
    + destruct (decide (n = c)) as [->|Hnc].
      * destruct (decide (k = c)); congruence.
      * exact IH.
Qed.

Lemma lookup_column_is_Some (c : string) (cols : list (string * Series)) :
  is_Some (lookup_column c cols) ↔ c ∈ cols.*1.
Proof.
  induction cols as [|[n s] cols IH]; simpl.
  - split; [intros [? [=]] | intros H; inversion H].
  - destruct (decide (n = c)) as [->|Hn].
    + split; [intros _; left | eauto].
    + rewrite IH, elem_of_cons. split; [by right | intros [?|?]; [congruence|done]].
Qed.

Lemma lookup_column_elem (c : string) (s : Series) (cols : list (string * Series)) :
  lookup_column c cols = Some s → (c, s) ∈ cols.
Proof.
  induction cols as [|[n s'] cols IH]; simpl; [done|].
  destruct (decide (n = c)) as [->|Hn].
  - intros [= ->]. left.
  - intros H. right. auto.
Qed.

Lemma elem_lookup_column (c : string) (s : Series) (cols : list (string * Series)) :
  NoDup cols.*1 → (c, s) ∈ cols → lookup_column c cols = Some s.
Proof.
  induction cols as [|[n s'] cols IH]; simpl; intros Hnd Hin.
  - inversion Hin.
  - apply NoDup_cons in Hnd as [Hn Hnd].
    apply elem_of_cons in Hin as [[= <- <-]|Hin].
    + by rewrite decide_True.
    + destruct (decide (n = c)) as [->|Hne]; [|auto].
      exfalso. apply Hn. apply list_elem_of_fmap. by exists (c, s).
Qed.

Lemma names_replace_column (k : string) (s : Series) (cols : list (string * Series)) :
  k ∈ cols.*1 → (replace_column k s cols).*1 = cols.*1.
Proof.
  induction cols as [|[n s'] cols IH]; simpl; intros Hin.
  - inversion Hin.
  - destruct (decide (n = k)) as [->|Hne]; simpl; [done|].
    f_equal. apply IH. apply elem_of_cons in Hin as [?|?]; [congruence|done].
Qed.

Lemma lengths_replace_column (P : Series → Prop) (k : string) (s : Series)
  (cols : list (string * Series)) :
  P s → Forall (λ c, P c.2) cols → Forall (λ c, P c.2) (replace_column k s cols).
Proof.
  intros Hs. induction 1 as [|[n s'] cols Hx Hcols IH]; simpl.
  - by constructor.
  - destruct (decide (n = k)); constructor; auto.
Qed.

Lemma replace_column_id (k : string) (s : Series) (cols : list (string * Series)) :
  lookup_column k cols = Some s → replace_column k s cols = cols.
Proof.
  induction cols as [|[n s'] cols IH]; simpl; [done|].
  destruct (decide (n = k)) as [->|Hne].
  - by intros [= ->].
  - intros H. by rewrite IH.
Qed.

(** ** Loops that rewrite one column per iteration *)

Lemma foldl_ext_in {A B} (F G : B → A → B) (l : list A) (a : B) :
  (∀ x b, x ∈ l → F b x = G b x) → foldl F a l = foldl G a l.
Proof.
  revert a. induction l as [|x l IH]; intros a H; simpl; [done|].
  rewrite H by left. apply IH. intros; apply H. by right.
Qed.

Section ColumnLoop.

Context {B : Type}.
Variable f : Series → Series.
Variable g : B → string → Series → B.
Variable body : B → string → Py B.

Hypothesis body_run : ∀ acc k df s,
  lookup_column k (columns df) = Some s →
  body acc k df =
  (Return (g acc k s), with_columns df (replace_column k (f s) (columns df))).

Lemma for_acc_columns (keys : list string) : ∀ (acc : B) (df : DataFrame),
  NoDup keys →
  (∀ k, k ∈ keys → k ∈ column_names df) →
  ∃ df',
    for_acc keys body acc df = (Return (foldl (acc_step g df) acc keys), df') ∧
    index_len df' = index_len df ∧
    index_nbytes df' = index_nbytes df ∧
    column_names df' = column_names df ∧
    ∀ c, lookup_column c (columns df') =
         if decide (c ∈ keys) then f <$> lookup_column c (columns df)
         else lookup_column c (columns df).
Proof.
  induction keys as [|k keys IH]; intros acc df Hnd Hin.
  - exists df. simpl. repeat split; done.
  - apply NoDup_cons in Hnd as [Hk Hnd].
    assert (Hkin : k ∈ column_names df) by (apply Hin; left).
    apply lookup_column_is_Some in Hkin as Hs. destruct Hs as [s Hs].
    pose (df1 := with_columns df (replace_column k (f s) (columns df))).
    assert (Hnames1 : column_names df1 = column_names df)
      by (apply names_replace_column, Hkin).
    destruct (IH (g acc k s) df1 Hnd) as (df' & Hrun & Hlen & Hnb & Hnames & Hlook).
    { intros k' Hk'. rewrite Hnames1. apply Hin. by right. }
    exists df'. split; [|split; [|split; [|split]]].
    + simpl. rewrite bind_run, (body_run _ _ _ _ Hs). fold df1. rewrite Hrun.
      f_equal. f_equal. unfold acc_step at 3. rewrite Hs.
      apply foldl_ext_in. intros k' b Hk'. unfold acc_step. simpl.
      rewrite lookup_replace_column, decide_False; [done|].
      intros ->. contradiction.
    + by rewrite Hlen.
    + by rewrite Hnb.
    + by rewrite Hnames.
    + intros c. rewrite Hlook. simpl. rewrite lookup_replace_column.
      destruct (decide (k = c)) as [->|Hne].
      * rewrite decide_False by done. rewrite decide_True by left.
        by rewrite Hs.
      * destruct (decide (c ∈ keys)) as [Hc|Hc].
        -- rewrite decide_True by (by right). done.
        -- rewrite decide_False; [done|].
           rewrite elem_of_cons. intros [?|?]; [congruence|done].
Qed.

End ColumnLoop.

(** ** The Type Normalizer, column by column *)

Lemma parse_all_raise {B} (read : string → option B) (missing : B)
  (cells : list (option pyval)) (e : exn) :
  parse_all read missing cells = Raise e → e = ValueError.
Proof.
  induction cells as [|c cells IH]; simpl; [done|].
  destruct (match c with Some (PyStr s) => read s | _ => Some missing end); [|congruence].
  destruct (parse_all read missing cells); [done|]. intros [= <-]. by apply IH.
Qed.

Lemma parse_all_length {B} (read : string → option B) (missing : B)
  (cells : list (option pyval)) (r : list B) :
  parse_all read missing cells = Return r → length r = length cells.
Proof.
  revert r. induction cells as [|c cells IH]; simpl; intros r.
  - by intros [= <-].
  - destruct (match c with Some (PyStr s) => read s | _ => Some missing end); [|done].
    destruct (parse_all read missing cells); [|done]. intros [= <-]. simpl. by rewrite IH.
Qed.

(** [parse_all] succeeds exactly when every string of the column is read. *)
Lemma parse_all_Return {B} (read : string → option B) (missing : B)
  (cells : list (option pyval)) :
  (∃ r, parse_all read missing cells = Return r) ↔
  (∀ s, Some (PyStr s) ∈ cells → is_Some (read s)).
Proof.
  induction cells as [|c cells IH]; simpl.
  - split; [intros _ s H; inversion H | eauto].
  - split.
    + intros [r Hr] s' Hs'.
      destruct (match c with Some (PyStr s) => read s | _ => Some missing end) eqn:Hc; [|done].
      apply elem_of_cons in Hs' as [<-|Hs']; [by rewrite Hc|].
      apply IH; [|done]. destruct (parse_all read missing cells); [eauto|done].
    + intros H.
      assert (∃ v, match c with Some (PyStr s) => read s | _ => Some missing end = Some v)
        as [v ->].
      { destruct c as [[s|]|]; eauto. apply H. left. }
      destruct (proj2 IH) as [r ->]; [|eauto].
      intros s' Hs'. apply H. by right.
Qed.

(** The cells a successful conversion returns. *)
Lemma parse_all_fmap {B} (read : string → option B) (missing : B)
  (cells : list (option pyval)) (r : list B) :
  parse_all read missing cells = Return r →
  r = (λ c, match c with
            | Some (PyStr s) => default missing (read s)
            | _ => missing
            end) <$> cells.
Proof.
  revert r. induction cells as [|c cells IH]; simpl; intros r.
  - by intros [= <-].
  - destruct (match c with Some (PyStr s) => read s | _ => Some missing end) eqn:Hc; [|done].
    destruct (parse_all read missing cells); [|done]. intros [= <-]. csimpl.
    f_equal; [|by apply IH].
    destruct c as [[s|]|]; simpl; [by rewrite Hc | congruence | congruence].
Qed.

Lemma as_int64_length (ns : list number) (zs : list Z) :
  as_int64 ns = Some zs → length zs = length ns.
Proof.
  revert zs. induction ns as [|[z|q] ns IH]; simpl; intros zs; try done.
  - by intros [= <-].
  - destruct (as_int64 ns); simpl; [|done]. intros [= <-]. simpl. by rewrite IH.
Qed.

Lemma numeric_series_len (ns : list number) :
  series_len (numeric_series ns) = length ns.
Proof.
  unfold numeric_series. destruct (as_int64 ns) eqn:H; simpl.
  - by apply as_int64_length.
  - by rewrite length_fmap.
Qed.

Lemma numeric_series_dtype (ns : list number) :
  series_dtype (numeric_series ns) = int64 ∨ series_dtype (numeric_series ns) = float64.
Proof. unfold numeric_series. destruct (as_int64 ns); simpl; auto. Qed.

Lemma strip_currency_length (cells : list (option pyval)) :
  length (strip_currency cells) = length cells.
Proof. unfold strip_currency, series_str_replace. by rewrite !length_fmap. Qed.

Section NormalizerFacts.

Variable parse_datetime : string → string → option Z.
Variable parse_numeric : string → option number.

Lemma standardize_column_run (acc : unit) (k : string) (df : DataFrame) (s : Series) :
  lookup_column k (columns df) = Some s →
  standardize_column parse_datetime parse_numeric k df =
  (Return tt, with_columns df (replace_column k (standardize_series parse_datetime parse_numeric s) (columns df))).
Proof.
  intros Hs. unfold standardize_column. rewrite bind_run. unfold getitem. rewrite Hs.
  assert (Hid : (Return tt, df) =
                (Return tt, with_columns df (replace_column k s (columns df)))).
  { rewrite (replace_column_id _ _ _ Hs). by destruct df. }
  destruct s as [cells| | |]; simpl; try exact Hid.
  unfold try_except. rewrite bind_run. unfold lift.
  unfold to_datetime.
  destruct (parse_all (read_datetime parse_datetime (first_present cells)) None cells)
    as [ts|e] eqn:Hd; [done|].
  apply parse_all_raise in Hd as ->.
  rewrite bind_run. unfold to_numeric.
  destruct (parse_all (read_numeric parse_numeric) (NumFloat NaN) (strip_currency cells))
    as [ns|e] eqn:Hn; [done|].
  exact Hid.
Qed.

Lemma standardize_series_len (s : Series) :
  series_len (standardize_series parse_datetime parse_numeric s) = series_len s.
Proof.
  destruct s as [cells| | |]; simpl; try done.
  unfold to_datetime, to_numeric.
  destruct (parse_all (read_datetime parse_datetime (first_present cells)) None cells)
    as [ts|e] eqn:Hd; simpl.
  - by apply parse_all_length in Hd.
  - destruct (parse_all (read_numeric parse_numeric) (NumFloat NaN) (strip_currency cells))
      as [ns|e'] eqn:Hn; simpl; [|done].
    rewrite numeric_series_len. apply parse_all_length in Hn. rewrite Hn.
    apply strip_currency_length.
Qed.

Lemma standardize_datatypes_run (df : DataFrame) :
  NoDup (column_names df) →
  ∃ df',
    standardize_datatypes parse_datetime parse_numeric df = (Return tt, df') ∧
    index_len df' = index_len df ∧
    index_nbytes df' = index_nbytes df ∧
    column_names df' = column_names df ∧
    ∀ c, lookup_column c (columns df') = standardize_series parse_datetime parse_numeric <$> lookup_column c (columns df).
Proof.
  intros Hnd.
  destruct (for_acc_columns (standardize_series parse_datetime parse_numeric) (λ _ _ _, tt)
              (λ _ k, standardize_column parse_datetime parse_numeric k)
              (λ acc k df s, standardize_column_run acc k df s)
              (column_names df) tt df Hnd (λ k H, H))
    as (df' & Hrun & Hlen & Hnb & Hnames & Hlook).
  exists df'. split; [|repeat split; try done].
  - unfold standardize_datatypes. rewrite bind_run, reads_run.
    unfold for_each. rewrite Hrun. f_equal.
    by destruct (foldl _ _ _).
  - intros c. rewrite Hlook. destruct (decide (c ∈ column_names df)) as [|Hc]; [done|].
    destruct (lookup_column c (columns df)) eqn:E; [|done].
    exfalso. apply Hc. apply lookup_column_is_Some. eauto.
Qed.

End NormalizerFacts.

(** ** Order statistics *)




Lemma insert_sorted_length (x : Q) (l : list Q) :
  length (insert_sorted x l) = S (length l).
Proof.
  induction l as [|y l IH]; simpl; [done|].
  destruct (Qle_bool x y); simpl; by rewrite ?IH.
Qed.

Lemma sort_length (l : list Q) : length (sort l) = length l.
Proof.
  induction l as [|x l IH]; simpl; [done|]. by rewrite insert_sorted_length, IH.
Qed.





Lemma filter_all {A} (P : A → Prop) `{∀ x, Decision (P x)} (l : list A) :
  Forall P l → filter P l = l.
Proof.
  induction 1 as [|x l Hx _ IH]; [done|].
  rewrite filter_cons, decide_True by done. by rewrite IH.
Qed.

Lemma filter_none {A} (P : A → Prop) `{∀ x, Decision (P x)} (l : list A) :
  Forall (λ x, ¬ P x) l → filter P l = [].
Proof.
  induction 1 as [|x l Hx _ IH]; [done|].
  by rewrite filter_cons, decide_False.
Qed.

Lemma Qle_bool_false (x y : Q) : Qle_bool x y = false ↔ y < x.
Proof.
  split.
  - intros E. destruct (Qlt_le_dec y x) as [|H]; [done|].
    apply Qle_bool_iff in H. congruence.
  - intros H. destruct (Qle_bool x y) eqn:E; [|done].
    apply Qle_bool_iff in E. lra.
Qed.


(** ** Interpolation between two order statistics *)



Lemma lerp_eq (ops : array_ops) (a b t : Q) :
  lerp ops a b t =
  if Qle_bool (1 # 2) t
  then Some (round64 (as_float ops b -
                      round64 (round64 (subtract ops b a) * round64 (1 - t))))
  else Some (round64 (as_float ops a + round64 (round64 (subtract ops b a) * t))).
Proof. unfold lerp. simpl. by destruct (Qle_bool (1 # 2) t). Qed.







(** ** Quartiles *)

Lemma lerp_is_Some (ops : array_ops) (a b t : Q) :
  ∃ v, lerp ops a b t = Some v ∧ binary64 v.
Proof.
  rewrite lerp_eq. destruct (Qle_bool (1 # 2) t); eexists; (split; [done|]);
    apply binary64_round.
Qed.

Lemma quantile_linear_None (ops : array_ops) (values : list Q) (q : Q) :
  quantile_linear ops values q = NaN ↔ values = [].
Proof.
  unfold quantile_linear. pose proof (sort_length values) as Hl.
  destruct (length (sort values)) eqn:E.
  - split; [intros _|done]. symmetry in Hl. by apply nil_length_inv.
  - split; [|by intros ->].
    match goal with |- lerp _ ?a ?b ?t = _ → _ =>
      destruct (lerp_is_Some ops a b t) as (v & -> & _) end. done.
Qed.

Lemma quantile_linear_binary64 (ops : array_ops) (values : list Q) (q v : Q) :
  quantile_linear ops values q = Some v → binary64 v.
Proof.
  unfold quantile_linear. destruct (length (sort values)); [done|].
  match goal with |- lerp _ ?a ?b ?t = _ → _ =>
    destruct (lerp_is_Some ops a b t) as (w & -> & Hw) end.
  by intros [= <-].
Qed.




(** ** Clipping a numeric column *)

Lemma is_numeric_select (s : Series) :
  is_numeric s ↔ series_dtype s ∈ [int64; float64].
Proof.
  unfold is_numeric. rewrite !elem_of_cons, elem_of_nil. tauto.
Qed.

Lemma numeric_values_length (s : Series) :
  is_numeric s → length (numeric_values s) = series_len s.
Proof.
  intros [H|H]; destruct s; simpl in *; try done. by rewrite length_fmap.
Qed.

Lemma series_where_numeric (s : Series) (cond : list bool) (other : Q) :
  is_numeric s → is_numeric (series_where s cond other).
Proof.
  intros Hs. unfold series_where. destruct (forallb id cond); [done|].
  destruct s; try done.
  - destruct (can_hold_int64 other); [by left | by right].
Qed.

Lemma series_where_len (s : Series) (cond : list bool) (other : Q) :
  length cond = series_len s →
  series_len (series_where s cond other) = series_len s.
Proof.
  intros Hl. unfold series_where. destruct (forallb id cond); [done|].
  destruct s; simpl in *; try done.
  - destruct (can_hold_int64 other); simpl; rewrite length_zip_with; lia.
  - rewrite length_zip_with; lia.
Qed.

(** A cell is kept where the condition holds and is [other] elsewhere
    ([other] being a value of float64). *)
Lemma series_where_lookup (s : Series) (cond : list bool) (other : Q)
  (i : nat) (y : float) (k : bool) :
  is_numeric s →
  binary64 other →
  numeric_values s !! i = Some y →
  cond !! i = Some k →
  numeric_values (series_where s cond other) !! i = Some (if k then y else Some other).
Proof.
  intros Hs Ho Hy Hk. unfold series_where.
  destruct (forallb id cond) eqn:Hall.
  - rewrite forallb_forall in Hall.
    assert (k = true) as ->; [|done].
    apply (Hall k), list_elem_of_In, list_elem_of_lookup. eauto.
  - destruct Hs as [Hs|Hs]; destruct s as [|c|c|]; simpl in *; try done.
    + rewrite list_lookup_fmap in Hy.
      destruct (c !! i) as [z0|] eqn:Hc; simpl in Hy; [|done].
      injection Hy as <-.
      destruct (can_hold_int64 other) eqn:Hint; simpl.
      * apply andb_true_iff in Hint as [Hint _]. rewrite list_lookup_fmap, lookup_zip_with, Hc, Hk. simpl.
        destruct k; [done|]. unfold Z_to_float. do 2 f_equal.
        etrans; [|exact Ho]. apply round64_wd. by apply Qeq_bool_iff.
      * rewrite lookup_zip_with, Hc, Hk. simpl. by destruct k.
    + rewrite lookup_zip_with, Hy, Hk. simpl. by destruct k.
Qed.

Lemma clip_numeric (s : Series) (lower upper : float) :
  is_numeric s → is_numeric (clip s lower upper).
Proof.
  intros Hs. unfold clip.
  destruct lower as [lo|], upper as [hi|]; [destruct (Qle_bool lo hi)| | |];
    auto using series_where_numeric.
Qed.

Lemma clip_len (s : Series) (lower upper : float) :
  is_numeric s → series_len (clip s lower upper) = series_len s.
Proof.
  intros Hs. unfold clip.
  assert (∀ g : float → bool, length (g <$> numeric_values s) = series_len s) as Hg
    by (intros; by rewrite length_fmap, numeric_values_length).
  destruct lower as [lo|], upper as [hi|]; [destruct (Qle_bool lo hi)| | |];
    rewrite ?series_where_len; rewrite ?series_where_len; auto.
Qed.

(** Two bounds given in the wrong order are taken in the right one. *)
Lemma clip_swap (s : Series) (lo hi : Q) :
  hi < lo → clip s (Some lo) (Some hi) = clip s (Some hi) (Some lo).
Proof.
  intros H. unfold clip.
  assert (Qle_bool lo hi = false) as -> by (by apply Qle_bool_false).
  assert (Qle_bool hi lo = true) as -> by (apply Qle_bool_iff; lra).
  done.
Qed.

(** Cell by cell: a missing cell stays missing; a present cell above the
    upper bound becomes the upper bound, one below the lower bound the lower
    bound, any other is kept. *)
Lemma clip_lookup (s : Series) (lo hi : Q) (i : nat) (x : float) :
  is_numeric s →
  binary64 lo → binary64 hi →
  lo <= hi →
  numeric_values s !! i = Some x →
  numeric_values (clip s (Some lo) (Some hi)) !! i =
  Some match x with
       | None => None
       | Some v =>
           if Qle_bool v hi then (if Qle_bool lo v then Some v else Some lo)
           else Some hi
       end.
Proof.
  intros Hs Hlo Hhi Hle Hx. unfold clip.
  assert (Qle_bool lo hi = true) as -> by (by apply Qle_bool_iff).
  set (c1 := (λ x, isna x || fle (Some lo) x) <$> numeric_values s).
  set (c2 := (λ x, isna x || fle x (Some hi)) <$> numeric_values s).
  assert (Hc1 : c1 !! i = Some (isna x || fle (Some lo) x))
    by (unfold c1; by rewrite list_lookup_fmap, Hx).
  assert (Hc2 : c2 !! i = Some (isna x || fle x (Some hi)))
    by (unfold c2; by rewrite list_lookup_fmap, Hx).
  pose proof (series_where_lookup s c1 lo i x _ Hs Hlo Hx Hc1) as Hy.
  rewrite (series_where_lookup (series_where s c1 lo) c2 hi i _ _
             (series_where_numeric _ _ _ Hs) Hhi Hy Hc2).
  f_equal. destruct x as [v|]; simpl; [|done].
  by destruct (Qle_bool v hi), (Qle_bool lo v).
Qed.

Lemma clip_NaN (s : Series) : clip s NaN NaN = s.
Proof. reflexivity. Qed.

(** ** Selecting columns by dtype *)

Lemma select_dtypes_NoDup (dts : list dtype) (df : DataFrame) :
  NoDup (column_names df) → NoDup (select_dtypes dts df).
Proof.
  intros Hnd. eapply sublist_NoDup; [exact Hnd|].
  unfold select_dtypes, column_names. apply fmap_sublist, sublist_filter.
Qed.

Lemma select_dtypes_names (dts : list dtype) (df : DataFrame) (c : string) :
  c ∈ select_dtypes dts df → c ∈ column_names df.
Proof.
  unfold select_dtypes, column_names. rewrite !list_elem_of_fmap.
  intros ([n s] & -> & H). apply list_elem_of_filter in H as [_ H]. eauto.
Qed.

Lemma select_dtypes_elem (dts : list dtype) (df : DataFrame) (c : string) :
  NoDup (column_names df) →
  c ∈ select_dtypes dts df ↔
  ∃ s, lookup_column c (columns df) = Some s ∧ series_dtype s ∈ dts.
Proof.
  intros Hnd. unfold select_dtypes. rewrite list_elem_of_fmap. split.
  - intros ([n s] & -> & H). apply list_elem_of_filter in H as [Hd H].
    exists s. split; [by apply elem_lookup_column | done].
  - intros (s & Hs & Hd). exists (c, s). split; [done|].
    apply list_elem_of_filter. split; [done | by apply lookup_column_elem].
Qed.

(** ** Bounds of the Outlier Capper *)

Lemma quantile_None (s : Series) (q : Q) :
  quantile s q = NaN ↔ present (numeric_values s) = [].
Proof.
  destruct s as [c|c|c|c]; simpl; rewrite quantile_linear_None; try done.
  destruct c; csimpl; done.
Qed.

Lemma quantile_binary64 (s : Series) (q v : Q) : quantile s q = Some v → binary64 v.
Proof. destruct s; simpl; apply quantile_linear_binary64. Qed.



(** Without a present value the bounds are NaN; otherwise they are values
    of float64, which enclose the two quartiles when these are in order. *)
Lemma bounds_cases (s : Series) :
  (quantile s (1 # 4) = NaN ∧ quantile s (3 # 4) = NaN ∧
   lower_bound s = NaN ∧ upper_bound s = NaN ∧ present (numeric_values s) = []) ∨
  (∃ q1 q3 lb ub,
     quantile s (1 # 4) = Some q1 ∧ quantile s (3 # 4) = Some q3 ∧
     lower_bound s = Some lb ∧ upper_bound s = Some ub ∧
     binary64 lb ∧ binary64 ub ∧
     (q1 <= q3 → lb <= q1 ∧ q3 <= ub)).
Proof.
  unfold lower_bound, upper_bound.
  destruct (quantile s (1 # 4)) as [q1|] eqn:E1.
  - destruct (quantile s (3 # 4)) as [q3|] eqn:E3.
    + right. simpl. exists q1, q3. do 2 eexists.
      split; [done|]. split; [done|]. split; [done|]. split; [done|].
      split; [apply binary64_round|]. split; [apply binary64_round|].
      intros Hle.
      pose proof (quantile_binary64 _ _ _ E1) as Hb1.
      pose proof (quantile_binary64 _ _ _ E3) as Hb3.
      assert (Hw : 0 <= round64 ((3 # 2) * round64 (q3 - q1))).
      { apply round64_nonneg. apply Qmult_le_0_compat; [lra|].
        apply round64_nonneg. lra. }
      split; [apply round64_le_r; [done|lra] | apply round64_le_l; [done|lra]].
    + apply quantile_None in E3. apply (quantile_None s (1 # 4)) in E3. congruence.
  - left. apply quantile_None in E1 as E. rewrite (proj2 (quantile_None s (3 # 4)) E). done.
Qed.


Lemma present_nil_isna {A} (cells : list (option A)) :
  present cells = [] → Forall (λ x, x = None) cells.
Proof.
  induction cells as [|[x|] cells IH]; simpl; [constructor|done|].
  intros H. constructor; auto.
Qed.

(** ** The Outlier Capper, column by column *)

Lemma cap_column_run (acc : gmap string nat) (k : string) (df : DataFrame) (s : Series) :
  lookup_column k (columns df) = Some s →
  cap_column acc k df =
  (Return (record_outliers acc k s),
   with_columns df (replace_column k (capped s) (columns df))).
Proof.
  intros Hs. unfold cap_column. rewrite bind_run. unfold getitem. rewrite Hs.
  reflexivity.
Qed.


Lemma remove_outliers_run (df : DataFrame) :
  NoDup (column_names df) →
  ∃ df',
    remove_outliers df =
    (Return (foldl (acc_step record_outliers df) ∅ (select_dtypes [int64; float64] df)), df') ∧
    index_len df' = index_len df ∧
    index_nbytes df' = index_nbytes df ∧
    column_names df' = column_names df ∧
    ∀ c s, lookup_column c (columns df) = Some s →
           lookup_column c (columns df') = Some (if decide (is_numeric s) then capped s else s).
Proof.
  intros Hnd.
  destruct (for_acc_columns capped record_outliers cap_column cap_column_run
              (select_dtypes [int64; float64] df) ∅ df
              (select_dtypes_NoDup _ _ Hnd) (select_dtypes_names _ _))
    as (df' & Hrun & Hlen & Hnb & Hnames & Hlook).
  exists df'. split; [|repeat split; try done].
  - unfold remove_outliers. by rewrite bind_run, reads_run.
  - intros c s Hs. rewrite Hlook, Hs. simpl.
    destruct (decide (is_numeric s)) as [Hn|Hn].
    + rewrite decide_True; [done|].
      apply select_dtypes_elem; [done|]. exists s. by rewrite <- is_numeric_select.
    + rewrite decide_False; [done|].
      intros (s' & Hs' & Hd)%select_dtypes_elem; [|done].
      apply Hn. apply is_numeric_select. congruence.
Qed.

(** ** The Imputer, block by block *)

Lemma getitems_run (keys : list string) (df : DataFrame) :
  (∀ k, k ∈ keys → k ∈ column_names df) →
  ∃ ss, getitems keys df = (Return ss, df) ∧
        Forall2 (λ k s, lookup_column k (columns df) = Some s) keys ss.
Proof.
  induction keys as [|k keys IH]; intros Hin; simpl.
  - exists []. split; [done | constructor].
  - destruct IH as (ss & Hrun & Hss); [intros; apply Hin; by right|].
    destruct (proj2 (lookup_column_is_Some k (columns df))) as [s Hs];
      [apply Hin; left|].
    exists (s :: ss). split; [|by constructor].
    rewrite bind_run. unfold getitem at 1. rewrite Hs.
    rewrite bind_run, Hrun. done.
Qed.

Lemma setitem_loop_run (keys : list string) :
  ∀ (vals : list Series) (df : DataFrame),
    length keys = length vals →
    NoDup keys →
    (∀ k, k ∈ keys → k ∈ column_names df) →
    ∃ df',
      for_each (zip keys vals) (λ kv, setitem kv.1 kv.2) df = (Return tt, df') ∧
      index_len df' = index_len df ∧
      index_nbytes df' = index_nbytes df ∧
      column_names df' = column_names df ∧
      (∀ i k v, keys !! i = Some k → vals !! i = Some v →
                lookup_column k (columns df') = Some v) ∧
      (∀ c, c ∉ keys → lookup_column c (columns df') = lookup_column c (columns df)).
Proof.
  induction keys as [|k keys IH]; intros [|v vals] df Hlen Hnd Hin; simpl in *; try done.
  - exists df. repeat split; try done.
  - apply NoDup_cons in Hnd as [Hk Hnd].
    pose (df1 := with_columns df (replace_column k v (columns df))).
    assert (Hnames1 : column_names df1 = column_names df)
      by (apply names_replace_column, Hin; left).
    destruct (IH vals df1) as (df' & Hrun & Hl & Hnb & Hnames & Hset & Hother);
      [lia | done | |].
    { intros k' Hk'. rewrite Hnames1. apply Hin. by right. }
    exists df'. split; [|repeat split].
    + unfold for_each in *. simpl. rewrite bind_run, setitem_run. fold df1.
      exact Hrun.
    + by rewrite Hl.
    + by rewrite Hnb.
    + by rewrite Hnames.
    + intros [|i] k' v' Hk' Hv'; simpl in *.
      * injection Hk' as <-. injection Hv' as <-.
        rewrite Hother by done. simpl.
        by rewrite lookup_replace_column, decide_True.
      * eauto.
    + intros c Hc. rewrite not_elem_of_cons in Hc. destruct Hc as [Hck Hc].
      rewrite Hother by done. simpl.
      by rewrite lookup_replace_column, decide_False.
Qed.

Lemma omap_length_le {A B} (F : A → option B) (l : list A) :
  (length (omap F l) ≤ length l)%nat.
Proof.
  induction l as [|x l IH]; csimpl; [done|].
  destruct (F x); simpl; lia.
Qed.

Lemma omap_full {A B} (F : A → option B) (l : list A) :
  length (omap F l) = length l → Forall2 (λ x y, F x = Some y) l (omap F l).
Proof.
  induction l as [|x l IH]; csimpl; [constructor|].
  pose proof (omap_length_le F l).
  destruct (F x) eqn:E; simpl; intros Hl; [|lia].
  constructor; [done|]. apply IH. lia.
Qed.

Lemma omap_all_Some {A B} (F : A → option B) (l : list A) :
  Forall (λ x, is_Some (F x)) l → length (omap F l) = length l.
Proof.
  induction 1 as [|x l [y Hy] Hl IH]; csimpl; [done|].
  rewrite Hy. simpl. by rewrite IH.
Qed.

Lemma handle_missing_values_blocks :
  handle_missing_values =
  (impute_block [int64; float64] numeric_values median_statistic Float64Series;;
   impute_block [object] object_values most_frequent ObjectSeries).
Proof. reflexivity. Qed.

Lemma fit_Raise {A} (statistic : list A → outcome (option A)) (X : list (list (option A)))
  (e : exn) :
  fit statistic X = Raise e → ∃ cells, cells ∈ X ∧ statistic (present cells) = Raise e.
Proof.
  induction X as [|cells X IH]; simpl; [done|].
  destruct (statistic (present cells)) as [st|e'] eqn:E.
  - destruct (fit statistic X) as [sts|e'']; [done|]. intros [= <-].
    destruct IH as (c & Hc & Hr); [done|]. exists c. split; [by right | done].
  - intros [= <-]. exists cells. split; [left | done].
Qed.

Lemma fit_transform_Return {A} (statistic : list A → outcome (option A))
  (X : list (list (option A))) (sts : list (option A)) :
  fit statistic X = Return sts → transform sts X = omap (filled_feature statistic) X.
Proof.
  unfold transform. revert sts. induction X as [|cells X IH]; simpl; intros sts.
  - by intros [= <-].
  - destruct (statistic (present cells)) as [st|e] eqn:E; [|done].
    destruct (fit statistic X) as [sts'|e]; [|done]. intros [= <-]. csimpl.
    rewrite (IH sts' eq_refl). unfold filled_feature. rewrite E. by destruct st.
Qed.

Lemma fit_is_Return {A} (statistic : list A → outcome (option A))
  (X : list (list (option A))) :
  (∀ cells, cells ∈ X → ∃ st, statistic (present cells) = Return st) →
  ∃ sts, fit statistic X = Return sts.
Proof.
  intros H. destruct (fit statistic X) as [sts|e] eqn:E; [eauto|].
  apply fit_Raise in E as (cells & Hc & Hr). destruct (H cells Hc) as [st Hst]. congruence.
Qed.

Section ImputeBlock.

Context {A : Type}.
Variable dts : list dtype.
Variable values : Series → list (option A).
Variable statistic : list A → outcome (option A).
Variable wrap : list (option A) → Series.

(** A block either raises before it writes anything (there is no row, or
    the statistic of a selected column raises, or a selected column has no
    statistic), or returns with every selected column imputed and the
    others as they were. *)
Lemma impute_block_run (df : DataFrame) :
  NoDup (column_names df) →
  (∃ e,
     impute_block dts values statistic wrap df = (Raise e, df) ∧
     ((e = ValueError ∧ index_len df = 0%nat ∧
       ∃ c s, lookup_column c (columns df) = Some s ∧ series_dtype s ∈ dts) ∨
      (∃ c s, lookup_column c (columns df) = Some s ∧ series_dtype s ∈ dts ∧
              statistic (present (values s)) = Raise e) ∨
      (e = ValueError ∧
       ∃ c s, lookup_column c (columns df) = Some s ∧ series_dtype s ∈ dts ∧
              statistic (present (values s)) = Return None))) ∨
  ∃ df',
    impute_block dts values statistic wrap df = (Return tt, df') ∧
    index_len df' = index_len df ∧
    index_nbytes df' = index_nbytes df ∧
    column_names df' = column_names df ∧
    ∀ c s, lookup_column c (columns df) = Some s →
      if decide (series_dtype s ∈ dts) then
        ∃ st, statistic (present (values s)) = Return (Some st) ∧
              lookup_column c (columns df') = Some (imputed_series values wrap st s)
      else lookup_column c (columns df') = Some s.
Proof.
  intros Hnd. unfold impute_block. rewrite bind_run, reads_run.
  set (cols := select_dtypes dts df).
  destruct (0 <? length cols)%nat eqn:Hcols.
  - destruct (getitems_run cols df (select_dtypes_names _ _)) as (X & HX & HXs).
    rewrite bind_run, HX, bind_run, reads_run, bind_run. unfold lift, fit_transform, len.
    destruct (index_len df =? 0)%nat eqn:Hrows.
    { left. exists ValueError. split; [done|]. left. split; [done|].
      split; [by apply Nat.eqb_eq|].
      destruct cols as [|c cols'] eqn:Ec; [done|].
      assert (c ∈ select_dtypes dts df) as Hc by (fold cols; rewrite Ec; left).
      apply select_dtypes_elem in Hc as (s & Hs & Hd); [|done]. eauto. }
    (* the column a cell list of [values <$> X] comes from *)
    assert (Hfrom : ∀ x, x ∈ values <$> X →
              ∃ c s, x = values s ∧ lookup_column c (columns df) = Some s ∧
                     series_dtype s ∈ dts).
    { intros x Hx. apply list_elem_of_fmap in Hx as (s & -> & Hs).
      apply list_elem_of_lookup in Hs as [i Hi].
      destruct (Forall2_lookup_r _ _ _ _ _ HXs Hi) as (c & Hc & Hcs).
      exists c, s. split; [done|]. split; [done|].
      assert (c ∈ cols) as Hin by (apply list_elem_of_lookup; eauto).
      apply select_dtypes_elem in Hin as (s' & Hs' & Hd); [|done]. congruence. }
    destruct (fit statistic (values <$> X)) as [sts|e] eqn:Hfit.
    2:{ left. exists e. split; [done|]. right. left.
        apply fit_Raise in Hfit as (x & Hx & Hr).
        destruct (Hfrom x Hx) as (c & s & -> & Hs & Hd). eauto. }
    rewrite (fit_transform_Return _ _ _ Hfit).
    set (F := filled_feature statistic).
    unfold setitem_array.
    destruct (decide (length cols = length ((λ c, wrap (Some <$> c)) <$> omap F (values <$> X))))
      as [Hlen|Hlen].
    2:{ left. exists ValueError. split; [done|]. right. right. split; [done|].
        destruct (decide (Forall (λ x, is_Some (F x)) (values <$> X))) as [Hall|Hall].
        { exfalso. apply Hlen. rewrite length_fmap, (omap_all_Some _ _ Hall), length_fmap.
          by eapply Forall2_length. }
        apply not_Forall_Exists in Hall; [|apply _].
        apply Exists_exists in Hall as (x & Hx & HFx).
        destruct (Hfrom x Hx) as (c & s & -> & Hs & Hd).
        exists c, s. split; [done|]. split; [done|].
        unfold F, filled_feature in HFx. simpl in HFx.
        destruct (statistic (present (values s))) as [[st|]|e] eqn:E; [|done|].
        - exfalso. apply HFx. by eexists.
        - exfalso.
          assert (∃ x, x ∈ values <$> X ∧ statistic (present x) = Raise e) as (x & Hx' & Hr)
            by (exists (values s); done).
          clear -Hfit Hx' Hr. revert sts Hfit.
          induction (values <$> X) as [|y l IH]; intros sts Hfit; [inversion Hx'|].
          simpl in Hfit. apply elem_of_cons in Hx' as [->|Hx'].
          + by rewrite Hr in Hfit.
          + destruct (statistic (present y)); [|done].
            destruct (fit statistic l) eqn:El; [|done]. by eapply IH. }
    right.
    destruct (setitem_loop_run cols _ df Hlen (select_dtypes_NoDup _ _ Hnd)
                (select_dtypes_names _ _))
      as (df' & Hrun & Hl & Hnb & Hnames & Hset & Hother).
    exists df'. split; [done|]. repeat split; try done.
    intros c s Hs. destruct (decide (series_dtype s ∈ dts)) as [Hd|Hd].
    + assert (Hc : c ∈ cols) by (apply select_dtypes_elem; eauto).
      apply list_elem_of_lookup in Hc as [i Hi].
      destruct (Forall2_lookup_l _ _ _ _ _ HXs Hi) as (s' & HXi & Hs').
      assert (s' = s) as -> by congruence.
      rewrite length_fmap in Hlen. apply Forall2_length in HXs as HlX.
      assert (Hfull : length (omap F (values <$> X)) = length (values <$> X))
        by (rewrite length_fmap; lia).
      apply omap_full in Hfull.
      assert (HvX : (values <$> X) !! i = Some (values s))
        by (by rewrite list_lookup_fmap, HXi).
      destruct (Forall2_lookup_l _ _ _ _ _ Hfull HvX) as (y & Hy & HF).
      unfold F, filled_feature in HF.
      destruct (statistic (present (values s))) as [[st|]|e] eqn:Hst; try done.
      injection HF as <-. exists st. split; [done|].
      apply (Hset i); [done|]. by rewrite list_lookup_fmap, Hy.
    + rewrite Hother; [done|]. intros (s' & Hs' & Hd')%select_dtypes_elem; [|done].
      congruence.
  - right. exists df. repeat split; try done.
    intros c s Hs. destruct (decide (series_dtype s ∈ dts)) as [Hd|Hd]; [|done].
    assert (Hc : c ∈ cols) by (apply select_dtypes_elem; eauto).
    destruct cols; [inversion Hc | done].
Qed.

End ImputeBlock.

(** ** The statistics of the Imputer *)

Lemma string_compare_OT (a b : string) : String.compare a b = String_as_OT.compare a b.
Proof.
  revert b. induction a as [|c a IH]; intros [|d b]; simpl; try done.
Qed.

Lemma ltb_lt (a b : string) : String.ltb a b = true ↔ String_as_OT.lt a b.
Proof.
  unfold String.ltb, String_as_OT.lt. rewrite string_compare_OT.
  destruct (String_as_OT.compare a b); split; congruence.
Qed.

Lemma string_le_refl (a : string) : string_le a a.
Proof.
  unfold string_le. destruct (String.ltb a a) eqn:E; [|done].
  apply ltb_lt in E. by apply (irreflexivity String_as_OT.lt) in E.
Qed.

Lemma string_le_trans (a b c : string) : string_le a b → string_le b c → string_le a c.
Proof.
  unfold string_le. intros Hab Hbc.
  destruct (String.ltb c a) eqn:Hca; [|done]. apply ltb_lt in Hca.
  destruct (String_as_OT.compare_spec b c) as [Heq|Hlt|Hgt].
  - red in Heq. subst b. apply ltb_lt in Hca. congruence.
  - assert (String_as_OT.lt b a) as H by (by etransitivity).
    apply ltb_lt in H. congruence.
  - apply ltb_lt in Hgt. congruence.
Qed.

Lemma string_le_total (a b : string) : string_le a b ∨ string_le b a.
Proof.
  unfold string_le. destruct (String.ltb b a) eqn:E1; [|by left].
  right. destruct (String.ltb a b) eqn:E2; [|done].
  apply ltb_lt in E1, E2.
  exfalso. eapply (irreflexivity String_as_OT.lt). by etransitivity.
Qed.

Lemma median_None (values : list Q) : median values = NaN ↔ values = [].
Proof.
  unfold median. pose proof (sort_length values) as Hl.
  destruct (length (sort values)) as [|n] eqn:E; simpl.
  - split; [intros _|done]. symmetry in Hl. by apply nil_length_inv.
  - split; [done|]. intros ->. done.
Qed.

Lemma count_le_most_frequent (values : list pyval) (y : pyval) :
  y ∈ values → (count_of y values ≤ most_frequent_count values)%nat.
Proof.
  intros Hy. unfold most_frequent_count.
  apply max_list_elem_of_le, list_elem_of_fmap. eauto.
Qed.

(** A value reaches the highest count exactly when no value occurs more
    often. *)
Lemma most_frequent_value_count (values : list pyval) (x : pyval) :
  most_frequent_value x values ↔
  x ∈ values ∧ count_of x values = most_frequent_count values.
Proof.
  unfold most_frequent_value. split; intros [Hx H]; (split; [done|]).
  - apply Nat.le_antisymm; [by apply count_le_most_frequent|].
    assert (Hmax : most_frequent_count values ∈ (λ x, count_of x values) <$> values).
    { apply max_list_elem_of. destruct values; [inversion Hx | done]. }
    apply list_elem_of_fmap in Hmax as (y & -> & Hy). by apply H.
  - intros y Hy. rewrite H. by apply count_le_most_frequent.
Qed.

Lemma elem_of_candidates (values : list pyval) (y : pyval) :
  y ∈ remove_dups (filter (λ x, count_of x values = most_frequent_count values) values) ↔
  most_frequent_value y values.
Proof.
  rewrite elem_of_remove_dups, list_elem_of_filter, most_frequent_value_count. tauto.
Qed.

Lemma candidates_nil (values : list pyval) :
  remove_dups (filter (λ x, count_of x values = most_frequent_count values) values) = [] ↔
  values = [].
Proof.
  split; [|by intros ->]. intros Hnil.
  destruct values as [|v values]; [done|]. exfalso.
  set (l := v :: values) in *.
  assert (Hmax : most_frequent_count l ∈ (λ x, count_of x l) <$> l).
  { apply max_list_elem_of. done. }
  apply list_elem_of_fmap in Hmax as (x & Hx & Hin).
  assert (x ∈ remove_dups (filter (λ x, count_of x l = most_frequent_count l) l)) as H.
  { apply elem_of_remove_dups, list_elem_of_filter. done. }
  rewrite Hnil in H. inversion H.
Qed.

(** [min] over strings: the smallest of them. *)
Lemma py_min_strings (l : list pyval) : ∀ x,
  (∀ y, y ∈ x :: l → y ≠ PyNone) →
  ∃ a, py_min x l = Return (PyStr a) ∧ PyStr a ∈ x :: l ∧
       ∀ b, PyStr b ∈ x :: l → string_le a b.
Proof.
  induction l as [|z l IH]; intros x Hstr; simpl.
  - destruct x as [a|]; [|by destruct (Hstr PyNone ltac:(left))].
    exists a. split; [done|]. split; [left|].
    intros b Hb%list_elem_of_singleton. injection Hb as ->. apply string_le_refl.
  - destruct x as [a|]; [|by destruct (Hstr PyNone ltac:(left))].
    destruct z as [c|]; [|by destruct (Hstr PyNone ltac:(right; left))].
    simpl.
    destruct (IH (PyStr (if String.ltb c a then c else a))) as (m & Hm & Hin & Hle).
    { intros y Hy. apply Hstr. apply elem_of_cons in Hy as [->|Hy].
      - destruct (String.ltb c a); [right; left | left].
      - right. by right. }
    exists m. split; [by destruct (String.ltb c a)|]. split.
    + apply elem_of_cons in Hin as [Hin|Hin].
      * rewrite Hin. destruct (String.ltb c a); [right; left | left].
      * right. by right.
    + assert (Hx' : string_le (if String.ltb c a then c else a) a ∧
                    string_le (if String.ltb c a then c else a) c).
      { destruct (String.ltb c a) eqn:E.
        - split; [|apply string_le_refl].
          destruct (string_le_total c a) as [H|H]; [done|].
          unfold string_le in H. congruence.
        - split; [apply string_le_refl | exact E]. }
      intros b Hb. apply elem_of_cons in Hb as [[= ->]|Hb].
      * eapply string_le_trans; [apply Hle; left | apply Hx'].
      * apply elem_of_cons in Hb as [[= ->]|Hb].
        -- eapply string_le_trans; [apply Hle; left | apply Hx'].
        -- apply Hle. by right.
Qed.

(** [min] over more than one value, [None] among them: a [TypeError]. *)
Lemma py_min_None (l : list pyval) : ∀ x,
  PyNone ∈ x :: l → l ≠ [] → py_min x l = Raise TypeError.
Proof.
  induction l as [|z l IH]; intros x Hin Hl; [done|]. simpl.
  destruct x as [a|]; [|by destruct z].
  destruct z as [c|]; [|done]. simpl.
  assert (PyNone ∈ l) as Hnone.
  { apply elem_of_cons in Hin as [?|Hin]; [done|].
    apply elem_of_cons in Hin as [?|Hin]; done. }
  assert (l ≠ []) as Hl' by (intros ->; inversion Hnone).
  destruct (String.ltb c a); apply IH; try done; by right.
Qed.

Lemma py_min_raise (l : list pyval) (x : pyval) (e : exn) :
  py_min x l = Raise e → e = TypeError ∧ PyNone ∈ x :: l ∧ l ≠ [].
Proof.
  intros Hr.
  destruct (decide (PyNone ∈ x :: l)) as [Hin|Hin].
  - destruct l as [|z l]; [done|].
    rewrite py_min_None in Hr by done. injection Hr as <-. done.
  - destruct (py_min_strings l x) as (a & Ha & _); [|congruence].
    intros y Hy ->. done.
Qed.

Lemma most_frequent_None (values : list pyval) :
  most_frequent values = Return None ↔ values = [].
Proof.
  unfold most_frequent. rewrite <- (candidates_nil values).
  destruct (remove_dups _) as [|x c]; [done|].
  destruct (py_min x c); split; done.
Qed.

(** The Imputer raises [TypeError] on a text column exactly when its most
    frequent values comprise [None] and a string. *)
Lemma most_frequent_Raise (values : list pyval) (e : exn) :
  most_frequent values = Raise e ↔ e = TypeError ∧ mixed_tie values.
Proof.
  unfold most_frequent, mixed_tie.
  pose proof (elem_of_candidates values) as Hc.
  pose proof (NoDup_remove_dups
                (filter (λ x, count_of x values = most_frequent_count values) values)) as Hnd.
  destruct (remove_dups _) as [|x c] eqn:E.
  - split; [done|]. intros (_ & H & _). apply Hc in H. inversion H.
  - destruct (py_min x c) as [m|e'] eqn:Hm.
    + split; [done|]. intros (-> & Hnone & a & Ha). exfalso.
      apply Hc in Hnone. apply Hc in Ha.
      assert (c ≠ []) as Hne.
      { intros ->. apply list_elem_of_singleton in Hnone, Ha. congruence. }
      by rewrite py_min_None in Hm.
    + apply py_min_raise in Hm as (-> & Hnone & Hne). split.
      * intros [= <-]. split; [done|]. split; [by apply Hc|].
        assert (∃ y, y ∈ x :: c ∧ y ≠ PyNone) as (y & Hy & Hyn).
        { apply NoDup_cons in Hnd as [Hx Hnd].
          destruct x as [a|]; [exists (PyStr a); split; [left|done]|].
          destruct c as [|[a|] c]; [done| |].
          - exists (PyStr a). split; [right; left | done].
          - exfalso. apply Hx. left. }
        destruct y as [a|]; [|done]. exists a. by apply Hc.
      * by intros [-> _].
Qed.

(** The imputed text value is one of the values of the column, no value
    occurs more often, and a value that occurs as often is the same value or
    a string that is not smaller. *)
Lemma most_frequent_spec (values : list pyval) (m : pyval) :
  most_frequent values = Return (Some m) →
  m ∈ values ∧
  (∀ y, y ∈ values → (count_of y values ≤ count_of m values)%nat) ∧
  (∀ y, y ∈ values → count_of y values = count_of m values →
        y = m ∨ ∃ a b, m = PyStr a ∧ y = PyStr b ∧ string_le a b).
Proof.
  unfold most_frequent.
  pose proof (elem_of_candidates values) as Hc.
  destruct (remove_dups _) as [|x c] eqn:E; [done|].
  destruct (py_min x c) as [m'|e] eqn:Hm; [|done]. intros [= ->].
  assert (Hin : m ∈ x :: c ∧
                ∀ y, y ∈ x :: c → y = m ∨ ∃ a b, m = PyStr a ∧ y = PyStr b ∧ string_le a b).
  { destruct (decide (PyNone ∈ x :: c)) as [Hnone|Hnone].
    - destruct c as [|z c]; [|by rewrite py_min_None in Hm].
      simpl in Hm. injection Hm as <-. split; [left|].
      intros y ->%list_elem_of_singleton. by left.
    - destruct (py_min_strings c x) as (a & Ha & Hin & Hle).
      { intros y Hy ->. done. }
      rewrite Ha in Hm. injection Hm as <-. split; [done|].
      intros [b|] Hy; [|done]. right. exists a, b. split; [done|]. split; [done|].
      by apply Hle. }
  destruct Hin as [Hin Hties]. apply Hc in Hin as Hmf.
  destruct Hmf as [Hmv Hmax]. split; [done|]. split; [done|].
  intros y Hy Hcount. apply Hties, Hc. split; [done|].
  intros z Hz. rewrite Hcount. by apply Hmax.
Qed.


(** ** Well-formed tables *)

Lemma wf_df_lookup (df : DataFrame) (c : string) (s : Series) :
  wf_df df → lookup_column c (columns df) = Some s → series_len s = index_len df.
Proof.
  intros [_ Hlen] Hs. rewrite Forall_forall in Hlen.
  apply lookup_column_elem in Hs. by apply (Hlen (c, s)).
Qed.

Lemma wf_df_preserved (df df' : DataFrame) :
  wf_df df →
  index_len df' = index_len df →
  column_names df' = column_names df →
  (∀ c s, lookup_column c (columns df) = Some s →
          ∃ s', lookup_column c (columns df') = Some s' ∧ series_len s' = series_len s) →
  wf_df df'.
Proof.
  intros Hwf Hl Hn Hlook. pose proof Hwf as [Hnd _].
  split; [by rewrite Hn|].
  apply Forall_forall. intros [c s'] Hin. simpl.
  assert (Hc : c ∈ column_names df).
  { rewrite <- Hn. apply list_elem_of_fmap. by exists (c, s'). }
  apply lookup_column_is_Some in Hc as [s Hs].
  destruct (Hlook c s Hs) as (s'' & Hs'' & Hlen).
  assert (lookup_column c (columns df') = Some s') as Hs'.
  { apply elem_lookup_column; [|done]. unfold column_names in Hn. by rewrite Hn. }
  assert (s'' = s') as -> by congruence.
  rewrite Hlen, Hl. by eapply wf_df_lookup.
Qed.

Lemma series_cells_length (s : Series) : length (series_cells s) = series_len s.
Proof. destruct s; simpl; by rewrite length_fmap. Qed.

Lemma count_missing_empty (s : Series) : series_len s = 0%nat → count_missing s = 0%nat.
Proof.
  intros H. unfold count_missing. rewrite <- series_cells_length in H.
  by rewrite (nil_length_inv _ H).
Qed.

Lemma isnull_sum_lookup (df : DataFrame) (c : string) :
  isnull_sum df !! c = count_missing <$> lookup_column c (columns df).
Proof.
  unfold isnull_sum. induction (columns df) as [|[n s] cols IH]; simpl.
  - apply lookup_empty.
  - destruct (decide (n = c)) as [->|Hne].
    + by rewrite lookup_insert_eq.
    + by rewrite lookup_insert_ne.
Qed.

(** ** The Imputer as a whole *)

Lemma fill_length {A} (st : A) (cells : list (option A)) :
  length (fill st cells) = length cells.
Proof. unfold fill. by rewrite length_fmap. Qed.

Lemma imputation_of_len (s s' : Series) :
  imputation_of s s' → series_len s' = series_len s.
Proof.
  destruct s; simpl.
  - intros (m & _ & ->). simpl. by rewrite length_fmap, fill_length.
  - intros (m & _ & ->). simpl. by rewrite length_fmap, fill_length, length_fmap.
  - intros (m & _ & ->). simpl. by rewrite length_fmap, fill_length.
  - by intros ->.
Qed.

Lemma elem_of_dtypes (d : dtype) : d ∈ [int64; float64] ↔ d = int64 ∨ d = float64.
Proof. rewrite !elem_of_cons, elem_of_nil. tauto. Qed.

Lemma numeric_values_no_rows (s : Series) :
  series_len s = 0%nat → present (numeric_values s) = [].
Proof.
  destruct s as [c|c|c|c]; simpl; intros H; try done;
    by rewrite (nil_length_inv _ H).
Qed.

Lemma object_values_no_rows (s : Series) :
  series_len s = 0%nat → present (object_values s) = [].
Proof.
  destruct s as [c|c|c|c]; simpl; intros H; try done;
    by rewrite (nil_length_inv _ H).
Qed.

(** The Imputer raises [ValueError] for a numeric column without a present
    value or a text column without a value, [TypeError] for a text column
    whose most frequent values comprise [None] and a string; otherwise it
    returns, every numeric and every text column imputed. *)
Lemma handle_missing_values_run (df : DataFrame) :
  wf_df df →
  ∃ o df',
    handle_missing_values df = (o, df') ∧
    index_len df' = index_len df ∧
    index_nbytes df' = index_nbytes df ∧
    column_names df' = column_names df ∧
    (∀ c s, lookup_column c (columns df) = Some s →
            ∃ s', lookup_column c (columns df') = Some s' ∧ series_len s' = series_len s) ∧
    ((∃ e c s,
        o = Raise e ∧ lookup_column c (columns df) = Some s ∧
        ((e = ValueError ∧ is_numeric s ∧ median (present (numeric_values s)) = NaN) ∨
         (e = ValueError ∧ series_dtype s = object ∧ present (object_values s) = []) ∨
         (e = TypeError ∧ series_dtype s = object ∧
          mixed_tie (present (object_values s))))) ∨
     (o = Return tt ∧
      ∀ c s, lookup_column c (columns df) = Some s →
             ∃ s', lookup_column c (columns df') = Some s' ∧ imputation_of s s')).
Proof.
  intros Hwf. pose proof (proj1 Hwf) as Hnd.
  rewrite handle_missing_values_blocks, bind_run.
  destruct (impute_block_run [int64; float64] numeric_values median_statistic
              Float64Series df Hnd)
    as [(e & Hraise & Hwhy)|(df1 & Hrun1 & Hl1 & Hnb1 & Hn1 & Hlook1)].
  { rewrite Hraise. exists (Raise e), df.
    split; [done|]. split; [done|]. split; [done|]. split; [done|].
    split; [eauto|]. left.
    destruct Hwhy as [(-> & H0 & c & s & Hs & Hd)|[(c & s & Hs & Hd & Hst)|
                      (-> & c & s & Hs & Hd & Hst)]].
    - exists ValueError, c, s. split; [done|]. split; [done|]. left.
      split; [done|]. split; [by apply is_numeric_select|].
      rewrite numeric_values_no_rows; [done|].
      rewrite <- H0. by eapply wf_df_lookup.
    - done.
    - exists ValueError, c, s. split; [done|]. split; [done|]. left.
      split; [done|]. split; [by apply is_numeric_select|].
      unfold median_statistic in Hst. congruence. }
  rewrite Hrun1.
  assert (Hnd1 : NoDup (column_names df1)) by (by rewrite Hn1).
  (* what the numeric block made of each column *)
  assert (Hstep1 : ∀ c s, lookup_column c (columns df) = Some s →
            ∃ s1, lookup_column c (columns df1) = Some s1 ∧
                  series_len s1 = series_len s ∧
                  match s with
                  | ObjectSeries _ | DatetimeSeries _ => s1 = s
                  | _ => imputation_of s s1
                  end).
  { intros c s Hs. specialize (Hlook1 c s Hs).
    destruct (decide (series_dtype s ∈ [int64; float64])) as [Hd|Hd].
    - destruct Hlook1 as (m & Hm & Hl).
      apply is_numeric_select in Hd as Hnum.
      exists (imputed_series numeric_values Float64Series m s).
      split; [done|]. split.
      + unfold imputed_series. simpl.
        by rewrite length_fmap, fill_length, numeric_values_length.
      + unfold median_statistic in Hm. injection Hm as Hm.
        destruct s; simpl in Hd; try (by apply elem_of_dtypes in Hd); simpl; eauto.
    - exists s. split; [done|]. split; [done|].
      destruct s; simpl in Hd; try done; exfalso; apply Hd, elem_of_dtypes; auto. }
  assert (Hwf1 : wf_df df1).
  { apply (wf_df_preserved df); try done.
    intros c s Hs. destruct (Hstep1 c s Hs) as (s1 & ? & ? & _). eauto. }
  (* the text column of the original table a selected column is *)
  assert (Hback : ∀ c s1, lookup_column c (columns df1) = Some s1 →
            series_dtype s1 ∈ [object] →
            lookup_column c (columns df) = Some s1 ∧ series_dtype s1 = object).
  { intros c s1 Hs1 Hd. apply list_elem_of_singleton in Hd.
    assert (Hc : c ∈ column_names df).
    { rewrite <- Hn1. apply lookup_column_is_Some. eauto. }
    apply lookup_column_is_Some in Hc as [s Hs].
    destruct (Hstep1 c s Hs) as (s1' & Hs1' & _ & Himp).
    assert (s1' = s1) as -> by congruence.
    destruct s as [cells|cells|cells|cells]; simpl in Himp.
    - by subst s1.
    - destruct Himp as (? & _ & ->). done.
    - destruct Himp as (? & _ & ->). done.
    - by subst s1. }
  destruct (impute_block_run [object] object_values most_frequent ObjectSeries df1 Hnd1)
    as [(e & Hraise & Hwhy)|(df2 & Hrun2 & Hl2 & Hnb2 & Hn2 & Hlook2)].
  { rewrite Hraise. exists (Raise e), df1.
    split; [done|]. split; [done|]. split; [done|]. split; [done|].
    split. { intros c s Hs. destruct (Hstep1 c s Hs) as (s1 & ? & ? & _). eauto. }
    left.
    destruct Hwhy as [(-> & H0 & c & s & Hs & Hd)|[(c & s & Hs & Hd & Hst)|
                      (-> & c & s & Hs & Hd & Hst)]];
      destruct (Hback c s Hs Hd) as [Hs0 Hobj].
    - exists ValueError, c, s. split; [done|]. split; [done|]. right. left.
      split; [done|]. split; [done|].
      apply object_values_no_rows. rewrite <- H0. by eapply wf_df_lookup.
    - apply most_frequent_Raise in Hst as [-> Hmix].
      exists TypeError, c, s. split; [done|]. split; [done|]. right. right. done.
    - exists ValueError, c, s. split; [done|]. split; [done|]. right. left.
      split; [done|]. split; [done|]. by apply most_frequent_None. }
  rewrite Hrun2. exists (Return tt), df2.
  assert (Hfinal : ∀ c s, lookup_column c (columns df) = Some s →
            ∃ s', lookup_column c (columns df2) = Some s' ∧ imputation_of s s').
  { intros c s Hs. destruct (Hstep1 c s Hs) as (s1 & Hs1 & _ & Himp).
    specialize (Hlook2 c s1 Hs1).
    destruct (decide (series_dtype s1 ∈ [object])) as [Hd|Hd].
    - apply list_elem_of_singleton in Hd.
      destruct Hlook2 as (m & Hm & Hl).
      destruct s as [cells|cells|cells|cells]; simpl in Himp.
      + subst s1. simpl in *. eauto.
      + destruct Himp as (? & _ & ->). done.
      + destruct Himp as (? & _ & ->). done.
      + subst s1. done.
    - exists s1. split; [done|].
      destruct s as [cells|cells|cells|cells]; simpl in Himp; try done.
      subst s1. exfalso. apply Hd. by apply list_elem_of_singleton. }
  split; [done|]. split; [congruence|]. split; [congruence|]. split; [congruence|].
  split; [|right; split; [done|exact Hfinal]].
  intros c s Hs. destruct (Hfinal c s Hs) as (s' & Hs' & Himp).
  exists s'. split; [done|]. by apply imputation_of_len.
Qed.

Lemma check_data_quality_run (df : DataFrame) :
  check_data_quality df =
  (Return {| missing_values := isnull_sum df;
             duplicates := duplicated_sum df;
             total_rows := len df;
             memory_usage :=
               round64 (inject_Z (Z.of_nat (memory_usage_sum df)) / inject_Z (1024 ^ 2)) |},
   df).
Proof. reflexivity. Qed.

(** C8: on a table without rows, whatever its columns, the Quality Auditor
    returns (it does not raise) a report with [total_rows = 0],
    [duplicates = 0] and a missing-value count of 0 under the label of every
    column, and under no other label. *)
Theorem check_data_quality_empty_table (df : DataFrame) :
  wf_df df →
  index_len df = 0%nat →
  ∃ report,
    check_data_quality df = (Return report, df) ∧
    total_rows report = 0%nat ∧
    duplicates report = 0%nat ∧
    (∀ c, c ∈ column_names df → missing_values report !! c = Some 0%nat) ∧
    (∀ c n, missing_values report !! c = Some n → c ∈ column_names df ∧ n = 0%nat).
Proof.
  intros Hwf H0. eexists. split; [apply check_data_quality_run|]. simpl.
  assert (Hcount : ∀ c s, lookup_column c (columns df) = Some s → count_missing s = 0%nat).
  { intros c s Hs. apply count_missing_empty. rewrite <- H0. by eapply wf_df_lookup. }
  split; [done|]. split.
  - unfold duplicated_sum, duplicated, empty_df. by rewrite H0.
  - split.
    + intros c Hc. rewrite isnull_sum_lookup.
      apply lookup_column_is_Some in Hc as [s Hs]. rewrite Hs. simpl.
      f_equal. by eapply Hcount.
    + intros c n. rewrite isnull_sum_lookup.
      destruct (lookup_column c (columns df)) as [s|] eqn:Hs; simpl; [|done].
      intros [= <-]. split; [apply lookup_column_is_Some; eauto | by eapply Hcount].
Qed.

(** C9: the Quality Auditor and the Validator leave the table as they found
    it, whether they return or raise: same index, same columns, same
    cells. *)
Theorem audit_and_validation_do_not_mutate (df : DataFrame) :
  (check_data_quality df).2 = df ∧
  ∀ (original_shape : nat * nat) (cleaning_report : CleaningReport),
    (validate_cleaning original_shape cleaning_report df).2 = df.
Proof.
  split; [done|]. intros [n0 m0] report.
  unfold validate_cleaning. rewrite !bind_run, !reads_run, !bind_run, !reads_run.
  rewrite bind_run. unfold lift. by destruct (true_div _ _).
Qed.

(** ** Rows and columns through the stages *)

Lemma same_frame_refl (df : DataFrame) : wf_df df → same_frame df df.
Proof. intros Hwf. unfold same_frame. auto. Qed.

Lemma same_frame_trans (df1 df2 df3 : DataFrame) :
  same_frame df1 df2 → same_frame df2 df3 → same_frame df1 df3.
Proof.
  intros (? & ? & ? & _) (? & ? & ? & Hwf). split; [congruence|].
  split; [congruence|]. split; [congruence|done].
Qed.

Lemma handle_missing_values_frame (df : DataFrame) :
  wf_df df → same_frame df (handle_missing_values df).2.
Proof.
  intros Hwf. destruct (handle_missing_values_run df Hwf)
    as (o & df' & Hrun & Hl & Hnb & Hn & Hlen & _).
  rewrite Hrun. simpl. split; [done|]. split; [done|]. split; [done|].
  by apply (wf_df_preserved df).
Qed.

Lemma remove_outliers_frame (df : DataFrame) :
  wf_df df → same_frame df (remove_outliers df).2.
Proof.
  intros Hwf. destruct (remove_outliers_run df (proj1 Hwf))
    as (df' & Hrun & Hl & Hnb & Hn & Hlook).
  rewrite Hrun. simpl. split; [done|]. split; [done|]. split; [done|].
  apply (wf_df_preserved df); try done.
  intros c s Hs. eexists. split; [by apply Hlook|].
  destruct (decide (is_numeric s)); [|done]. by apply clip_len.
Qed.

Section PipelineFacts.

Variable parse_datetime : string → string → option Z.
Variable parse_numeric : string → option number.

Lemma standardize_datatypes_frame (df : DataFrame) :
  wf_df df → same_frame df (standardize_datatypes parse_datetime parse_numeric df).2.
Proof.
  intros Hwf.
  destruct (standardize_datatypes_run parse_datetime parse_numeric df (proj1 Hwf))
    as (df' & Hrun & Hl & Hnb & Hn & Hlook).
  rewrite Hrun. simpl. split; [done|]. split; [done|]. split; [done|].
  apply (wf_df_preserved df); try done.
  intros c s Hs. rewrite Hlook, Hs. simpl. eexists. split; [done|].
  apply standardize_series_len.
Qed.

(** The orchestrator, stage by stage: the Normalizer returns; when the
    Imputer raises, the pipeline raises the same exception; otherwise the
    Capper returns and the Validator decides the outcome. *)
Lemma automated_cleaning_pipeline_run (df : DataFrame) :
  wf_df df →
  ∃ df1 o df2,
    standardize_datatypes parse_datetime parse_numeric df = (Return tt, df1) ∧
    same_frame df df1 ∧
    handle_missing_values df1 = (o, df2) ∧
    same_frame df df2 ∧
    match o with
    | Raise e => automated_cleaning_pipeline parse_datetime parse_numeric df = (Raise e, df2)
    | Return _ =>
        ∃ outliers df3,
          remove_outliers df2 = (Return outliers, df3) ∧
          same_frame df df3 ∧
          automated_cleaning_pipeline parse_datetime parse_numeric df =
          match true_div (len df3) (index_len df) with
          | Return ratio =>
              (Return
                 {| initial_quality := Some (
                      {| missing_values := isnull_sum df;
                         duplicates := duplicated_sum df;
                         total_rows := len df;
                         memory_usage :=
                           round64 (inject_Z (Z.of_nat (memory_usage_sum df)) /
                                    inject_Z (1024 ^ 2)) |});
                    outliers_removed := Some outliers;
                    validation := Some (
                      {| rows_remaining := len df3;
                         missing_values_remaining := isnull_sum_sum df3;
                         duplicates_remaining := duplicated_sum df3;
                         data_loss_percentage := round64 (round64 (1 - ratio) * 100) |}) |},
               df3)
          | Raise e => (Raise e, df3)
          end
    end.
Proof.
  intros Hwf.
  pose proof (standardize_datatypes_frame df Hwf) as Hf1.
  destruct (standardize_datatypes_run parse_datetime parse_numeric df (proj1 Hwf))
    as (df1 & Hrun1 & _).
  rewrite Hrun1 in Hf1. simpl in Hf1.
  pose proof Hf1 as (_ & _ & _ & Hwf1).
  pose proof (handle_missing_values_frame df1 Hwf1) as Hf2.
  destruct (handle_missing_values df1) as [o df2] eqn:Hrun2. simpl in Hf2.
  pose proof Hf2 as (_ & _ & _ & Hwf2).
  exists df1, o, df2. split; [done|]. split; [done|]. split; [done|].
  split; [by eapply same_frame_trans|].
  unfold automated_cleaning_pipeline.
  rewrite bind_run, reads_run, bind_run, check_data_quality_run.
  rewrite bind_run, Hrun1, bind_run, Hrun2.
  destruct o as [[]|e]; [|done].
  pose proof (remove_outliers_frame df2 Hwf2) as Hf3.
  destruct (remove_outliers_run df2 (proj1 Hwf2)) as (df3 & Hrun3 & _).
  rewrite Hrun3 in Hf3. simpl in Hf3.
  eexists _, df3. split; [done|].
  split; [eapply same_frame_trans; [|done]; by eapply same_frame_trans|].
  rewrite bind_run, Hrun3.
  unfold validate_cleaning.
  rewrite !bind_run, !reads_run, !bind_run, !reads_run, bind_run. unfold lift. simpl.
  by destruct (true_div _ _).
Qed.

(** C7: none of the three rewriting stages changes the number of rows or
    the columns: after the Type Normalizer, after the Imputer and after
    the Outlier Capper (returning or raising) the table has the index it
    had, the same labels in the same order, and every column still holds
    one cell per row; so has the table the pipeline leaves. *)
Theorem stages_preserve_rows_and_columns (df : DataFrame) :
  wf_df df →
  same_frame df (standardize_datatypes parse_datetime parse_numeric df).2 ∧
  same_frame df (handle_missing_values df).2 ∧
  same_frame df (remove_outliers df).2 ∧
  same_frame df (automated_cleaning_pipeline parse_datetime parse_numeric df).2.
Proof.
  intros Hwf. split; [by apply standardize_datatypes_frame|].
  split; [by apply handle_missing_values_frame|].
  split; [by apply remove_outliers_frame|].
  destruct (automated_cleaning_pipeline_run df Hwf)
    as (df1 & o & df2 & _ & _ & _ & Hf2 & Hpipe).
  destruct o as [[]|e]; [|by rewrite Hpipe].
  destruct Hpipe as (outliers & df3 & _ & Hf3 & ->).
  by destruct (true_div _ _).
Qed.

End PipelineFacts.


(** ** What the pipeline reports *)

Lemma true_div_same (n : nat) : (0 < n)%nat → true_div n n = Return 1.
Proof.
  intros Hn. unfold true_div. destruct (Nat.eqb_spec n 0); [lia|].
  f_equal. rewrite (round64_wd _ 1); [by vm_compute|].
  apply Qmult_inv_r. change 0 with (inject_Z 0). rewrite inject_Z_injective. lia.
Qed.

Lemma true_div_zero (a : nat) : true_div a 0 = Raise ZeroDivisionError.
Proof. reflexivity. Qed.

Section PipelineResults.

Variable parse_datetime : string → string → option Z.
Variable parse_numeric : string → option number.

(** C1, as amended: whenever the orchestrator returns a Cleaning Report,
    the table had at least one row, the table it leaves has as many rows,
    and the validation block of the report holds that number as
    [rows_remaining] and [data_loss_percentage] exactly 0. *)
Theorem pipeline_data_loss_zero (df df' : DataFrame) (report : CleaningReport) :
  wf_df df →
  automated_cleaning_pipeline parse_datetime parse_numeric df = (Return report, df') →
  (0 < index_len df)%nat ∧
  index_len df' = index_len df ∧
  ∃ v, validation report = Some v ∧
       rows_remaining v = index_len df ∧
       data_loss_percentage v = 0.
Proof.
  intros Hwf Hret.
  destruct (automated_cleaning_pipeline_run parse_datetime parse_numeric df Hwf)
    as (df1 & o & df2 & Hrun1 & Hf1 & Hrun2 & Hf2 & Hpipe).
  destruct o as [[]|e]; [|congruence].
  destruct Hpipe as (outliers & df3 & _ & (Hl3 & _) & Hpipe).
  rewrite Hpipe in Hret. unfold len in Hret. rewrite Hl3 in Hret.
  destruct (index_len df) as [|n] eqn:Hn; [by rewrite true_div_zero in Hret|].
  rewrite (true_div_same (S n)) in Hret by lia.
  injection Hret as <- <-. split; [lia|]. split; [done|].
  eexists. split; [done|]. simpl. split; reflexivity.
Qed.

End PipelineResults.

(** ** What the Imputer writes *)

Lemma handle_missing_values_Return (df df' : DataFrame) :
  wf_df df →
  handle_missing_values df = (Return tt, df') →
  ∀ c s, lookup_column c (columns df) = Some s →
         ∃ s', lookup_column c (columns df') = Some s' ∧ imputation_of s s'.
Proof.
  intros Hwf Hret.
  destruct (handle_missing_values_run df Hwf)
    as (o & df'' & Hrun & _ & _ & _ & _ & [(e & c & s & -> & _)|[-> Himp]]); [congruence|].
  assert (df'' = df') as -> by congruence. exact Himp.
Qed.

(** The numeric block raises before anything is written when a numeric
    column has no present value. *)
Lemma handle_missing_values_unobserved (df : DataFrame) (c : string) (s : Series) :
  wf_df df →
  lookup_column c (columns df) = Some s →
  is_numeric s →
  present (numeric_values s) = [] →
  handle_missing_values df = (Raise ValueError, df).
Proof.
  intros Hwf Hs Hn Hnil. rewrite handle_missing_values_blocks, bind_run.
  destruct (impute_block_run [int64; float64] numeric_values median_statistic
              Float64Series df (proj1 Hwf))
    as [(e & Hraise & Hwhy)|(df1 & Hrun1 & _ & _ & _ & Hlook1)].
  - rewrite Hraise.
    destruct Hwhy as [(-> & _)|[(c' & s' & _ & _ & Hst)|(-> & _)]]; done.
  - specialize (Hlook1 c s Hs). rewrite decide_True in Hlook1 by (by apply is_numeric_select).
    destruct Hlook1 as (st & Hst & _). by rewrite Hnil in Hst.
Qed.

Lemma fill_present {A} (st : A) (cells : list (option A)) :
  Forall is_Some cells → Some <$> fill st cells = cells.
Proof.
  unfold fill. induction 1 as [|x cells [y ->] _ IH]; csimpl; [done|].
  f_equal. exact IH.
Qed.

Lemma count_missing_filled_float (cells : list Q) :
  count_missing (Float64Series (Some <$> cells)) = 0%nat.
Proof.
  unfold count_missing. simpl. induction cells as [|x cells IH]; simpl; [done|].
  rewrite filter_cons_False by done. exact IH.
Qed.

Lemma count_missing_zero_numeric (s : Series) :
  is_numeric s → count_missing s = 0%nat → Forall is_Some (numeric_values s).
Proof.
  intros [Hn|Hn]; destruct s as [|c|c|]; simpl in *; try done.
  - intros _. induction c; constructor; eauto.
  - unfold count_missing. simpl. intros H%nil_length_inv.
    apply Forall_forall. intros [x|] Hx; [eauto|].
    exfalso. eapply (filter_nil_not_elem_of _ _ None H); [done|].
    apply list_elem_of_fmap. by exists None.
Qed.

Lemma elem_of_present {A} (x : A) (cells : list (option A)) :
  x ∈ present cells ↔ Some x ∈ cells.
Proof.
  unfold present. rewrite list_elem_of_omap. split.
  - intros (y & Hy & Hx). simpl in Hx. by subst y.
  - intros H. by exists (Some x).
Qed.

(** A text column is free of missing cells once its NaN cells are filled
    with a string, provided it holds no [None]. *)
Lemma count_missing_filled_object (m : pyval) (cells : list (option pyval)) :
  m ≠ PyNone → Some PyNone ∉ cells →
  count_missing (ObjectSeries (Some <$> fill m cells)) = 0%nat.
Proof.
  intros Hm Hnone. unfold count_missing. simpl.
  apply length_zero_iff_nil, filter_none, Forall_forall.
  intros x Hin Hx. subst x.
  apply list_elem_of_fmap in Hin as (y & Hy & Hin).
  apply list_elem_of_fmap in Hin as (z & -> & Hin).
  unfold fill in Hin. apply list_elem_of_fmap in Hin as (w & -> & Hin).
  destruct w as [[a|]|]; simpl in Hy; try done.
  destruct m; done.
Qed.



(** C3, as amended: when the Imputer returns, no cell of a numeric column is
    missing any more; in a text column no NaN is left, a cell that held
    [None] still holds it and so is still missing, and no cell at all is
    missing when the column held no [None]; a temporal column is returned
    as it was, missing cells included. *)
Theorem imputer_leaves_no_missing_numeric_or_text (df df' : DataFrame) :
  wf_df df →
  handle_missing_values df = (Return tt, df') →
  ∀ c s, lookup_column c (columns df) = Some s →
    ∃ s', lookup_column c (columns df') = Some s' ∧
      match s with
      | ObjectSeries cells =>
          ∃ cells', s' = ObjectSeries cells' ∧
            (None ∉ cells') ∧
            (∀ i, cells !! i = Some (Some PyNone) → cells' !! i = Some (Some PyNone)) ∧
            (Some PyNone ∉ cells → count_missing s' = 0%nat)
      | DatetimeSeries _ => s' = s
      | _ => count_missing s' = 0%nat
      end.
Proof.
  intros Hwf Hret c s Hs.
  destruct (handle_missing_values_Return df df' Hwf Hret c s Hs) as (s' & Hs' & Himp).
  exists s'. split; [done|].
  destruct s as [cells|cells|cells|cells]; simpl in Himp.
  - destruct Himp as (m & Hm & ->). eexists. split; [done|].
    split; [|split].
    + intros (x & [=] & _)%list_elem_of_fmap.
    + intros i Hi. unfold fill. by rewrite !list_lookup_fmap, Hi.
    + intros Hnone. apply count_missing_filled_object; [|done].
      apply most_frequent_spec in Hm as [Hin _]. apply elem_of_present in Hin.
      intros ->. done.
  - destruct Himp as (m & Hm & ->). apply count_missing_filled_float.
  - destruct Himp as (m & Hm & ->). apply count_missing_filled_float.
  - done.
Qed.

(** C10, as amended: when the Imputer returns, every numeric column,
    [int64] or [float64], is a [float64] column afterwards, also when it had
    no missing cell: an [int64] cell [z] becomes the float64 nearest to
    [z], which is [z] itself up to 2^53 in absolute value, and a [float64]
    column without missing cells keeps its cells. When a numeric column has
    no present value the Imputer raises [ValueError] and the table is as it
    was, [int64] columns included. *)
Theorem imputer_rewrites_numeric_columns_as_float (df : DataFrame) :
  wf_df df →
  (∀ df', handle_missing_values df = (Return tt, df') →
     ∀ c s, lookup_column c (columns df) = Some s →
       is_numeric s →
       ∃ s', lookup_column c (columns df') = Some s' ∧
             series_dtype s' = float64 ∧
             match s with
             | Int64Series zs =>
                 numeric_values s' = (λ z, Some (round64 (inject_Z z))) <$> zs ∧
                 (Forall (λ z, (Z.abs z ≤ 2 ^ 53)%Z) zs →
                  numeric_values s' = (λ z, Some (inject_Z z)) <$> zs)
             | _ => count_missing s = 0%nat → s' = s
             end) ∧
  ((∃ c s, lookup_column c (columns df) = Some s ∧ is_numeric s ∧
           present (numeric_values s) = []) →
   handle_missing_values df = (Raise ValueError, df)).
Proof.
  intros Hwf. split.
  - intros df' Hret c s Hs Hn.
    destruct (handle_missing_values_Return df df' Hwf Hret c s Hs) as (s' & Hs' & Himp).
    exists s'. split; [done|].
    destruct Hn as [Hn|Hn]; destruct s as [|zs|cells|]; simpl in *; try done;
      destruct Himp as (m & _ & ->); (split; [done|]).
    + assert (Hcells : Some <$> fill m (Z_to_float <$> zs) =
                       (λ z, Some (round64 (inject_Z z))) <$> zs).
      { unfold fill. rewrite <- !list_fmap_compose. done. }
      simpl. split; [done|]. intros Hsmall. rewrite Hcells.
      apply Forall_fmap_ext_1.
      eapply Forall_impl; [done|]. intros z Hz. simpl.
      by rewrite round64_Z_small.
    + intros H0. f_equal. apply fill_present.
      by apply (count_missing_zero_numeric (Float64Series cells)); [right|].
  - intros (c & s & Hs & Hn & Hnil). by eapply handle_missing_values_unobserved.
Qed.

(** ** What the Outlier Capper writes *)

(** Clipping between two bounds in order: a missing cell stays missing and
    a present cell ends between the bounds. *)
Lemma clipped_cells (s : Series) (lb ub : Q) :
  is_numeric s →
  binary64 lb → binary64 ub →
  lb <= ub →
  Forall2 (λ x y, if isna x then y = NaN else ∃ w, y = Some w ∧ lb <= w ∧ w <= ub)
          (numeric_values s) (numeric_values (clip s (Some lb) (Some ub))).
Proof.
  intros Hn Hlb Hub Hle.
  apply Forall2_same_length_lookup_2.
  { by rewrite !numeric_values_length, clip_len by auto using clip_numeric. }
  intros i x y Hx Hy.
  rewrite (clip_lookup s lb ub i x Hn Hlb Hub Hle Hx) in Hy. injection Hy as <-.
  destruct x as [v|]; simpl; [|done].
  destruct (Qle_bool v ub) eqn:E1.
  - apply Qle_bool_iff in E1. destruct (Qle_bool lb v) eqn:E2.
    + apply Qle_bool_iff in E2. by exists v.
    + exists lb. repeat split; try done; lra.
  - exists ub. repeat split; try done; lra.
Qed.

Lemma capped_cells (s : Series) :
  is_numeric s →
  Forall2 (λ x y, if isna x then y = NaN
                  else within_range (lower_bound s) (upper_bound s) y)
          (numeric_values s) (numeric_values (capped s)).
Proof.
  intros Hn. unfold capped.
  destruct (bounds_cases s)
    as [(_ & _ & -> & -> & Hnil)|
        (q1 & q3 & lb & ub & _ & _ & -> & -> & Hlb & Hub & _)].
  - rewrite clip_NaN. apply present_nil_isna in Hnil.
    induction Hnil as [|x l -> _ IH]; constructor; done.
  - pose proof (Q.le_min_l lb ub). pose proof (Q.le_min_r lb ub).
    pose proof (Q.le_max_l lb ub). pose proof (Q.le_max_r lb ub).
    destruct (Qlt_le_dec ub lb) as [Hlt|Hle].
    + rewrite clip_swap by done.
      eapply Forall2_impl; [apply (clipped_cells s ub lb); try done; lra|].
      intros x y Hxy. simpl in Hxy. destruct (isna x); [done|].
      destruct Hxy as (w & -> & ? & ?). exists lb, ub, w. repeat split; try done; lra.
    + eapply Forall2_impl; [by apply (clipped_cells s lb ub)|].
      intros x y Hxy. simpl in Hxy. destruct (isna x); [done|].
      destruct Hxy as (w & -> & ? & ?). exists lb, ub, w. repeat split; try done; lra.
Qed.





(** C6: on the column [1, 2, 3, 4, 100] the Outlier Capper computes
    [Q1 = 2], [Q3 = 4], [IQR = 2] and the bounds [-1] and [7], returns the
    column [1, 2, 3, 4, 7] and records one outlier under the column's label,
    and nothing else; the same holds when the column is given as [int64]. *)
Theorem outlier_capper_on_1_2_3_4_100 :
  let s := Float64Series [Some 1; Some 2; Some 3; Some 4; Some 100] in
  let df := {| index_len := 5; index_nbytes := 132; columns := [("value", s)] |} in
  let si := Int64Series [1; 2; 3; 4; 100]%Z in
  let dfi := {| index_len := 5; index_nbytes := 132; columns := [("value", si)] |} in
  quantile s (1 # 4) = Some 2 ∧
  quantile s (3 # 4) = Some 4 ∧
  fsub (quantile s (3 # 4)) (quantile s (1 # 4)) = Some 2 ∧
  lower_bound s = Some (-1) ∧
  upper_bound s = Some 7 ∧
  count_outside s (lower_bound s) (upper_bound s) = 1%nat ∧
  remove_outliers df =
  (Return {["value" := 1%nat]},
   {| index_len := 5; index_nbytes := 132;
      columns := [("value", Float64Series [Some 1; Some 2; Some 3; Some 4; Some 7])] |}) ∧
  remove_outliers dfi =
  (Return {["value" := 1%nat]},
   {| index_len := 5; index_nbytes := 132;
      columns := [("value", Int64Series [1; 2; 3; 4; 7]%Z)] |}).
Proof. repeat split; vm_compute; reflexivity. Qed.


(** ** What the Type Normalizer writes *)

Section TypeNormalizer.

Variable parse_datetime : string → string → option Z.
Variable parse_numeric : string → option number.

Lemma standardize_single_column (c : string) (s : Series) (n b : nat) :
  standardize_datatypes parse_datetime parse_numeric
    {| index_len := n; index_nbytes := b; columns := [(c, s)] |} =
  (Return tt,
   {| index_len := n; index_nbytes := b;
      columns := [(c, standardize_series parse_datetime parse_numeric s)] |}).
Proof.
  unfold standardize_datatypes. rewrite bind_run, reads_run.
  unfold for_each, column_names. simpl. rewrite bind_run.
  rewrite (standardize_column_run _ _ tt c _ s) by (simpl; by rewrite decide_True).
  simpl. unfold with_columns. simpl. by rewrite decide_True.
Qed.

(** [pd.to_datetime] returns exactly when every string of the column is a
    missing timestamp or is read in the format of the first present cell. *)
Lemma to_datetime_Return (cells : list (option pyval)) :
  (∃ d, to_datetime parse_datetime cells = Return d) ↔
  all_read (λ x, null_string x = true)
           (λ x, ∃ f, first_present cells = Some f ∧ is_Some (parse_datetime f x)) cells.
Proof.
  unfold to_datetime, all_read.
  set (first := first_present cells).
  pose proof (parse_all_Return (read_datetime parse_datetime first) None cells) as HR.
  assert (Hread : ∀ x, is_Some (read_datetime parse_datetime first x) ↔
                       null_string x = true ∨
                       ∃ f, first = Some f ∧ is_Some (parse_datetime f x)).
  { intros x. unfold read_datetime. destruct (null_string x).
    - split; [by left | by eauto].
    - destruct first as [f|].
      + rewrite fmap_is_Some. split; [right; eauto|].
        intros [?|(f' & [= <-] & ?)]; done.
      + split; [by intros [? ?]|]. intros [?|(f' & ? & _)]; done. }
  split.
  - intros [d Hd] x Hx. apply Hread, HR; [|done].
    destruct (parse_all _ _ cells); [eauto|done].
  - intros H. destruct (proj2 HR) as [r ->]; [|eauto].
    intros x Hx. apply Hread. by apply H.
Qed.

(** [pd.to_numeric] returns exactly when every string of the column is
    empty or is read as a number. *)
Lemma to_numeric_Return (cells : list (option pyval)) :
  (∃ n, to_numeric parse_numeric cells = Return n) ↔
  all_read (λ x, x = "") (λ x, is_Some (parse_numeric x)) cells.
Proof.
  unfold to_numeric, all_read.
  pose proof (parse_all_Return (read_numeric parse_numeric) (NumFloat NaN) cells) as HR.
  assert (Hread : ∀ x, is_Some (read_numeric parse_numeric x) ↔
                       x = "" ∨ is_Some (parse_numeric x)).
  { intros x. unfold read_numeric. destruct (decide (x = "")) as [->|Hx].
    - split; [by left | by eauto].
    - split; [by right|]. intros [?|?]; done. }
  split.
  - intros [d Hd] x Hx. apply Hread, HR; [|done].
    destruct (parse_all _ _ cells); [eauto|done].
  - intros H. destruct (proj2 HR) as [r ->]; [|eauto].
    intros x Hx. apply Hread. by apply H.
Qed.

(** C4, as amended: a text column becomes temporal exactly when every
    string in it is taken for a missing timestamp (the empty string and the
    NaT markers) or is read as a date in the format of the first present
    cell of the column; it becomes numeric exactly when that fails and
    every string, stripped of ['$'] and [','], is empty or is read as a
    number; it is left as it was when both fail. So one string outside the
    format keeps the whole column from that conversion, an empty string or
    a missing cell does not; columns of the other types are untouched. With
    recognisers that reject ["$1,200"] as a date and read ["1200"],
    ["350"], ["40"] as integers, the column ["$1,200", "$350", "$40"]
    becomes the integer column [1200, 350, 40]; with ["abc"] not a number,
    ["$1,200", "abc", "$40"] is left unchanged. *)
Theorem type_normalizer_all_or_nothing :
  (∀ df c s,
     wf_df df →
     lookup_column c (columns df) = Some s →
     ∃ df' s',
       standardize_datatypes parse_datetime parse_numeric df = (Return tt, df') ∧
       lookup_column c (columns df') = Some s' ∧
       match s with
       | ObjectSeries cells =>
           let dates :=
             all_read (λ x, null_string x = true)
                      (λ x, ∃ f, first_present cells = Some f ∧
                                 is_Some (parse_datetime f x)) cells in
           let numbers :=
             all_read (λ x, x = "") (λ x, is_Some (parse_numeric x))
                      (strip_currency cells) in
           (series_dtype s' = datetime64 ↔ dates) ∧
           (is_numeric s' ↔ ¬ dates ∧ numbers) ∧
           (s' = s ↔ ¬ dates ∧ ¬ numbers)
       | _ => s' = s
       end) ∧
  (parse_datetime "$1,200" "$1,200" = None →
   parse_numeric "1200" = Some (NumInt 1200) →
   parse_numeric "350" = Some (NumInt 350) →
   parse_numeric "40" = Some (NumInt 40) →
   standardize_datatypes parse_datetime parse_numeric
     (price_table [Some (PyStr "$1,200"); Some (PyStr "$350"); Some (PyStr "$40")]) =
   (Return tt,
    {| index_len := 3; index_nbytes := 132;
       columns := [("price", Int64Series [1200; 350; 40]%Z)] |})) ∧
  (parse_datetime "$1,200" "$1,200" = None →
   parse_numeric "abc" = None →
   standardize_datatypes parse_datetime parse_numeric
     (price_table [Some (PyStr "$1,200"); Some (PyStr "abc"); Some (PyStr "$40")]) =
   (Return tt,
    price_table [Some (PyStr "$1,200"); Some (PyStr "abc"); Some (PyStr "$40")])).
Proof.
  split; [|split].
  - intros df c s [Hnd _] Hs.
    destruct (standardize_datatypes_run parse_datetime parse_numeric df Hnd)
      as (df' & Hrun & _ & _ & _ & Hlook).
    exists df', (standardize_series parse_datetime parse_numeric s).
    split; [done|]. split; [by rewrite Hlook, Hs|].
    destruct s as [cells| | |]; simpl; try done.
    pose proof (to_datetime_Return cells) as Hdates.
    pose proof (to_numeric_Return (strip_currency cells)) as Hnumbers.
    destruct (to_datetime parse_datetime cells) as [d|e] eqn:Hd.
    + assert (series_dtype d = datetime64) as Hdt.
      { unfold to_datetime in Hd. destruct (parse_all _ _ cells); [|done].
        by injection Hd as <-. }
      assert (Hall : all_read (λ x, null_string x = true)
                (λ x, ∃ f, first_present cells = Some f ∧ is_Some (parse_datetime f x))
                cells) by (apply Hdates; eauto).
      split; [done|]. split.
      * split; [intros [?|?]; congruence | intros [? _]; done].
      * split; [intros ->; done | intros [? _]; done].
    + assert (Hno : ¬ all_read (λ x, null_string x = true)
                (λ x, ∃ f, first_present cells = Some f ∧ is_Some (parse_datetime f x))
                cells) by (intros [? [=]]%Hdates).
      destruct (to_numeric parse_numeric (strip_currency cells)) as [n|e'] eqn:Hn.
      * assert (is_numeric n) as Hdt.
        { unfold to_numeric in Hn. destruct (parse_all _ _ (strip_currency cells)); [|done].
          injection Hn as <-. apply numeric_series_dtype. }
        assert (Hall : all_read (λ x, x = "") (λ x, is_Some (parse_numeric x))
                  (strip_currency cells)) by (apply Hnumbers; eauto).
        split; [|split].
        -- split; [intros H; destruct Hdt; congruence | done].
        -- split; [done | intros _; exact Hdt].
        -- split; [|intros [_ ?]; done].
           intros H. rewrite H in Hdt. destruct Hdt; done.
      * assert (Hnon : ¬ all_read (λ x, x = "") (λ x, is_Some (parse_numeric x))
                  (strip_currency cells)) by (intros [? [=]]%Hnumbers).
        split; [done|]. split; [|done].
        split; [intros [?|?]; done | intros [_ ?]; done].
  - intros Hd H1 H2 H3. unfold price_table. rewrite standardize_single_column.
    unfold standardize_series, to_datetime, to_numeric.
    change (strip_currency [Some (PyStr "$1,200"); Some (PyStr "$350"); Some (PyStr "$40")])
      with [Some (PyStr "1200"); Some (PyStr "350"); Some (PyStr "40")].
    simpl. unfold read_datetime, read_numeric. simpl. rewrite Hd. simpl.
    rewrite H1, H2, H3. reflexivity.
  - intros Hd Hn. unfold price_table. rewrite standardize_single_column.
    unfold standardize_series, to_datetime, to_numeric.
    change (strip_currency [Some (PyStr "$1,200"); Some (PyStr "abc"); Some (PyStr "$40")])
      with [Some (PyStr "1200"); Some (PyStr "abc"); Some (PyStr "40")].
    simpl. unfold read_datetime, read_numeric. simpl. rewrite Hd. simpl.
    rewrite Hn. by destruct (parse_numeric "1200").
Qed.

End TypeNormalizer.

(** * Counterexamples and witnesses *)

(** ** The statements the code does not meet *)

(** Counterexample to C1 as stated: [unobserved_table] has a row, its one
    numeric column has no present value, the Imputer raises [ValueError]
    and the orchestrator returns no report. *)
Lemma pipeline_unobserved_counterexample : ¬ pipeline_data_loss_claim unobserved_table.
Proof.
  intros H. destruct H as (report & df' & v & Hrun & _); [simpl; lia|].
  vm_compute in Hrun. discriminate Hrun.
Qed.


(** Counterexample to C3 as stated: the temporal column of [temporal_table]
    has a present cell, the Imputer returns, and the column still has its
    missing cell. *)
Lemma imputer_temporal_counterexample : ¬ imputer_no_missing_claim temporal_table.
Proof.
  intros H.
  destruct (H (handle_missing_values temporal_table).2 eq_refl "when" _ eq_refl)
    as (s' & Hs' & H0).
  - left. eauto.
  - vm_compute in Hs'. injection Hs' as <-. vm_compute in H0. discriminate H0.
Qed.

(** Counterexample to C4 as stated: the empty string in
    ["$1,200", "", "$40"] is a present value that is not a number, yet the
    column is converted, to the [float64] column [1200, NaN, 40]. *)
Lemma normalizer_empty_string_counterexample :
  ¬ normalizer_all_or_nothing_claim
      [Some (PyStr "$1,200"); Some (PyStr ""); Some (PyStr "$40")].
Proof.
  intros H. unfold normalizer_all_or_nothing_claim in H.
  assert (Hconv : standardize_series no_datetime parse_decimal
            (ObjectSeries [Some (PyStr "$1,200"); Some (PyStr ""); Some (PyStr "$40")]) =
          Float64Series [Some 1200; NaN; Some 40]) by (vm_compute; reflexivity).
  rewrite Hconv in H. discriminate H.
  exists "". split; [|reflexivity]. right. left.
Qed.


(** Counterexample to C10 as stated: [refused_table] has an [int64] column,
    the Imputer raises on the other numeric column, which has no present
    value, and the [int64] column is still [int64]. *)
Lemma imputer_refusal_counterexample : ¬ imputer_int_to_float_claim refused_table.
Proof.
  intros H.
  destruct (H ltac:(by exists "units", (Int64Series [3; 1]%Z)) "units" _ eq_refl)
    as (s' & Hs' & Hd); [by left|].
  vm_compute in Hs'. injection Hs' as <-. discriminate Hd.
Qed.

(** ** The theorems at concrete tables *)

(** C1 at [scenario_table], with the sample recognisers. *)
Lemma pipeline_data_loss_zero_witness :
  wf_df scenario_table ∧
  (0 < index_len scenario_table)%nat ∧
  index_len (automated_cleaning_pipeline no_datetime parse_decimal scenario_table).2 =
  index_len scenario_table ∧
  ∃ v, validation
         (returned (automated_cleaning_pipeline no_datetime parse_decimal scenario_table)
                   empty_report) = Some v ∧
       rows_remaining v = index_len scenario_table ∧
       data_loss_percentage v = 0.
Proof.
  split; [concrete_wf|].
  apply (pipeline_data_loss_zero no_datetime parse_decimal scenario_table _ _
           ltac:(concrete_wf)).
  vm_compute. reflexivity.
Defined.


(** C3 at [marked_table]: the cell that holds [None] still holds it. *)
Lemma imputer_leaves_no_missing_witness :
  wf_df marked_table ∧
  ∃ s', lookup_column "city" (columns (handle_missing_values marked_table).2) = Some s' ∧
    ∃ cells', s' = ObjectSeries cells' ∧
      (None ∉ cells') ∧
      (∀ i, [Some (PyStr "x"); Some (PyStr "y"); Some PyNone; Some (PyStr "y")] !! i =
            Some (Some PyNone) →
            cells' !! i = Some (Some PyNone)) ∧
      (Some PyNone ∉ [Some (PyStr "x"); Some (PyStr "y"); Some PyNone; Some (PyStr "y")] →
       count_missing s' = 0%nat).
Proof.
  split; [concrete_wf|].
  apply (imputer_leaves_no_missing_numeric_or_text marked_table
           (handle_missing_values marked_table).2
           ltac:(concrete_wf) ltac:(vm_compute; reflexivity) "city" _ eq_refl).
Defined.

(** C4 with the sample recognisers: the two price columns. *)
Lemma type_normalizer_witness :
  no_datetime "$1,200" "$1,200" = None ∧
  parse_decimal "1200" = Some (NumInt 1200) ∧
  parse_decimal "abc" = None ∧
  standardize_datatypes no_datetime parse_decimal
    (price_table [Some (PyStr "$1,200"); Some (PyStr "$350"); Some (PyStr "$40")]) =
  (Return tt,
   {| index_len := 3; index_nbytes := 132;
      columns := [("price", Int64Series [1200; 350; 40]%Z)] |}) ∧
  standardize_datatypes no_datetime parse_decimal
    (price_table [Some (PyStr "$1,200"); Some (PyStr "abc"); Some (PyStr "$40")]) =
  (Return tt, price_table [Some (PyStr "$1,200"); Some (PyStr "abc"); Some (PyStr "$40")]).
Proof.
  split; [reflexivity|]. split; [reflexivity|]. split; [reflexivity|].
  destruct (type_normalizer_all_or_nothing no_datetime parse_decimal) as (_ & H2 & H3).
  split; [apply H2; reflexivity | apply H3; reflexivity].
Defined.


(** C7 at [scenario_table], with the sample recognisers. *)
Lemma stages_preserve_witness :
  wf_df scenario_table ∧
  same_frame scenario_table
    (standardize_datatypes no_datetime parse_decimal scenario_table).2 ∧
  same_frame scenario_table (handle_missing_values scenario_table).2 ∧
  same_frame scenario_table (remove_outliers scenario_table).2 ∧
  same_frame scenario_table
    (automated_cleaning_pipeline no_datetime parse_decimal scenario_table).2.
Proof.
  split; [concrete_wf|].
  apply (stages_preserve_rows_and_columns no_datetime parse_decimal scenario_table);
    concrete_wf.
Defined.

(** C8 at [empty_table]. *)
Lemma check_data_quality_empty_witness :
  wf_df empty_table ∧ index_len empty_table = 0%nat ∧
  ∃ report,
    check_data_quality empty_table = (Return report, empty_table) ∧
    total_rows report = 0%nat ∧
    duplicates report = 0%nat ∧
    (∀ c, c ∈ column_names empty_table → missing_values report !! c = Some 0%nat) ∧
    (∀ c n, missing_values report !! c = Some n →
            c ∈ column_names empty_table ∧ n = 0%nat).
Proof.
  split; [concrete_wf|]. split; [reflexivity|].
  apply (check_data_quality_empty_table empty_table); [concrete_wf | reflexivity].
Defined.

(** C10 at the [int64] column of [imputer_table], which has no missing
    cell. *)
Lemma imputer_rewrites_int_column_witness :
  wf_df imputer_table ∧
  ∃ s', lookup_column "units" (columns (handle_missing_values imputer_table).2) = Some s' ∧
        series_dtype s' = float64 ∧
        numeric_values s' = (λ z, Some (round64 (inject_Z z))) <$> [3; 1; 2; 1]%Z ∧
        (Forall (λ z, (Z.abs z ≤ 2 ^ 53)%Z) [3; 1; 2; 1]%Z →
         numeric_values s' = (λ z, Some (inject_Z z)) <$> [3; 1; 2; 1]%Z).
Proof.
  split; [concrete_wf|].
  apply (proj1 (imputer_rewrites_numeric_columns_as_float imputer_table ltac:(concrete_wf))
           (handle_missing_values imputer_table).2 ltac:(vm_compute; reflexivity)
           "units" (Int64Series [3; 1; 2; 1]%Z) eq_refl).
  by left.
Defined.

(** * Further properties of the stages *)

(** ** Tables with the same columns *)

Lemma lookup_column_None (c : string) (cols : list (string * Series)) :
  lookup_column c cols = None ↔ c ∉ cols.*1.
Proof.
  split.
  - intros H Hin. apply lookup_column_is_Some in Hin as [s Hs]. congruence.
  - intros H. destruct (lookup_column c cols) eqn:E; [|done].
    exfalso. apply H, lookup_column_is_Some. eauto.
Qed.

Lemma columns_eq_of_lookups (cols cols' : list (string * Series)) :
  cols'.*1 = cols.*1 →
  NoDup cols.*1 →
  (∀ c s, lookup_column c cols = Some s → lookup_column c cols' = Some s) →
  cols' = cols.
Proof.
  revert cols'. induction cols as [|[n s] cols IH]; intros [|[n' s'] cols'] Hn Hnd Hl;
    simpl in *; try done.
  injection Hn as -> Hn. apply NoDup_cons in Hnd as [Hnin Hnd].
  pose proof (Hl n s) as Hhead. rewrite !decide_True in Hhead by done.
  injection (Hhead eq_refl) as ->. f_equal.
  apply IH; [done|done|]. intros c t Ht.
  assert (n ≠ c) as Hne.
  { intros ->. apply Hnin. apply lookup_column_is_Some. eauto. }
  specialize (Hl c t). rewrite !decide_False in Hl by done. auto.
Qed.

Lemma DataFrame_eq (df df' : DataFrame) :
  index_len df' = index_len df →
  index_nbytes df' = index_nbytes df →
  columns df' = columns df →
  df' = df.
Proof. destruct df, df'. simpl. by intros -> -> ->. Qed.

Lemma same_table (df df' : DataFrame) :
  NoDup (column_names df) →
  index_len df' = index_len df →
  index_nbytes df' = index_nbytes df →
  column_names df' = column_names df →
  (∀ c s, lookup_column c (columns df) = Some s → lookup_column c (columns df') = Some s) →
  df' = df.
Proof.
  intros Hnd Hl Hb Hn Hlook. apply DataFrame_eq; [done|done|].
  by apply columns_eq_of_lookups.
Qed.

(** ** When the Imputer returns *)


(** The Imputer returns when every numeric column has a present value and
    every text column has a value and a statistic. *)
Lemma handle_missing_values_returns (df : DataFrame) :
  wf_df df →
  (∀ c s, lookup_column c (columns df) = Some s →
     match s with
     | ObjectSeries cells => present cells ≠ [] ∧ ¬ mixed_tie (present cells)
     | DatetimeSeries _ => True
     | _ => present (numeric_values s) ≠ []
     end) →
  ∃ df', handle_missing_values df = (Return tt, df').
Proof.
  intros Hwf Hp.
  destruct (handle_missing_values_run df Hwf)
    as (o & df' & Hrun & _ & _ & _ & _ & [(e & c & s & -> & Hs & Hwhy)|[-> _]]); [|eauto].
  exfalso. specialize (Hp c s Hs).
  destruct Hwhy as [(_ & Hn & Hm)|[(_ & Hd & Hnil)|(_ & Hd & Hmix)]].
  - apply median_None in Hm. destruct Hn as [Hn|Hn]; destruct s; done.
  - destruct s; try done. by destruct Hp.
  - destruct s; try done. by destruct Hp.
Qed.

Lemma imputer_returns_outcomes (df : DataFrame) :
  wf_df df →
  (handle_missing_values df).1 = Return tt ∨
  (handle_missing_values df).1 = Raise ValueError ∨
  (handle_missing_values df).1 = Raise TypeError.
Proof.
  intros Hwf.
  destruct (handle_missing_values_run df Hwf)
    as (o & df' & Hrun & _ & _ & _ & _ & [(e & c & s & -> & _ & Hwhy)|[-> _]]);
    rewrite Hrun; simpl; [|auto].
  destruct Hwhy as [(-> & _)|[(-> & _)|(-> & _)]]; auto.
Qed.


(** ** Running the Imputer twice *)








(** ** Running the Type Normalizer twice *)

Section NormalizerTwice.

Variable parse_datetime : string → string → option Z.
Variable parse_numeric : string → option number.

Lemma standardize_series_idem (s : Series) :
  standardize_series parse_datetime parse_numeric
    (standardize_series parse_datetime parse_numeric s) =
  standardize_series parse_datetime parse_numeric s.
Proof.
  destruct s as [cells| | |]; simpl; try done.
  destruct (to_datetime parse_datetime cells) as [d|e] eqn:Hd.
  - unfold to_datetime in Hd. destruct (parse_all _ _ cells); [|done].
    by injection Hd as <-.
  - destruct (to_numeric parse_numeric (strip_currency cells)) as [n|e'] eqn:Hn.
    + unfold to_numeric in Hn. destruct (parse_all _ _ (strip_currency cells)); [|done].
      injection Hn as <-. unfold numeric_series. by destruct (as_int64 _).
    + simpl. by rewrite Hd, Hn.
Qed.

(** X3: the Type Normalizer is idempotent: it always returns, and on the
    table it returned a second run changes nothing (a converted column is no
    longer text, and a column it could not convert fails the same two
    conversions again). *)
Theorem type_normalizer_idempotent (df : DataFrame) :
  wf_df df →
  ∃ df',
    standardize_datatypes parse_datetime parse_numeric df = (Return tt, df') ∧
    standardize_datatypes parse_datetime parse_numeric df' = (Return tt, df').
Proof.
  intros Hwf.
  destruct (standardize_datatypes_run parse_datetime parse_numeric df (proj1 Hwf))
    as (df' & Hrun & Hl & Hb & Hn & Hlook).
  exists df'. split; [done|].
  assert (Hnd' : NoDup (column_names df')) by (rewrite Hn; apply Hwf).
  destruct (standardize_datatypes_run parse_datetime parse_numeric df' Hnd')
    as (df'' & Hrun' & Hl' & Hb' & Hn' & Hlook').
  rewrite Hrun'. f_equal. apply same_table; try done.
  intros c s' Hs'. rewrite Hlook', Hs'. simpl. f_equal.
  rewrite Hlook in Hs'. destruct (lookup_column c (columns df)) as [s|]; [|done].
  injection Hs' as <-. apply standardize_series_idem.
Qed.

End NormalizerTwice.

(** ** Stripping currency marks *)

Lemma str_replace_empty (pat : ascii) (s : string) :
  list_ascii_of_string (str_replace pat "" s) =
  filter (λ c, c ≠ pat) (list_ascii_of_string s).
Proof.
  induction s as [|c s IH]; simpl; [done|].
  rewrite filter_cons. destruct (decide (c = pat)) as [->|Hne].
  - rewrite decide_False by (intros H; by apply H). exact IH.
  - rewrite decide_True by done. simpl. by rewrite IH.
Qed.

(** X11: what the Type Normalizer hands to [pd.to_numeric]: a missing cell
    stays missing, and a present string keeps its characters in order
    except that every ['$'] and every [','] is removed, wherever it stands;
    so the result contains neither mark, and a string without them is
    passed unchanged. *)
Theorem strip_currency_removes_marks (cells : list (option pyval)) :
  length (strip_currency cells) = length cells ∧
  ∀ i x, cells !! i = Some x →
    match x with
    | Some (PyStr s) =>
        ∃ s', strip_currency cells !! i = Some (Some (PyStr s')) ∧
              list_ascii_of_string s' =
              filter (λ c, c ≠ "$"%char ∧ c ≠ ","%char) (list_ascii_of_string s) ∧
              ("$"%char ∉ list_ascii_of_string s') ∧
              (","%char ∉ list_ascii_of_string s') ∧
              (("$"%char ∉ list_ascii_of_string s) →
               (","%char ∉ list_ascii_of_string s) →
               s' = s)
    | _ => strip_currency cells !! i = Some x
    end.
Proof.
  unfold strip_currency, series_str_replace. split; [by rewrite !length_fmap|].
  intros i x Hx. rewrite !list_lookup_fmap, Hx. destruct x as [[s|]|]; simpl; [|done|done].
  eexists. split; [done|].
  assert (Hchars : list_ascii_of_string (str_replace "," "" (str_replace "$" "" s)) =
                   filter (λ c, c ≠ "$"%char ∧ c ≠ ","%char) (list_ascii_of_string s)).
  { rewrite !str_replace_empty.
    induction (list_ascii_of_string s) as [|c l IH]; [done|].
    rewrite !filter_cons.
    destruct (decide (c ≠ "$"%char)) as [H1|H1].
    - rewrite filter_cons. destruct (decide (c ≠ ","%char)) as [H2|H2].
      + rewrite decide_True by done. by rewrite IH.
      + rewrite decide_False by tauto. exact IH.
    - rewrite decide_False by tauto. exact IH. }
  split; [exact Hchars|]. rewrite Hchars.
  split; [|split].
  - intros [[H _] _]%list_elem_of_filter. done.
  - intros [[_ H] _]%list_elem_of_filter. done.
  - intros H1 H2.
    rewrite <- (string_of_list_ascii_of_string s) at 2.
    rewrite <- (string_of_list_ascii_of_string (str_replace _ _ _)).
    f_equal. rewrite Hchars. apply filter_all.
    apply Forall_forall. intros c Hc. split; intros ->; contradiction.
Qed.

(** ** The Quality Report *)

Lemma mark_duplicates_length (rest : list (list cell)) :
  ∀ seen, length (mark_duplicates seen rest) = length rest.
Proof.
  induction rest as [|r rest IH]; intros seen; simpl; [done|]. by rewrite IH.
Qed.

Lemma duplicated_sum_lt (df : DataFrame) :
  (0 < index_len df)%nat → (duplicated_sum df < index_len df)%nat.
Proof.
  intros Hpos. unfold duplicated_sum, duplicated.
  destruct (empty_df df); [simpl; lia|].
  unfold rows. destruct (index_len df) as [|n]; [lia|].
  rewrite <- cons_seq. rewrite fmap_cons. simpl.
  rewrite filter_cons_False by done.
  pose proof (length_filter (λ b, b = true)
                (mark_duplicates [row df 0] (row df <$> seq 1 n))) as Hle.
  rewrite mark_duplicates_length, length_fmap, length_seq in Hle. lia.
Qed.

Lemma count_missing_le (s : Series) : (count_missing s ≤ series_len s)%nat.
Proof.
  unfold count_missing. rewrite <- series_cells_length. apply length_filter.
Qed.

(** X7: the Quality Auditor never raises; the keys of [missing_values] are
    exactly the column labels, each count is the number of missing cells of
    that column and is at most [total_rows]; and [duplicates] is smaller
    than [total_rows] whenever the table has a row (the first row is never a
    duplicate). *)
Theorem quality_report_bounds (df : DataFrame) :
  wf_df df →
  ∃ report,
    check_data_quality df = (Return report, df) ∧
    total_rows report = index_len df ∧
    (∀ c, is_Some (missing_values report !! c) ↔ c ∈ column_names df) ∧
    (∀ c s, lookup_column c (columns df) = Some s →
            missing_values report !! c = Some (count_missing s)) ∧
    (∀ c n, missing_values report !! c = Some n → (n ≤ total_rows report)%nat) ∧
    ((0 < total_rows report)%nat → (duplicates report < total_rows report)%nat).
Proof.
  intros Hwf. eexists. split; [apply check_data_quality_run|]. simpl.
  split; [done|]. split; [|split; [|split]].
  - intros c. unfold column_names. rewrite isnull_sum_lookup, <- lookup_column_is_Some.
    destruct (lookup_column c (columns df)); simpl; split; intros [? ?]; eauto; done.
  - intros c s Hs. by rewrite isnull_sum_lookup, Hs.
  - intros c n. rewrite isnull_sum_lookup.
    destruct (lookup_column c (columns df)) as [s|] eqn:Hs; simpl; [|done].
    intros [= <-]. unfold len. rewrite <- (wf_df_lookup df c s Hwf Hs).
    apply count_missing_le.
  - apply duplicated_sum_lt.
Qed.


(** ** Clipping, cell by cell *)





(** ** Quartiles and bounds *)


(** Above 2^53 not every integer is a value of float64, and the quartiles
    of an [int64] column can come out of order: NumPy converts the two
    order statistics and their difference to float64 one by one. Then every
    cell counts as an outlier, and the bounds, put in order, clip none. *)
Lemma quartiles_out_of_order :
  let s := Int64Series [18014398509481983; 18014398509481983; 18014398509481986]%Z in
  quantile s (1 # 4) = Some 18014398509481984 ∧
  quantile s (3 # 4) = Some 18014398509481982 ∧
  remove_outliers large_table = (Return {["id" := 3%nat]}, large_table).
Proof. repeat split; vm_compute; reflexivity. Qed.


(** ** How the pipeline ends *)

Lemma true_div_pos (a b : nat) :
  (0 < b)%nat →
  true_div a b = Return (round64 (inject_Z (Z.of_nat a) / inject_Z (Z.of_nat b))).
Proof. intros Hb. unfold true_div. by destruct (Nat.eqb_spec b 0); [lia|]. Qed.

Section PipelineOutcome.

Variable parse_datetime : string → string → option Z.
Variable parse_numeric : string → option number.

Lemma standardize_series_no_rows (s : Series) :
  series_len s = 0%nat →
  is_numeric s ∧ standardize_series parse_datetime parse_numeric s = s ∨
  series_dtype (standardize_series parse_datetime parse_numeric s) = datetime64.
Proof.
  destruct s as [cells|cells|cells|cells]; simpl; intros Hlen.
  - right. apply nil_length_inv in Hlen. subst. reflexivity.
  - left. split; [by left|done].
  - left. split; [by right|done].
  - by right.
Qed.

(** X8: the pipeline raises nothing but the Imputer's [ValueError] and
    [TypeError] and the Validator's [ZeroDivisionError] (never a
    [KeyError]); it returns a report only for a table with at least one
    row; on a table without rows it always raises, [ValueError] when the
    table has an [int64] or [float64] column and [ZeroDivisionError] when it
    has none. *)
Theorem pipeline_outcomes (df : DataFrame) :
  wf_df df →
  (∀ report df',
     automated_cleaning_pipeline parse_datetime parse_numeric df = (Return report, df') →
     (0 < index_len df)%nat) ∧
  (∀ e df',
     automated_cleaning_pipeline parse_datetime parse_numeric df = (Raise e, df') →
     e = ValueError ∨ e = TypeError ∨ (e = ZeroDivisionError ∧ index_len df = 0%nat)) ∧
  (index_len df = 0%nat →
   ∃ e df',
     automated_cleaning_pipeline parse_datetime parse_numeric df = (Raise e, df') ∧
     (e = ValueError ↔ ∃ c s, lookup_column c (columns df) = Some s ∧ is_numeric s) ∧
     (e = ZeroDivisionError ↔ ¬ ∃ c s, lookup_column c (columns df) = Some s ∧ is_numeric s)).
Proof.
  intros Hwf.
  destruct (automated_cleaning_pipeline_run parse_datetime parse_numeric df Hwf)
    as (df1 & o & df2 & Hrun1 & Hf1 & Hrun2 & Hf2 & Hpipe).
  destruct Hf1 as (Hl1 & _ & Hn1 & Hwf1).
  assert (Ho : o = Return tt ∨ o = Raise ValueError ∨ o = Raise TypeError).
  { destruct (imputer_returns_outcomes df1 Hwf1) as [H|[H|H]];
      rewrite Hrun2 in H; simpl in H; auto. }
  split; [|split].
  - intros report df' Hret. destruct Ho as [-> |[-> | ->]]; [|congruence|congruence].
    destruct Hpipe as (outliers & df3 & _ & (Hl3 & _) & Hpipe).
    rewrite Hpipe in Hret. destruct (index_len df) as [|n]; [|lia].
    by rewrite true_div_zero in Hret.
  - intros e df' Hraise. destruct Ho as [-> |[-> | ->]].
    + destruct Hpipe as (outliers & df3 & _ & (Hl3 & _) & Hpipe).
      rewrite Hpipe in Hraise. destruct (index_len df) as [|n] eqn:E.
      * rewrite true_div_zero in Hraise. injection Hraise as <- _. right. by right.
      * by rewrite (true_div_pos (len df3) (S n)) in Hraise by lia.
    + left. congruence.
    + right. left. congruence.
  - intros H0.
    destruct (standardize_datatypes_run parse_datetime parse_numeric df (proj1 Hwf))
      as (df1' & Hrun1' & _ & _ & _ & Hlook).
    assert (df1' = df1) as -> by congruence.
    destruct (decide (select_dtypes [int64; float64] df = [])) as [Hnone|Hsome].
    + (* no numeric column: every column is temporal after the Normalizer *)
      assert (Hno : ¬ ∃ c s, lookup_column c (columns df) = Some s ∧ is_numeric s).
      { intros (c & s & Hs & Hnum).
        assert (c ∈ select_dtypes [int64; float64] df) as Hc.
        { apply select_dtypes_elem; [apply Hwf|]. exists s.
          by rewrite <- is_numeric_select. }
        rewrite Hnone in Hc. inversion Hc. }
      destruct (handle_missing_values_returns df1 Hwf1) as [df2' Hret2].
      { intros c s1 Hs1. rewrite Hlook in Hs1.
        destruct (lookup_column c (columns df)) as [s|] eqn:Hs; [|done].
        injection Hs1 as <-.
        destruct (standardize_series_no_rows s) as [[Hnum _]|Hdt].
        - rewrite <- H0. by eapply wf_df_lookup.
        - exfalso. eauto.
        - by destruct (standardize_series parse_datetime parse_numeric s). }
      rewrite Hret2 in Hrun2. injection Hrun2 as <- <-.
      destruct Hpipe as (outliers & df3 & _ & _ & Hpipe).
      rewrite Hpipe, H0, true_div_zero. do 2 eexists. split; [done|].
      split; [split; [done | intros H; by destruct Hno] | done].
    + (* a numeric column without rows: the Imputer refuses the table *)
      destruct (select_dtypes [int64; float64] df) as [|c l] eqn:E; [done|].
      assert (c ∈ select_dtypes [int64; float64] df) as Hc by (rewrite E; left).
      apply select_dtypes_elem in Hc as (s & Hs & Hd); [|apply Hwf].
      apply is_numeric_select in Hd.
      assert (Hs1 : lookup_column c (columns df1) = Some s).
      { rewrite Hlook, Hs. simpl. f_equal.
        destruct Hd as [Hd|Hd]; destruct s; done. }
      assert (Hraise : handle_missing_values df1 = (Raise ValueError, df1)).
      { apply (handle_missing_values_unobserved df1 c s Hwf1 Hs1 Hd).
        apply numeric_values_no_rows. rewrite <- H0. by eapply wf_df_lookup. }
      rewrite Hraise in Hrun2. injection Hrun2 as <- <-.
      rewrite Hpipe. do 2 eexists. split; [done|].
      split; [split; eauto | split; [done|]].
      intros Hno. exfalso. apply Hno. eauto.
Qed.

End PipelineOutcome.

(** ** The table and the report the pipeline returns *)

Lemma series_where_float64 (cells : list float) (cond : list bool) (other : Q) :
  ∃ cells', series_where (Float64Series cells) cond other = Float64Series cells'.
Proof. unfold series_where. destruct (forallb id cond); eauto. Qed.

Lemma clip_float64 (cells : list float) (lower upper : float) :
  ∃ cells', clip (Float64Series cells) lower upper = Float64Series cells'.
Proof.
  assert (H : ∀ lo hi cond1 cond2, ∃ cells',
            series_where (series_where (Float64Series cells) cond1 lo) cond2 hi =
            Float64Series cells').
  { intros lo hi cond1 cond2.
    destruct (series_where_float64 cells cond1 lo) as [c1 ->].
    apply series_where_float64. }
  unfold clip. destruct lower as [lo|], upper as [hi|];
    [destruct (Qle_bool lo hi)| | |]; eauto using series_where_float64.
Qed.

Lemma count_missing_float64 (cells : list float) :
  Forall (λ x, isna x = false) cells → count_missing (Float64Series cells) = 0%nat.
Proof.
  intros H. unfold count_missing. simpl.
  induction H as [|[x|] cells Hx _ IH]; csimpl; [done| |done].
  destruct (decide (Some (Float x) = None)); [done|]. exact IH.
Qed.

Lemma capped_no_missing (s : Series) :
  is_numeric s →
  Forall (λ x, isna x = false) (numeric_values s) →
  Forall (λ x, isna x = false) (numeric_values (capped s)).
Proof.
  intros Hn Hall. pose proof (capped_cells s Hn) as Hcells.
  revert Hcells Hall.
  generalize (numeric_values (capped s)). generalize (numeric_values s).
  induction 1 as [|x y l l' Hxy _ IH]; intros Hall; [constructor|].
  apply Forall_cons in Hall as [Hx Hall]. rewrite Hx in Hxy.
  constructor; [|auto].
  by destruct Hxy as (lb & ub & w & _ & _ & -> & _).
Qed.

Lemma list_sum_zero (l : list nat) : Forall (λ n, n = 0%nat) l → list_sum l = 0%nat.
Proof. induction 1 as [|n l -> _ IH]; simpl; [done|exact IH]. Qed.

(** A text column that holds neither NaN nor [None] has no missing cell. *)
Lemma count_missing_strings (cells : list (option pyval)) :
  None ∉ cells → Some PyNone ∉ cells → count_missing (ObjectSeries cells) = 0%nat.
Proof.
  intros H1 H2. unfold count_missing. simpl.
  apply length_zero_iff_nil, filter_none, Forall_forall.
  intros x Hin Hx. subst x.
  apply list_elem_of_fmap in Hin as ([[a|]|] & Hy & Hin); done.
Qed.

Section PipelineResult.

Variable parse_datetime : string → string → option Z.
Variable parse_numeric : string → option number.

(** X9: when the pipeline returns, the report holds all three entries: the
    initial quality is that of the table as it was given (it is computed
    before any stage writes), [rows_remaining] equals the initial
    [total_rows], and the remaining counts are those of the table returned;
    the table returned has no [int64] column, no missing cell in a numeric
    column and no NaN in a text column, so [missing_values_remaining] is 0
    when it has no temporal column and no text column that holds [None]. *)
Theorem pipeline_report_and_table (df df' : DataFrame) (report : CleaningReport) :
  wf_df df →
  automated_cleaning_pipeline parse_datetime parse_numeric df = (Return report, df') →
  (∃ q out v,
     initial_quality report = Some q ∧
     check_data_quality df = (Return q, df) ∧
     outliers_removed report = Some out ∧
     validation report = Some v ∧
     rows_remaining v = total_rows q ∧
     missing_values_remaining v = isnull_sum_sum df' ∧
     duplicates_remaining v = duplicated_sum df' ∧
     ((∀ c s', lookup_column c (columns df') = Some s' →
         match s' with
         | ObjectSeries cells => Some PyNone ∉ cells
         | DatetimeSeries _ => False
         | _ => True
         end) →
      missing_values_remaining v = 0%nat)) ∧
  (∀ c s', lookup_column c (columns df') = Some s' →
           series_dtype s' ≠ int64 ∧
           match s' with
           | ObjectSeries cells => None ∉ cells
           | DatetimeSeries _ => True
           | _ => count_missing s' = 0%nat
           end).
Proof.
  intros Hwf Hret.
  destruct (automated_cleaning_pipeline_run parse_datetime parse_numeric df Hwf)
    as (df1 & o & df2 & Hrun1 & Hf1 & Hrun2 & Hf2 & Hpipe).
  destruct o as [[]|e]; [|congruence].
  destruct Hpipe as (outliers & df3 & Hrun3 & Hf3 & Hpipe).
  rewrite Hpipe in Hret.
  destruct (true_div (len df3) (index_len df)) as [ratio|e] eqn:Hdiv; [|done].
  injection Hret as <- <-.
  destruct Hf1 as (Hl1 & _ & Hn1 & Hwf1). destruct Hf2 as (Hl2 & _ & Hn2 & Hwf2).
  destruct Hf3 as (Hl3 & _ & Hn3 & Hwf3).
  (* every column of the result is a capped or untouched imputed column *)
  assert (Hcols : ∀ c s3, lookup_column c (columns df3) = Some s3 →
            series_dtype s3 ≠ int64 ∧
            match s3 with
            | ObjectSeries cells => None ∉ cells
            | DatetimeSeries _ => True
            | _ => count_missing s3 = 0%nat
            end).
  { intros c s3 Hs3.
    assert (c ∈ column_names df1) as Hc.
    { rewrite Hn1, <- Hn3. apply lookup_column_is_Some. eauto. }
    apply lookup_column_is_Some in Hc as [s1 Hs1].
    destruct (handle_missing_values_Return df1 df2 Hwf1 Hrun2 c s1 Hs1)
      as (s2 & Hs2 & Himp).
    destruct (remove_outliers_run df2 (proj1 Hwf2)) as (df3' & Hrun3' & _ & _ & _ & Hlook3).
    assert (df3' = df3) as -> by congruence.
    rewrite (Hlook3 c s2 Hs2) in Hs3. injection Hs3 as <-.
    assert (Hfloat : ∀ l : list Q,
              let s := Float64Series (Some <$> l) in
              ∃ cells', capped s = Float64Series cells' ∧
                        count_missing (Float64Series cells') = 0%nat).
    { intros l s.
      assert (is_numeric s) as Hnum by (by right).
      pose proof (capped_no_missing s Hnum) as Hno.
      unfold capped in *. destruct (clip_float64 (Some <$> l) (lower_bound s) (upper_bound s))
        as [cells' Hclip].
      fold s in Hclip. rewrite Hclip in *. exists cells'. split; [done|].
      apply count_missing_float64. apply Hno. simpl.
      apply Forall_fmap, Forall_true. done. }
    destruct s1 as [cells|cells|cells|cells]; unfold imputation_of in Himp.
    - destruct Himp as (m & _ & ->).
      rewrite decide_False by (intros [?|?]; done).
      split; [done|]. intros (x & [=] & _)%list_elem_of_fmap.
    - destruct Himp as (m & _ & ->).
      rewrite decide_True by (by right).
      destruct (Hfloat (fill m (numeric_values (Int64Series cells)))) as (cells' & -> & H0).
      done.
    - destruct Himp as (m & _ & ->).
      rewrite decide_True by (by right).
      destruct (Hfloat (fill m (numeric_values (Float64Series cells)))) as (cells' & -> & H0).
      done.
    - subst s2. rewrite decide_False by (intros [?|?]; done). done. }
  split; [|exact Hcols].
  eexists _, outliers, _. simpl.
  split; [done|]. split; [apply check_data_quality_run|].
  split; [done|]. split; [done|]. simpl.
  split; [by unfold len; rewrite Hl3|]. split; [done|]. split; [done|].
  intros Hnodt. unfold isnull_sum_sum. apply list_sum_zero.
  apply Forall_fmap, Forall_forall. intros [c s3] Hin. simpl.
  assert (lookup_column c (columns df3) = Some s3) as Hs3
    by (apply elem_lookup_column; [apply Hwf3 | done]).
  destruct (Hcols c s3 Hs3) as [_ H3]. specialize (Hnodt c s3 Hs3).
  destruct s3; try done. by apply count_missing_strings.
Qed.

End PipelineResult.

(** ** The Validator on its own *)

Lemma inject_nat_pos (b : nat) : (0 < b)%nat → 0 < inject_Z (Z.of_nat b).
Proof.
  intros Hb. change 0 with (inject_Z 0). rewrite <- Zlt_Qlt. lia.
Qed.

Lemma ratio_bounds (a b : nat) :
  (0 < b)%nat →
  0 <= inject_Z (Z.of_nat a) / inject_Z (Z.of_nat b) ∧
  ((a ≤ b)%nat → inject_Z (Z.of_nat a) / inject_Z (Z.of_nat b) <= 1) ∧
  ((b ≤ a)%nat → 1 <= inject_Z (Z.of_nat a) / inject_Z (Z.of_nat b)).
Proof.
  intros Hb. pose proof (inject_nat_pos b Hb) as HB.
  set (A := inject_Z (Z.of_nat a)). set (B := inject_Z (Z.of_nat b)) in *.
  assert (HA : 0 <= A).
  { unfold A. change 0 with (inject_Z 0). rewrite <- Zle_Qle. lia. }
  assert (Hx : A / B * B == A) by (field; lra).
  assert (Hle : (a ≤ b)%nat → A <= B) by (intros; unfold A, B; rewrite <- Zle_Qle; lia).
  assert (Hge : (b ≤ a)%nat → B <= A) by (intros; unfold A, B; rewrite <- Zle_Qle; lia).
  set (x := A / B) in *.
  split; [|split].
  - destruct (Qlt_le_dec x 0) as [Hneg|]; [|done]. exfalso.
    assert (x * B < 0 * B) by (by apply Qmult_lt_r). lra.
  - intros H%Hle. destruct (Qlt_le_dec 1 x) as [Hgt|]; [|done]. exfalso.
    assert (1 * B < x * B) by (by apply Qmult_lt_r). lra.
  - intros H%Hge. destruct (Qlt_le_dec x 1) as [Hlt|]; [|done]. exfalso.
    assert (x * B < 1 * B) by (by apply Qmult_lt_r). lra.
Qed.

Lemma binary64_1 : binary64 1.
Proof. reflexivity. Qed.

Lemma binary64_100 : binary64 100.
Proof. by vm_compute. Qed.

(** X10: the Validator raises [ZeroDivisionError] exactly when the original
    row count is 0; otherwise it returns the report with its earlier entries
    kept and a validation block in which [data_loss_percentage] is
    [(1 - rows / original rows) * 100] with each operation rounded to
    float64: it is 0 when the row count is the original one, lies between 0
    and 100 when no rows were added, and is positive only when rows were
    lost. Either way the table is left as it was. With 5 rows of
    originally 3 the percentage is the float64 -66.66666666666667. *)
Theorem validator_outcome :
  (∀ (df : DataFrame) (original_shape : nat * nat) (cleaning_report : CleaningReport),
     (original_shape.1 = 0%nat →
      validate_cleaning original_shape cleaning_report df = (Raise ZeroDivisionError, df)) ∧
     ((0 < original_shape.1)%nat →
      ∃ v,
        validate_cleaning original_shape cleaning_report df =
        (Return {| initial_quality := initial_quality cleaning_report;
                   outliers_removed := outliers_removed cleaning_report;
                   validation := Some v |}, df) ∧
        rows_remaining v = len df ∧
        missing_values_remaining v = isnull_sum_sum df ∧
        duplicates_remaining v = duplicated_sum df ∧
        data_loss_percentage v =
          round64 (round64 (1 - round64 (inject_Z (Z.of_nat (len df)) /
                                         inject_Z (Z.of_nat original_shape.1))) * 100) ∧
        (len df = original_shape.1 → data_loss_percentage v = 0) ∧
        ((len df ≤ original_shape.1)%nat →
         0 <= data_loss_percentage v ∧ data_loss_percentage v <= 100) ∧
        (0 < data_loss_percentage v → (len df < original_shape.1)%nat))) ∧
  ∃ v, validate_cleaning (3%nat, 2%nat) empty_report scenario_table =
       (Return {| initial_quality := None; outliers_removed := None;
                  validation := Some v |}, scenario_table) ∧
       data_loss_percentage v = Qmake (-4691249611844267) 70368744177664.
Proof.
  split.
  2:{ eexists. split; [by vm_compute|]. by vm_compute. }
  intros df [n0 m0] cleaning_report. simpl. split.
  - intros ->. reflexivity.
  - intros Hpos.
    unfold validate_cleaning.
    rewrite !bind_run, !reads_run, !bind_run, !reads_run, bind_run.
    unfold lift. simpl. rewrite (true_div_pos (len df) n0 Hpos).
    eexists. split; [reflexivity|]. simpl.
    split; [done|]. split; [done|]. split; [done|]. split; [done|].
    destruct (ratio_bounds (len df) n0 Hpos) as (H0 & Hle & Hge).
    set (x := inject_Z (Z.of_nat (len df)) / inject_Z (Z.of_nat n0)) in *.
    pose proof binary64_0 as B0. pose proof binary64_1 as B1. pose proof binary64_100 as B100.
    split; [|split].
    + intros Heq.
      assert (round64 x = 1) as ->.
      { rewrite (round64_wd x 1); [done|]. specialize (Hle ltac:(lia)).
        specialize (Hge ltac:(lia)). lra. }
      rewrite (round64_zero (1 - 1)) by lra. apply round64_zero. lra.
    + intros Hrows. specialize (Hle Hrows).
      assert (0 <= round64 x) by (by apply round64_le_l).
      assert (round64 x <= 1) by (by apply round64_le_r).
      assert (0 <= round64 (1 - round64 x)) by (apply round64_le_l; [done|lra]).
      assert (round64 (1 - round64 x) <= 1) by (apply round64_le_r; [done|lra]).
      split; [apply round64_le_l; [done|lra] | apply round64_le_r; [done|lra]].
    + intros Hloss. destruct (Nat.lt_ge_cases (len df) n0) as [|Hrows]; [done|]. exfalso.
      specialize (Hge Hrows).
      assert (1 <= round64 x) by (by apply round64_le_l).
      assert (round64 (1 - round64 x) <= 0) by (apply round64_le_r; [done|lra]).
      assert (round64 (round64 (1 - round64 x) * 100) <= 0)
        by (apply round64_le_r; [done|lra]).
      lra.
Qed.

(** ** The value the Imputer puts into a numeric column *)




(** ** A refusal after the numeric columns were written *)


(** ** Duplicate rows through the stages *)

Lemma scalar_eqb_refl (a : scalar) : scalar_eqb a a = true.
Proof.
  destruct a; simpl; try by apply bool_decide_eq_true.
  apply Qeq_bool_iff. reflexivity.
Qed.

Lemma cell_eqb_refl (a : cell) : cell_eqb a a = true.
Proof. destruct a; simpl; [apply scalar_eqb_refl | done]. Qed.

Lemma eq_preserving_refl (s : Series) : eq_preserving s s.
Proof.
  split; [done|]. intros i j a b a' b' Ha Hb Ha' Hb' H. congruence.
Qed.

(** A column rewritten cell by cell with a function that respects equality
    of cells. *)
Lemma eq_preserving_map (s s' : Series) (H : cell → cell) :
  series_cells s' = H <$> series_cells s →
  (∀ a b, cell_eqb a b = true → cell_eqb (H a) (H b) = true) →
  eq_preserving s s'.
Proof.
  intros Hc HH. split.
  - by rewrite <- !series_cells_length, Hc, length_fmap.
  - intros i j a b a' b' Ha Hb Ha' Hb' Hab.
    rewrite Hc, list_lookup_fmap in Ha', Hb'. rewrite Ha in Ha'. rewrite Hb in Hb'.
    simpl in *. injection Ha' as <-. injection Hb' as <-. by apply HH.
Qed.

(** A text column rewritten cell by cell: equal strings give equal cells,
    and so do two missing cells when NaN and [None] are rewritten alike or
    the column holds no [None]. *)
Lemma eq_preserving_text (cells : list (option pyval)) (s' : Series)
  (F : option pyval → cell) :
  series_cells s' = F <$> cells →
  (Some PyNone ∈ cells → F (Some PyNone) = F None) →
  eq_preserving (ObjectSeries cells) s'.
Proof.
  intros Hc HF. split.
  - rewrite <- !series_cells_length, Hc. simpl. by rewrite !length_fmap.
  - intros i j a b a' b' Ha Hb Ha' Hb' Hab.
    rewrite Hc, list_lookup_fmap in Ha', Hb'.
    simpl in Ha, Hb. rewrite list_lookup_fmap in Ha, Hb.
    destruct (cells !! i) as [x|] eqn:Hx; [|done].
    destruct (cells !! j) as [y|] eqn:Hy; [|done].
    simpl in *. injection Ha as <-. injection Hb as <-.
    injection Ha' as <-. injection Hb' as <-.
    assert (Hin : ∀ k z, cells !! k = Some z → z ∈ cells)
      by (intros k z Hk; apply list_elem_of_lookup; eauto).
    destruct x as [[x|]|], y as [[y|]|]; simpl in Hab; try done;
      try apply cell_eqb_refl.
    + apply bool_decide_eq_true in Hab. subst. apply cell_eqb_refl.
    + rewrite HF by eauto. apply cell_eqb_refl.
    + rewrite HF by eauto. apply cell_eqb_refl.
Qed.

Lemma as_int64_fmap (ns : list number) (zs : list Z) :
  as_int64 ns = Some zs → ns = NumInt <$> zs.
Proof.
  revert zs. induction ns as [|[z|q] ns IH]; simpl; intros zs; try done.
  - by intros [= <-].
  - destruct (as_int64 ns); simpl; [|done]. intros [= <-]. simpl.
    f_equal. by apply IH.
Qed.

Section DuplicatesNormalizer.

Variable parse_datetime : string → string → option Z.
Variable parse_numeric : string → option number.

Lemma standardize_series_eq_preserving (s : Series) :
  eq_preserving s (standardize_series parse_datetime parse_numeric s).
Proof.
  destruct s as [cells| | |]; simpl; try apply eq_preserving_refl.
  unfold to_datetime, to_numeric.
  destruct (parse_all (read_datetime parse_datetime (first_present cells)) None cells)
    as [ts|e] eqn:Hd.
  - apply parse_all_fmap in Hd. subst ts.
    eapply (eq_preserving_text _ _ (λ c, option_map Time _)).
    + simpl. rewrite <- list_fmap_compose. reflexivity.
    + done.
  - destruct (parse_all (read_numeric parse_numeric) (NumFloat NaN) (strip_currency cells))
      as [ns|e'] eqn:Hn; [|apply eq_preserving_refl].
    apply parse_all_fmap in Hn.
    unfold strip_currency, series_str_replace in Hn.
    rewrite <- !list_fmap_compose in Hn.
    unfold numeric_series. destruct (as_int64 ns) as [zs|] eqn:Hz.
    + apply as_int64_fmap in Hz.
      eapply (eq_preserving_text _ _
                (λ c, match _ c with NumInt z => Some (Int z) | _ => None end)).
      * simpl.
        transitivity ((λ n, match n with NumInt z => Some (Int z) | _ => None end) <$> ns).
        -- rewrite Hz, <- list_fmap_compose. by apply list_fmap_ext.
        -- rewrite Hn, <- list_fmap_compose. reflexivity.
      * done.
    + eapply (eq_preserving_text _ _ (λ c, option_map Float (number_to_float (_ c)))).
      * simpl. rewrite Hn, <- !list_fmap_compose. reflexivity.
      * done.
Qed.

Lemma standardize_series_object (s : Series) (cells : list (option pyval)) :
  standardize_series parse_datetime parse_numeric s = ObjectSeries cells →
  s = ObjectSeries cells.
Proof.
  destruct s as [cells0| | |]; simpl; try done.
  unfold to_datetime, to_numeric.
  destruct (parse_all (read_datetime _ _) _ cells0); [done|].
  destruct (parse_all (read_numeric _) _ (strip_currency cells0)) as [ns|]; [|done].
  unfold numeric_series. by destruct (as_int64 ns).
Qed.

End DuplicatesNormalizer.

Lemma imputation_of_eq_preserving (s s' : Series) :
  imputation_of s s' →
  (∀ cells, s = ObjectSeries cells → Some PyNone ∉ cells) →
  eq_preserving s s'.
Proof.
  destruct s as [cells|cells|cells|cells]; simpl.
  - intros (m & _ & ->) Hnone.
    apply (eq_preserving_text _ _ (λ c, object_cell (Some (default m c)))).
    + simpl. unfold fill. by rewrite <- !list_fmap_compose.
    + intros Hin. by destruct (Hnone cells).
  - intros (m & _ & ->) _.
    apply (eq_preserving_map _ _
             (λ a, match a with
                   | Some (Int z) => Some (Float (round64 (inject_Z z)))
                   | _ => None
                   end)).
    + simpl. unfold fill. rewrite <- !list_fmap_compose. by apply list_fmap_ext.
    + intros [[x|z1|q|t]|] [[y|z2|q'|t']|]; simpl; try done.
      intros E%bool_decide_eq_true. subst. apply Qeq_bool_iff. reflexivity.
  - intros (m & _ & ->) _.
    apply (eq_preserving_map _ _
             (λ a, match a with Some x => Some x | None => Some (Float m) end)).
    + simpl. unfold fill. rewrite <- !list_fmap_compose. apply list_fmap_ext.
      intros i [x|] _; done.
    + intros [a|] [b|]; simpl; try done. intros _. apply Qeq_bool_iff. reflexivity.
  - intros -> _. apply eq_preserving_refl.
Qed.

(** Two equal cells of a numeric column get the same mark from a condition
    on the value. *)
Lemma cond_eq (s : Series) (g : float → bool) :
  (∀ p q, p == q → g (Some p) = g (Some q)) →
  ∀ i j a b,
    series_cells s !! i = Some a → series_cells s !! j = Some b →
    cell_eqb a b = true →
    (g <$> numeric_values s) !! i = (g <$> numeric_values s) !! j.
Proof.
  intros Hg i j a b Ha Hb Hab. rewrite !list_lookup_fmap.
  destruct s as [c|c|c|c]; simpl in *; rewrite ?list_lookup_fmap in *.
  - by rewrite ?lookup_nil.
  - destruct (c !! i) as [x|]; [|done]. destruct (c !! j) as [y|]; [|done].
    simpl in *. injection Ha as <-. injection Hb as <-. simpl in Hab.
    apply bool_decide_eq_true in Hab. by subst.
  - destruct (c !! i) as [x|]; [|done]. destruct (c !! j) as [y|]; [|done].
    simpl in *. injection Ha as <-. injection Hb as <-.
    destruct x as [p|], y as [q|]; simpl in *; try done.
    f_equal. apply Hg. by apply Qeq_bool_iff.
  - by rewrite ?lookup_nil.
Qed.

Lemma series_where_eq_preserving (s0 s : Series) (cond : list bool) (other : Q) :
  eq_preserving s0 s →
  (∀ i j a b, series_cells s0 !! i = Some a → series_cells s0 !! j = Some b →
              cell_eqb a b = true → cond !! i = cond !! j) →
  length cond = series_len s →
  eq_preserving s0 (series_where s cond other).
Proof.
  intros [Hlen Heq] Hcond Hl. unfold series_where.
  destruct (forallb id cond); [done|].
  destruct s as [c|c|c|c]; [done| | |done]; simpl in Hl, Hlen.
  - destruct (can_hold_int64 other).
    + split; [simpl; rewrite length_zip_with_l_eq; [done|lia]|].
      intros i j a b a' b' Ha Hb Ha' Hb' Hab.
      simpl in Ha', Hb'. rewrite list_lookup_fmap in Ha', Hb'.
      destruct (zip_with _ c cond !! i) as [zi|] eqn:Ei; [|done].
      destruct (zip_with _ c cond !! j) as [zj|] eqn:Ej; [|done].
      simpl in *. injection Ha' as <-. injection Hb' as <-.
      apply lookup_zip_with_Some in Ei as (x & k & -> & Hx & Hk).
      apply lookup_zip_with_Some in Ej as (y & k' & -> & Hy & Hk').
      pose proof (Hcond i j a b Ha Hb Hab) as Hkk. rewrite Hk, Hk' in Hkk.
      injection Hkk as <-.
      assert (cell_eqb (Some (Int x)) (Some (Int y)) = true) as Hxy.
      { apply (Heq i j a b); try done; simpl; rewrite list_lookup_fmap.
        - by rewrite Hx.
        - by rewrite Hy. }
      simpl in Hxy. apply bool_decide_eq_true in Hxy. subst.
      apply bool_decide_eq_true. done.
    + split; [simpl; rewrite length_zip_with_l_eq; [done|lia]|].
      intros i j a b a' b' Ha Hb Ha' Hb' Hab.
      simpl in Ha', Hb'. rewrite list_lookup_fmap in Ha', Hb'.
      destruct (zip_with _ c cond !! i) as [zi|] eqn:Ei; [|done].
      destruct (zip_with _ c cond !! j) as [zj|] eqn:Ej; [|done].
      simpl in *. injection Ha' as <-. injection Hb' as <-.
      apply lookup_zip_with_Some in Ei as (x & k & -> & Hx & Hk).
      apply lookup_zip_with_Some in Ej as (y & k' & -> & Hy & Hk').
      pose proof (Hcond i j a b Ha Hb Hab) as Hkk. rewrite Hk, Hk' in Hkk.
      injection Hkk as <-.
      assert (cell_eqb (Some (Int x)) (Some (Int y)) = true) as Hxy.
      { apply (Heq i j a b); try done; simpl; rewrite list_lookup_fmap.
        - by rewrite Hx.
        - by rewrite Hy. }
      simpl in Hxy. apply bool_decide_eq_true in Hxy. subst.
      apply cell_eqb_refl.
  - split; [simpl; rewrite length_zip_with_l_eq; [done|lia]|].
    intros i j a b a' b' Ha Hb Ha' Hb' Hab.
    simpl in Ha', Hb'. rewrite list_lookup_fmap in Ha', Hb'.
    destruct (zip_with _ c cond !! i) as [zi|] eqn:Ei; [|done].
    destruct (zip_with _ c cond !! j) as [zj|] eqn:Ej; [|done].
    simpl in *. injection Ha' as <-. injection Hb' as <-.
    apply lookup_zip_with_Some in Ei as (x & k & -> & Hx & Hk).
    apply lookup_zip_with_Some in Ej as (y & k' & -> & Hy & Hk').
    pose proof (Hcond i j a b Ha Hb Hab) as Hkk. rewrite Hk, Hk' in Hkk.
    injection Hkk as <-.
    assert (cell_eqb (option_map Float x) (option_map Float y) = true) as Hxy.
    { apply (Heq i j a b); try done; simpl; rewrite list_lookup_fmap.
      - by rewrite Hx.
      - by rewrite Hy. }
    destruct k; [done|]. apply cell_eqb_refl.
Qed.

Lemma capped_eq_preserving (s : Series) : is_numeric s → eq_preserving s (capped s).
Proof.
  intros Hn. unfold capped, clip.
  assert (Hlo : ∀ lo, eq_preserving s
            (series_where s ((λ x, isna x || fle (Some lo) x) <$> numeric_values s) lo)).
  { intros lo. apply series_where_eq_preserving; [apply eq_preserving_refl| |].
    - apply cond_eq. intros p q Hpq. simpl. apply eq_true_iff_eq.
      rewrite !Qle_bool_iff, Hpq. done.
    - by rewrite length_fmap, numeric_values_length. }
  assert (Hhi : ∀ hi s1, eq_preserving s s1 →
            eq_preserving s
              (series_where s1 ((λ x, isna x || fle x (Some hi)) <$> numeric_values s) hi)).
  { intros hi s1 H1. apply series_where_eq_preserving; [done| |].
    - apply cond_eq. intros p q Hpq. simpl. apply eq_true_iff_eq.
      rewrite !Qle_bool_iff, Hpq. done.
    - rewrite length_fmap, numeric_values_length by done. symmetry. apply H1. }
  destruct (lower_bound s) as [lo|], (upper_bound s) as [hi|];
    [destruct (Qle_bool lo hi)| | |]; auto using eq_preserving_refl.
Qed.

(** ** Rows and marks *)

Lemma row_row_of (df : DataFrame) (i : nat) : row df i = row_of (columns df) i.
Proof. reflexivity. Qed.

Lemma row_eqb_preserved (cols cols' : list (string * Series)) (n i j : nat) :
  Forall2 (λ c c', eq_preserving c.2 c'.2) cols cols' →
  Forall (λ c, series_len c.2 = n) cols →
  (i < n)%nat → (j < n)%nat →
  row_eqb (row_of cols i) (row_of cols j) = true →
  row_eqb (row_of cols' i) (row_of cols' j) = true.
Proof.
  intros HF. induction HF as [|[c s] [c' s'] cols cols' [Hlen Hs] _ IH];
    intros Hall Hi Hj; [done|].
  apply Forall_cons in Hall as [Hn Hall]. simpl in Hn, Hlen, Hs.
  assert (Hcell : ∀ (t : Series) k, series_len t = n → (k < n)%nat →
            ∃ a, series_cells t !! k = Some a).
  { intros t k Ht Hk. apply lookup_lt_is_Some. rewrite series_cells_length. lia. }
  destruct (Hcell s i Hn Hi) as [a Ha]. destruct (Hcell s j Hn Hj) as [b Hb].
  destruct (Hcell s' i ltac:(congruence) Hi) as [a' Ha'].
  destruct (Hcell s' j ltac:(congruence) Hj) as [b' Hb'].
  unfold row_of. rewrite !fmap_cons. cbn [row_eqb snd].
  rewrite (Ha : @lookup nat (option scalar) (list cell) _ i (series_cells s) = Some a).
  rewrite (Hb : @lookup nat (option scalar) (list cell) _ j (series_cells s) = Some b).
  rewrite (Ha' : @lookup nat (option scalar) (list cell) _ i (series_cells s') = Some a').
  rewrite (Hb' : @lookup nat (option scalar) (list cell) _ j (series_cells s') = Some b').
  simpl.
  intros [Hab Hrest]%andb_true_iff. apply andb_true_iff. split.
  - by eapply (Hs i j a b).
  - by apply IH.
Qed.

Lemma mark_duplicates_mono (rest seen : list (list cell * list cell)) :
  (∀ p q, p ∈ (seen ++ rest)%list → q ∈ (seen ++ rest)%list →
          row_eqb p.1 q.1 = true → row_eqb p.2 q.2 = true) →
  (count_true (mark_duplicates seen.*1 rest.*1) ≤
   count_true (mark_duplicates seen.*2 rest.*2))%nat.
Proof.
  revert seen. induction rest as [|p rest IH]; intros seen H; simpl; [done|].
  assert (IH' : (count_true (mark_duplicates (p :: seen).*1 rest.*1) ≤
                 count_true (mark_duplicates (p :: seen).*2 rest.*2))%nat).
  { apply IH. intros a b Ha Hb. apply H.
    - rewrite elem_of_app, !elem_of_cons in *. tauto.
    - rewrite elem_of_app, !elem_of_cons in *. tauto. }
  simpl in IH'. unfold count_true in *. rewrite !filter_cons.
  destruct (existsb (row_eqb p.1) seen.*1) eqn:E.
  - assert (existsb (row_eqb p.2) seen.*2 = true) as ->.
    { apply existsb_exists in E as (r & Hr & Heq).
      apply list_elem_of_In, list_elem_of_fmap in Hr as (q & -> & Hq).
      apply existsb_exists. exists q.2. split.
      - apply list_elem_of_In, list_elem_of_fmap. eauto.
      - apply H; [| |done].
        + rewrite elem_of_app, elem_of_cons. tauto.
        + rewrite elem_of_app. tauto. }
    rewrite !decide_True by done. simpl. apply le_n_S. exact IH'.
  - rewrite decide_False by done.
    destruct (decide (existsb (row_eqb p.2) seen.*2 = true)); simpl;
      [apply le_S|]; exact IH'.
Qed.

Lemma columns_Forall2 (R : Series → Series → Prop) (cols cols' : list (string * Series)) :
  cols'.*1 = cols.*1 →
  NoDup cols.*1 →
  (∀ c s, lookup_column c cols = Some s → ∃ s', lookup_column c cols' = Some s' ∧ R s s') →
  Forall2 (λ c c', R c.2 c'.2) cols cols'.
Proof.
  revert cols'. induction cols as [|[n s] cols IH]; intros [|[n' s'] cols'] Hn Hnd Hl;
    simpl in *; try done.
  injection Hn as -> Hn. apply NoDup_cons in Hnd as [Hnin Hnd].
  constructor.
  - destruct (Hl n s) as (t & Ht & HR); [by rewrite decide_True|].
    rewrite decide_True in Ht by done. injection Ht as <-. done.
  - apply IH; [done|done|]. intros c t Ht.
    assert (n ≠ c) as Hne.
    { intros ->. apply Hnin. apply lookup_column_is_Some. eauto. }
    destruct (Hl c t) as (t' & Ht' & HR); [by rewrite decide_False|].
    rewrite decide_False in Ht' by done. eauto.
Qed.

Lemma duplicated_sum_mono (df df' : DataFrame) :
  wf_df df → rows_eq_preserving df df' → (duplicated_sum df ≤ duplicated_sum df')%nat.
Proof.
  intros [Hnd Hlen] (Hl & Hn & Hlook).
  assert (HF : Forall2 (λ c c', eq_preserving c.2 c'.2) (columns df) (columns df'))
    by (by apply columns_Forall2).
  unfold duplicated_sum, duplicated.
  assert (empty_df df' = empty_df df) as ->.
  { unfold empty_df. rewrite Hl. f_equal.
    by rewrite <- (Forall2_length _ _ _ HF). }
  destruct (empty_df df); [done|].
  set (pairs := (λ i, (row df i, row df' i)) <$> seq 0 (index_len df)).
  assert (rows df = pairs.*1) as ->
    by (unfold rows, pairs; rewrite <- list_fmap_compose; by apply list_fmap_ext).
  assert (rows df' = pairs.*2) as ->
    by (unfold rows, pairs; rewrite Hl, <- list_fmap_compose; by apply list_fmap_ext).
  apply (mark_duplicates_mono pairs []). simpl.
  intros p q Hp Hq. unfold pairs in Hp, Hq.
  apply list_elem_of_fmap in Hp as (i & -> & Hi). apply list_elem_of_fmap in Hq as (j & -> & Hj).
  apply elem_of_seq in Hi, Hj. simpl. rewrite !row_row_of.
  by apply (row_eqb_preserved _ _ (index_len df)); [| |lia|lia].
Qed.

Lemma remove_outliers_rows_eq_preserving (df : DataFrame) :
  wf_df df → rows_eq_preserving df (remove_outliers df).2.
Proof.
  intros [Hnd _].
  destruct (remove_outliers_run df Hnd) as (df' & Hrun & Hl & _ & Hn & Hlook).
  rewrite Hrun. simpl. split; [done|]. split; [done|].
  intros c s Hs. eexists. split; [by apply Hlook|].
  destruct (decide (is_numeric s)); [by apply capped_eq_preserving | apply eq_preserving_refl].
Qed.

Lemma handle_missing_values_rows_eq_preserving (df df' : DataFrame) :
  wf_df df →
  no_None df →
  handle_missing_values df = (Return tt, df') →
  rows_eq_preserving df df'.
Proof.
  intros Hwf Hnone Hret.
  pose proof (handle_missing_values_frame df Hwf) as Hf. rewrite Hret in Hf.
  destruct Hf as (Hl & _ & Hn & _). split; [done|]. split; [done|].
  intros c s Hs.
  destruct (handle_missing_values_Return df df' Hwf Hret c s Hs) as (s' & Hs' & Himp).
  exists s'. split; [done|]. apply imputation_of_eq_preserving; [done|].
  intros cells ->. by apply (Hnone c).
Qed.

Section Duplicates.

Variable parse_datetime : string → string → option Z.
Variable parse_numeric : string → option number.

Lemma standardize_datatypes_rows_eq_preserving (df : DataFrame) :
  wf_df df →
  rows_eq_preserving df (standardize_datatypes parse_datetime parse_numeric df).2.
Proof.
  intros [Hnd _].
  destruct (standardize_datatypes_run parse_datetime parse_numeric df Hnd)
    as (df' & Hrun & Hl & _ & Hn & Hlook).
  rewrite Hrun. simpl. split; [done|]. split; [done|].
  intros c s Hs. eexists. split; [by rewrite Hlook, Hs|].
  apply standardize_series_eq_preserving.
Qed.

Lemma standardize_datatypes_no_None (df : DataFrame) :
  wf_df df →
  no_None df →
  no_None (standardize_datatypes parse_datetime parse_numeric df).2.
Proof.
  intros [Hnd _] Hnone.
  destruct (standardize_datatypes_run parse_datetime parse_numeric df Hnd)
    as (df' & Hrun & _ & _ & _ & Hlook).
  rewrite Hrun. simpl. intros c cells Hs. rewrite Hlook in Hs.
  destruct (lookup_column c (columns df)) as [s|] eqn:E; [|done].
  injection Hs as Hs. apply standardize_series_object in Hs. subst s.
  by apply (Hnone c).
Qed.

(** X13: in a table whose text columns hold no [None], the number of
    duplicate rows never goes down through a stage: it is at least as large
    after the Type Normalizer, after the Imputer (when it returns) and after
    the Outlier Capper as before, because two rows that compare equal before
    a stage compare equal after it; so in the report of the pipeline
    [duplicates_remaining] is at least the initial [duplicates]. The
    Normalizer and the Capper need no condition on the table. *)
Theorem duplicates_never_decrease (df : DataFrame) :
  wf_df df →
  (duplicated_sum df ≤
   duplicated_sum (standardize_datatypes parse_datetime parse_numeric df).2)%nat ∧
  (no_None df →
   ∀ df', handle_missing_values df = (Return tt, df') →
          (duplicated_sum df ≤ duplicated_sum df')%nat) ∧
  (duplicated_sum df ≤ duplicated_sum (remove_outliers df).2)%nat ∧
  (no_None df →
   ∀ report df',
     automated_cleaning_pipeline parse_datetime parse_numeric df = (Return report, df') →
     ∃ q v, initial_quality report = Some q ∧
            validation report = Some v ∧
            (duplicates q ≤ duplicates_remaining v)%nat).
Proof.
  intros Hwf. split; [|split; [|split]].
  - by apply duplicated_sum_mono, standardize_datatypes_rows_eq_preserving.
  - intros Hnone df' Hret.
    by apply duplicated_sum_mono, handle_missing_values_rows_eq_preserving.
  - by apply duplicated_sum_mono, remove_outliers_rows_eq_preserving.
  - intros Hnone report df' Hret.
    destruct (automated_cleaning_pipeline_run parse_datetime parse_numeric df Hwf)
      as (df1 & o & df2 & Hrun1 & Hf1 & Hrun2 & Hf2 & Hpipe).
    destruct o as [[]|e]; [|congruence].
    destruct Hpipe as (outliers & df3 & Hrun3 & Hf3 & Hpipe).
    rewrite Hpipe in Hret.
    destruct (true_div (len df3) (index_len df)) as [ratio|e] eqn:Hdiv; [|done].
    injection Hret as <- <-. do 2 eexists. split; [done|]. split; [done|]. simpl.
    destruct Hf1 as (_ & _ & _ & Hwf1). destruct Hf2 as (_ & _ & _ & Hwf2).
    pose proof (standardize_datatypes_rows_eq_preserving df Hwf) as H1.
    pose proof (standardize_datatypes_no_None df Hwf Hnone) as Hnone1.
    rewrite Hrun1 in H1, Hnone1. simpl in Hnone1.
    pose proof (handle_missing_values_rows_eq_preserving df1 df2 Hwf1 Hnone1 Hrun2) as H2.
    pose proof (remove_outliers_rows_eq_preserving df2 Hwf2) as H3.
    rewrite Hrun3 in H3.
    pose proof (duplicated_sum_mono df df1 Hwf H1).
    pose proof (duplicated_sum_mono df1 df2 Hwf1 H2).
    pose proof (duplicated_sum_mono df2 df3 Hwf2 H3). lia.
Qed.

End Duplicates.

(** ** The further properties at concrete tables *)



(** X3 at [scenario_table], with the sample recognisers. *)
Lemma type_normalizer_idempotent_witness :
  wf_df scenario_table ∧
  ∃ df',
    standardize_datatypes no_datetime parse_decimal scenario_table = (Return tt, df') ∧
    standardize_datatypes no_datetime parse_decimal df' = (Return tt, df').
Proof.
  split; [concrete_wf|].
  apply (type_normalizer_idempotent no_datetime parse_decimal scenario_table).
  concrete_wf.
Defined.




(** X7 at [scenario_table]. *)
Lemma quality_report_bounds_witness :
  wf_df scenario_table ∧
  ∃ report,
    check_data_quality scenario_table = (Return report, scenario_table) ∧
    total_rows report = 5%nat ∧
    (duplicates report < total_rows report)%nat.
Proof.
  split; [concrete_wf|].
  destruct (quality_report_bounds scenario_table ltac:(concrete_wf))
    as (report & Hrun & Hrows & _ & _ & _ & Hdup).
  exists report. split; [exact Hrun|]. split; [exact Hrows|].
  apply Hdup. rewrite Hrows. simpl. lia.
Defined.

(** X8 at [empty_table], which has numeric columns: the pipeline raises
    [ValueError]. *)
Lemma pipeline_outcomes_witness :
  wf_df empty_table ∧ index_len empty_table = 0%nat ∧
  ∃ e df',
    automated_cleaning_pipeline no_datetime parse_decimal empty_table = (Raise e, df') ∧
    (e = ValueError ↔
     ∃ c s, lookup_column c (columns empty_table) = Some s ∧ is_numeric s) ∧
    (e = ZeroDivisionError ↔
     ¬ ∃ c s, lookup_column c (columns empty_table) = Some s ∧ is_numeric s).
Proof.
  split; [concrete_wf|]. split; [reflexivity|].
  apply (pipeline_outcomes no_datetime parse_decimal empty_table);
    [concrete_wf | reflexivity].
Defined.

(** X9 at [scenario_table], with the sample recognisers. *)
Lemma pipeline_report_and_table_witness :
  wf_df scenario_table ∧
  ∀ c s', lookup_column c
            (columns (automated_cleaning_pipeline no_datetime parse_decimal
                        scenario_table).2) = Some s' →
          series_dtype s' ≠ int64 ∧
          match s' with
          | ObjectSeries cells => None ∉ cells
          | DatetimeSeries _ => True
          | _ => count_missing s' = 0%nat
          end.
Proof.
  split; [concrete_wf|].
  apply (pipeline_report_and_table no_datetime parse_decimal scenario_table
           (automated_cleaning_pipeline no_datetime parse_decimal scenario_table).2
           (returned (automated_cleaning_pipeline no_datetime parse_decimal scenario_table)
              empty_report));
    [concrete_wf | vm_compute; reflexivity].
Defined.

(** X10 at [scenario_table] with five original rows. *)
Lemma validator_outcome_witness :
  (0 < 5)%nat ∧ len scenario_table = 5%nat ∧
  ∃ v,
    validate_cleaning (5%nat, 2%nat) empty_report scenario_table =
    (Return {| initial_quality := None; outliers_removed := None;
               validation := Some v |}, scenario_table) ∧
    data_loss_percentage v = 0.
Proof.
  split; [lia|]. split; [reflexivity|].
  destruct (proj2 (proj1 validator_outcome scenario_table (5%nat, 2%nat) empty_report)
              ltac:(simpl; lia))
    as (v & Hrun & _ & _ & _ & _ & Hzero & _).
  exists v. split; [exact Hrun | exact (Hzero eq_refl)].
Defined.

(** X11 at the cells ["$1,200"] and missing. *)
Lemma strip_currency_witness :
  [Some (PyStr "$1,200"); None] !! 0%nat = Some (Some (PyStr "$1,200")) ∧
  ∃ s', strip_currency [Some (PyStr "$1,200"); None] !! 0%nat = Some (Some (PyStr s')) ∧
        list_ascii_of_string s' =
        filter (λ c, c ≠ "$"%char ∧ c ≠ ","%char) (list_ascii_of_string "$1,200") ∧
        ("$"%char ∉ list_ascii_of_string s') ∧
        (","%char ∉ list_ascii_of_string s') ∧
        (("$"%char ∉ list_ascii_of_string "$1,200") →
         (","%char ∉ list_ascii_of_string "$1,200") →
         s' = "$1,200").
Proof.
  split; [reflexivity|].
  exact (proj2 (strip_currency_removes_marks [Some (PyStr "$1,200"); None]) 0%nat
           (Some (PyStr "$1,200")) eq_refl).
Defined.


(** X13 at [scenario_table], with the sample recognisers. *)
Lemma duplicates_never_decrease_witness :
  wf_df scenario_table ∧ no_None scenario_table ∧
  (duplicated_sum scenario_table ≤
   duplicated_sum (remove_outliers scenario_table).2)%nat ∧
  ∀ report df',
    automated_cleaning_pipeline no_datetime parse_decimal scenario_table =
    (Return report, df') →
    ∃ q v, initial_quality report = Some q ∧
           validation report = Some v ∧
           (duplicates q ≤ duplicates_remaining v)%nat.
Proof.
  assert (Hnone : no_None scenario_table).
  { intros c cells Hs. simpl in Hs.
    repeat (case_decide; [injection Hs as <-; by apply (bool_decide_unpack _)|]). done. }
  split; [concrete_wf|]. split; [exact Hnone|].
  destruct (duplicates_never_decrease no_datetime parse_decimal scenario_table
              ltac:(concrete_wf)) as (_ & _ & H3 & H4).
  split; [exact H3 | exact (H4 Hnone)].
Defined.

